(** * The streaming connection manager of the bybit-api client

    A shallow embedding of [src/websocket-client] (the [WebsocketClient]
    class) and of the helpers of [src/util/requestUtils], followed by the
    properties of the connection state machine, the heartbeat, the message
    dispatch and the subscription store, and by further properties of the
    request helpers and of the event loop as a whole.

    The client is single threaded: every public method, timer callback and
    transport event handler runs to completion.  Each of them is embedded as
    a computation in a small state-and-exception monad over [World], the
    explicit store of everything the class closes over: the [WsStore], the
    transports created so far, the pending timers, the events emitted, the
    log, and the [connect] calls suspended at their [await]. *)

From Stdlib Require Import String Ascii List ZArith Bool Arith Lia DecimalString.
From Stdlib Require Import Permutation Sorted.
Import ListNotations.
Open Scope string_scope.
Open Scope list_scope.

Set Implicit Arguments.
#[local] Set Warnings "-register-all".

(* ===================================================================== *)
(** ** JavaScript values carried by frames *)
(* ===================================================================== *)

Module Json.

(** The value [JSON.parse] returns.  Numbers are only ever tested for
    truthiness by the client, so integers stand for them.  An object is the
    list of its own properties. *)
Inductive json : Type :=
| JNull
| JBool (b : bool)
| JNum (n : Z)
| JStr (s : string)
| JArr (items : list json)
| JObj (fields : list (string * json)).

(** JavaScript truthiness. *)
Definition truthy (v : json) : bool :=
  match v with
  | JNull => false
  | JBool b => b
  | JNum n => negb (n =? 0)%Z
  | JStr s => negb (s =? "")%string
  | JArr _ => true
  | JObj _ => true
  end.

(** A property read yields [None] for [undefined]. *)
Definition truthy_opt (v : option json) : bool :=
  match v with
  | Some x => truthy x
  | None => false
  end.

Fixpoint assoc (name : string) (fields : list (string * json)) : option json :=
  match fields with
  | [] => None
  | (k, v) :: rest => if (k =? name)%string then Some v else assoc name rest
  end.

(** [v.name]: the named own property of an object, [undefined] on any other
    value the client can reach with a property read. *)
Definition prop (v : json) (name : string) : option json :=
  match v with
  | JObj fields => assoc name fields
  | _ => None
  end.

(** [name in v]: defined on objects and arrays; on a primitive the operator
    raises a TypeError, rendered by [None]. *)
Definition has_in (name : string) (v : json) : option bool :=
  match v with
  | JObj fields =>
      Some (match assoc name fields with Some _ => true | None => false end)
  | JArr _ => Some false
  | _ => None
  end.

(** [v === 'literal'] and [v === true]. *)
Definition is_str (v : option json) (lit : string) : bool :=
  match v with
  | Some (JStr s) => (s =? lit)%string
  | _ => false
  end.

Definition is_true (v : option json) : bool :=
  match v with
  | Some (JBool true) => true
  | _ => false
  end.

End Json.
Import Json.

(** A thrown value: the client only reads [message] and [msg] of it. *)
Record Error : Type := mkError {
  message : option string;
  msg : option string
}.

Definition truthy_string (s : option string) : bool :=
  match s with
  | Some x => negb (x =? "")%string
  | None => false
  end.

(** Template-literal rendering of an optional string. *)
Definition render (s : option string) : string :=
  match s with
  | Some x => x
  | None => "undefined"
  end.

(* ===================================================================== *)
(** ** src/util/requestUtils.ts *)
(* ===================================================================== *)

Module RequestUtils.

(** The values the callers put in [params].  [PNumber n] stands for a
    number that is an integer a double holds exactly ([safeInteger] below):
    the timestamps, windows and limits of the requests.  Fractions, [NaN]
    and magnitudes that print in exponent form are outside the model. *)
Inductive ParamValue : Type :=
| PUndefined
| PString (s : string)
| PNumber (n : Z).

(** The text [`${value}`] gives: for the numbers modelled, the decimal
    digits. *)
Definition render_value (v : ParamValue) : string :=
  match v with
  | PUndefined => "undefined"
  | PString s => s
  | PNumber n => NilZero.string_of_int (Z.to_int n)
  end.

(** [Array.prototype.sort] on the keys: ascending code-unit order, which is
    the order compared here when the keys are ASCII ([isAscii] below), as
    the parameter names of the API are. *)
Fixpoint insert_sorted (p : string * ParamValue) (l : list (string * ParamValue))
  : list (string * ParamValue) :=
  match l with
  | [] => [p]
  | q :: rest =>
      if (fst p <=? fst q)%string then p :: l else q :: insert_sorted p rest
  end.

Definition sort_by_key (l : list (string * ParamValue)) : list (string * ParamValue) :=
  fold_right insert_sorted [] l.

Fixpoint join (sep : string) (parts : list string) : string :=
  match parts with
  | [] => ""
  | [x] => x
  | x :: rest => (x ++ sep ++ join sep rest)%string
  end.

Definition is_undefined (v : ParamValue) : bool :=
  match v with
  | PUndefined => true
  | _ => false
  end.

(** [serializeParams(params, strict_validation)]: [inr] is the thrown
    error. *)
Definition serializeParams (params : list (string * ParamValue))
    (strict_validation : bool) : string + Error :=
  let sorted := sort_by_key params in
  if strict_validation && existsb (fun p => is_undefined (snd p)) sorted
  then inr (mkError (Some "Failed to sign API request due to undefined parameter") None)
  else inl (join "&" (map (fun p => (fst p ++ "=" ++ render_value (snd p))%string) sorted)).

(** The exported [isWsPong(response)], reduced to the truthiness its callers
    test. *)
Definition isWsPong (response : json) : bool :=
  if truthy_opt (prop response "pong") || truthy_opt (prop response "ping")
  then true
  else
    truthy_opt (prop response "request")
    && match prop response "request" with
       | Some request => is_str (prop request "op") "ping"
       | None => false
       end
    && is_str (prop response "ret_msg") "pong"
    && is_true (prop response "success").

(** [RestClientOptions] *)
Inductive SyncInterval : Type :=
| SyncNumber (n : Z)
| SyncString (s : string).

Record RestClientOptions : Type := mkRestClientOptions {
  recv_window : option Z;
  sync_interval_ms : option SyncInterval;
  disable_time_sync : option bool;
  strict_param_validation : option bool;
  baseUrl : option string;
  parse_exceptions : option bool
}.

Definition baseUrlsInverse (net : string) : string :=
  if (net =? "livenet")%string
  then "https://api.bybit.com"
  else "https://api-testnet.bybit.com".

(** [getRestBaseUrl(useLivenet, restInverseOptions)] *)
Definition getRestBaseUrl (useLivenet : bool) (restInverseOptions : RestClientOptions)
  : string :=
  if truthy_string (baseUrl restInverseOptions)
  then render (baseUrl restInverseOptions)
  else if Bool.eqb useLivenet true
  then baseUrlsInverse "livenet"
  else baseUrlsInverse "testnet".

Definition publicPrefixes : list string :=
  ["v2/public"; "public/linear"; "spot/quote/v1"; "spot/v1/symbols"; "spot/v1/time"].

(** [isPublicEndpoint(endpoint)]: the loop returns at the first prefix the
    endpoint starts with. *)
Definition isPublicEndpoint (endpoint : string) : bool :=
  existsb (fun p => String.prefix p endpoint) publicPrefixes.

End RequestUtils.

(* ===================================================================== *)
(** ** src/websocket-client.ts: constants and pure helpers *)
(* ===================================================================== *)

Inductive WsConnectionState : Type :=
| READY_STATE_INITIAL
| READY_STATE_CONNECTING
| READY_STATE_CONNECTED
| READY_STATE_CLOSING
| READY_STATE_RECONNECTING.

(** The numeric value of each enum member. *)
Definition state_code (s : WsConnectionState) : Z :=
  match s with
  | READY_STATE_INITIAL => 0
  | READY_STATE_CONNECTING => 1
  | READY_STATE_CONNECTED => 2
  | READY_STATE_CLOSING => 3
  | READY_STATE_RECONNECTING => 4
  end.

Definition state_eqb (a b : WsConnectionState) : bool :=
  (state_code a =? state_code b)%Z.

Definition inverseEndpoints (net : string) : string :=
  if (net =? "livenet")%string
  then "wss://stream.bybit.com/realtime"
  else "wss://stream-testnet.bybit.com/realtime".

Definition linearEndpoints (net : string) : string :=
  if (net =? "livenet")%string
  then "wss://stream.bybit.com/realtime_public"
  else "wss://stream-testnet.bybit.com/realtime_public".

Definition defaultWsKey : string := "inverse".

Definition getLinearWsKeyForTopic (topic : string) : string :=
  if (topic =? "")%string then "public" else "private".

(** The file-local [isWsPong] of the websocket client, the one its message
    dispatch calls, reduced to the truthiness [onWsMessageResponse] tests. *)
Definition isWsPong (response : json) : bool :=
  truthy_opt (prop response "request")
  && match prop response "request" with
     | Some request => is_str (prop request "op") "ping"
     | None => false
     end
  && is_str (prop response "ret_msg") "pong"
  && is_true (prop response "success").

Record WSClientConfigurableOptions : Type := mkConfig {
  cfg_key : option string;
  cfg_secret : option string;
  cfg_livenet : option bool;
  cfg_linear : option bool;
  cfg_pongTimeout : option Z;
  cfg_pingInterval : option Z;
  cfg_reconnectTimeout : option Z;
  cfg_wsUrl : option string
}.

Record WebsocketClientOptions : Type := mkOptions {
  key : option string;
  secret : option string;
  livenet : bool;
  linear : bool;
  pongTimeout : Z;
  pingInterval : Z;
  reconnectTimeout : Z;
  wsUrl : option string
}.

Definition or_default {A : Type} (o : option A) (d : A) : A :=
  match o with
  | Some x => x
  | None => d
  end.

(** The constructor's [{ livenet: false, linear: false, pongTimeout: 1000,
    pingInterval: 10000, reconnectTimeout: 500, ...options }]. *)
Definition mergeOptions (o : WSClientConfigurableOptions) : WebsocketClientOptions :=
  {| key := cfg_key o;
     secret := cfg_secret o;
     livenet := or_default (cfg_livenet o) false;
     linear := or_default (cfg_linear o) false;
     pongTimeout := or_default (cfg_pongTimeout o) 1000%Z;
     pingInterval := or_default (cfg_pingInterval o) 10000%Z;
     reconnectTimeout := or_default (cfg_reconnectTimeout o) 500%Z;
     wsUrl := cfg_wsUrl o |}.

(* ===================================================================== *)
(** ** util/WsStore *)
(* ===================================================================== *)

Definition SocketId : Type := nat.
Definition TimerId : Type := nat.

Module WsStore.

(** Modelled from the spec: the class [WsStore] of [util/WsStore], which the
    client imports and whose file is not among the sources.  The spec's
    Connection Record and Subscription Store contract are followed: one
    record per connection key, holding the state (Initial for a key not seen
    before), the socket handle, the two timer handles and the set of
    desired topics; accessors read or write one field of the key's record
    and do nothing else.  [get(key, true)], which the client calls, creates
    the record of a key that has none.  Keys are listed in creation order
    and topics in insertion order, as a JavaScript object and [Set] keep
    them. *)
Record WsStoredState : Type := mkStored {
  ws : option SocketId;
  connectionState : WsConnectionState;
  activePingTimer : option TimerId;
  activePongTimer : option TimerId;
  subscribedTopics : list string
}.

Definition t : Type := list (string * WsStoredState).

Definition fresh : WsStoredState :=
  {| ws := None;
     connectionState := READY_STATE_INITIAL;
     activePingTimer := None;
     activePongTimer := None;
     subscribedTopics := [] |}.

Definition empty : t := [].

(** Modelled from the spec: [get(key)], the record of a key if it has one. *)
Fixpoint get (s : t) (key : string) : option WsStoredState :=
  match s with
  | [] => None
  | (k, r) :: rest => if (k =? key)%string then Some r else get rest key
  end.

(** Modelled from the spec: a write through [get(key, true)]: the record of
    [key] is created when missing, then [f] updates it in place. *)
Fixpoint update (s : t) (key : string) (f : WsStoredState -> WsStoredState) : t :=
  match s with
  | [] => [(key, f fresh)]
  | (k, r) :: rest =>
      if (k =? key)%string then (k, f r) :: rest else (k, r) :: update rest key f
  end.

(** Modelled from the spec: [getKeys()]. *)
Definition getKeys (s : t) : list string := map fst s.

(** Modelled from the spec: [getSocket] / [setSocket]; setting a socket does
    not touch the one it replaces. *)
Definition getWs (s : t) (key : string) : option SocketId :=
  match get s key with
  | Some r => ws r
  | None => None
  end.

Definition setWs (s : t) (key : string) (sock : SocketId) : t :=
  update s key (fun r =>
    {| ws := Some sock;
       connectionState := connectionState r;
       activePingTimer := activePingTimer r;
       activePongTimer := activePongTimer r;
       subscribedTopics := subscribedTopics r |}).

(** Modelled from the spec: the state accessors, Initial for an unknown
    key. *)
Definition getConnectionState (s : t) (key : string) : WsConnectionState :=
  match get s key with
  | Some r => connectionState r
  | None => READY_STATE_INITIAL
  end.

Definition setConnectionState (s : t) (key : string) (st : WsConnectionState) : t :=
  update s key (fun r =>
    {| ws := ws r;
       connectionState := st;
       activePingTimer := activePingTimer r;
       activePongTimer := activePongTimer r;
       subscribedTopics := subscribedTopics r |}).

Definition isConnectionState (s : t) (key : string) (st : WsConnectionState) : bool :=
  state_eqb (getConnectionState s key) st.

(** Writes of the two timer handles, as the client does them through
    [get(key)] and [get(key, true)]. *)
Definition setPingTimer (s : t) (key : string) (h : option TimerId) : t :=
  update s key (fun r =>
    {| ws := ws r;
       connectionState := connectionState r;
       activePingTimer := h;
       activePongTimer := activePongTimer r;
       subscribedTopics := subscribedTopics r |}).

Definition setPongTimer (s : t) (key : string) (h : option TimerId) : t :=
  update s key (fun r =>
    {| ws := ws r;
       connectionState := connectionState r;
       activePingTimer := activePingTimer r;
       activePongTimer := h;
       subscribedTopics := subscribedTopics r |}).

(** Modelled from the spec: [topicsFor], [addTopic] (no-op when present) and
    [removeTopic] (no-op when absent), under the names the client calls:
    [getTopics], [addTopic], [deleteTopic]. *)
Definition getTopics (s : t) (key : string) : list string :=
  match get s key with
  | Some r => subscribedTopics r
  | None => []
  end.

Definition mem (topic : string) (l : list string) : bool :=
  existsb (fun x => (x =? topic)%string) l.

Definition addTopic (s : t) (key : string) (topic : string) : t :=
  update s key (fun r =>
    {| ws := ws r;
       connectionState := connectionState r;
       activePingTimer := activePingTimer r;
       activePongTimer := activePongTimer r;
       subscribedTopics :=
         if mem topic (subscribedTopics r)
         then subscribedTopics r
         else subscribedTopics r ++ [topic] |}).

Definition deleteTopic (s : t) (key : string) (topic : string) : t :=
  update s key (fun r =>
    {| ws := ws r;
       connectionState := connectionState r;
       activePingTimer := activePingTimer r;
       activePongTimer := activePongTimer r;
       subscribedTopics :=
         filter (fun x => negb (x =? topic)%string) (subscribedTopics r) |}).

End WsStore.

(* ===================================================================== *)
(** ** The world the client runs in *)
(* ===================================================================== *)

(** [readyState] of a transport ([isomorphic-ws]). *)
Inductive ReadyState : Type :=
| CONNECTING
| OPEN
| CLOSING
| CLOSED.

Definition is_open (r : ReadyState) : bool :=
  match r with
  | OPEN => true
  | _ => false
  end.

(** A transport created by [new WebSocket(url)]: its URL, its ready state,
    the connection key its four handlers were bound to by [connectToWsUrl],
    and the frames written to it so far, oldest first.  A frame is kept as
    the object handed to [JSON.stringify]. *)
Record Socket : Type := mkSocket {
  url : string;
  readyState : ReadyState;
  handlerKey : string;
  wire : list json
}.

(** The three closures the client hands to [setInterval] / [setTimeout]. *)
Inductive TimerCallback : Type :=
| PingTick                       (* this.ping.bind(this), in onWsOpen *)
| PongTimeout (wsKey : string)   (* the arrow function armed by ping(wsKey) *)
| Reconnect.                     (* the arrow function of reconnectWithDelay *)

Record Timer : Type := mkTimer {
  timerId : TimerId;
  callback : TimerCallback;
  delay : Z;
  repeating : bool
}.

(** What [this.emit] was called with. *)
Inductive Emitted : Type :=
| EvOpen
| EvReconnected
| EvReconnect
| EvClose
| EvError (err : Error)
| EvResponse (response : json)
| EvUpdate (update : json).

Inductive LogLevel : Type :=
| Silly
| Debug
| Info
| Warning
| Err.

Record LogEntry : Type := mkLog {
  level : LogLevel;
  text : string
}.

(** A [connect(wsKey)] call suspended at [await this.getAuthParams()]:
    either [getAuthParams] is itself waiting for [client.getTimeOffset()],
    or it has already returned its string. *)
Inductive AuthStage : Type :=
| AwaitTimeOffset
| AuthParamsReady (authParams : string).

Record Suspended : Type := mkSuspended {
  suspendedKey : string;
  stage : AuthStage
}.

Record World : Type := mkWorld {
  wsStore : WsStore.t;
  sockets : list Socket;
  timers : list Timer;
  nextTimer : TimerId;
  emitted : list Emitted;
  logged : list LogEntry;
  suspended : list Suspended
}.

(** Nothing has run yet.  Timer handles start at 1: the handles the runtime
    hands out are truthy, which is what [clearPingTimer] and
    [clearPongTimer] test. *)
Definition emptyWorld : World :=
  {| wsStore := WsStore.empty;
     sockets := [];
     timers := [];
     nextTimer := 1;
     emitted := [];
     logged := [];
     suspended := [] |}.

Definition with_store (f : WsStore.t -> WsStore.t) (w : World) : World :=
  {| wsStore := f (wsStore w);
     sockets := sockets w;
     timers := timers w;
     nextTimer := nextTimer w;
     emitted := emitted w;
     logged := logged w;
     suspended := suspended w |}.

Definition with_sockets (f : list Socket -> list Socket) (w : World) : World :=
  {| wsStore := wsStore w;
     sockets := f (sockets w);
     timers := timers w;
     nextTimer := nextTimer w;
     emitted := emitted w;
     logged := logged w;
     suspended := suspended w |}.

Definition with_timers (f : list Timer -> list Timer) (w : World) : World :=
  {| wsStore := wsStore w;
     sockets := sockets w;
     timers := f (timers w);
     nextTimer := nextTimer w;
     emitted := emitted w;
     logged := logged w;
     suspended := suspended w |}.

Definition with_emitted (f : list Emitted -> list Emitted) (w : World) : World :=
  {| wsStore := wsStore w;
     sockets := sockets w;
     timers := timers w;
     nextTimer := nextTimer w;
     emitted := f (emitted w);
     logged := logged w;
     suspended := suspended w |}.

Definition with_logged (f : list LogEntry -> list LogEntry) (w : World) : World :=
  {| wsStore := wsStore w;
     sockets := sockets w;
     timers := timers w;
     nextTimer := nextTimer w;
     emitted := emitted w;
     logged := f (logged w);
     suspended := suspended w |}.

Definition with_suspended (f : list Suspended -> list Suspended) (w : World) : World :=
  {| wsStore := wsStore w;
     sockets := sockets w;
     timers := timers w;
     nextTimer := nextTimer w;
     emitted := emitted w;
     logged := logged w;
     suspended := f (suspended w) |}.

(** Modelled from the spec: [wsStore.isWsOpen(key)], the guard "holding an
    open socket": the key has a socket handle and that transport's ready
    state is OPEN. *)
Definition wsOpen (w : World) (wsKey : string) : bool :=
  match WsStore.getWs (wsStore w) wsKey with
  | Some sid =>
      match nth_error (sockets w) sid with
      | Some sock => is_open (readyState sock)
      | None => false
      end
  | None => false
  end.

(** *** The monad: state that survives a throw *)

Inductive Completion (A : Type) : Type :=
| Normal (a : A)
| Thrown (e : Error).
Arguments Normal {A} a.
Arguments Thrown {A} e.

Definition M (A : Type) : Type := World -> Completion A * World.

Definition ret {A : Type} (a : A) : M A := fun w => (Normal a, w).

Definition bind {A B : Type} (m : M A) (k : A -> M B) : M B :=
  fun w =>
    match m w with
    | (Normal a, w') => k a w'
    | (Thrown e, w') => (Thrown e, w')
    end.

Definition throw {A : Type} (e : Error) : M A := fun w => (Thrown e, w).

Definition try_catch {A : Type} (body : M A) (handler : Error -> M A) : M A :=
  fun w =>
    match body w with
    | (Normal a, w') => (Normal a, w')
    | (Thrown e, w') => handler e w'
    end.

Definition gets {A : Type} (f : World -> A) : M A := fun w => (Normal (f w), w).

Definition modify (f : World -> World) : M unit := fun w => (Normal tt, f w).

Declare Scope client_scope.
Delimit Scope client_scope with client.
Notation "x <- m ;; k" := (bind m (fun x => k))
  (at level 61, m at next level, right associativity) : client_scope.
Notation "m ;; k" := (bind m (fun _ => k))
  (at level 61, right associativity) : client_scope.
Open Scope client_scope.

(** [list.forEach(f)] *)
Fixpoint forEach {A : Type} (l : list A) (f : A -> M unit) : M unit :=
  match l with
  | [] => ret tt
  | x :: rest => f x ;; forEach rest f
  end.

(** The world a handler leaves behind, whether it returned or threw. *)
Definition exec {A : Type} (m : M A) (w : World) : World := snd (m w).

(** *** Logger, emitter, timers, transports *)

Definition log (lvl : LogLevel) (message : string) : M unit :=
  modify (with_logged (fun l => l ++ [mkLog lvl message])).

(** [this.emit(event, ...)]: the call is recorded, in order.  The listeners
    belong to the application: what a listener calls on the client once the
    handler has returned is a turn of its own ([CallSubscribe],
    [CallUnsubscribe], [CallClose]), and every [emit] of the client but the
    two of [onWsOpen] is the last statement of its handler.  A listener
    that calls back into the client while [open] or [reconnected] is being
    dispatched, or that throws, is not modelled. *)
Definition emit (e : Emitted) : M unit :=
  modify (with_emitted (fun l => l ++ [e])).

(** [this.emit('error', err)]: unlike the other events, [error] must have a
    listener.  [unheard] is [None] when the application registered one;
    otherwise it is what [EventEmitter.emit] throws after the call: [err]
    itself when it is an [Error], an [Unhandled error.] that wraps it when
    it is not. *)
Definition emitError (unheard : option Error) (err : Error) : M unit :=
  emit (EvError err) ;;
  match unheard with
  | None => ret tt
  | Some thrown => throw thrown
  end.

(** [setTimeout] / [setInterval]: a fresh handle, the timer pending. *)
Definition schedule (cb : TimerCallback) (ms : Z) (again : bool) : M TimerId :=
  fun w =>
    (Normal (nextTimer w),
     {| wsStore := wsStore w;
        sockets := sockets w;
        timers := timers w ++ [mkTimer (nextTimer w) cb ms again];
        nextTimer := S (nextTimer w);
        emitted := emitted w;
        logged := logged w;
        suspended := suspended w |}).

Definition setTimeout (cb : TimerCallback) (ms : Z) : M TimerId := schedule cb ms false.
Definition setInterval (cb : TimerCallback) (ms : Z) : M TimerId := schedule cb ms true.

(** [clearTimeout] / [clearInterval]. *)
Definition cancel (h : TimerId) (l : list Timer) : list Timer :=
  filter (fun tm => negb (timerId tm =? h)%nat) l.

Definition clearTimer (h : TimerId) : M unit := modify (with_timers (cancel h)).

Fixpoint set_nth {A : Type} (n : nat) (f : A -> A) (l : list A) : list A :=
  match l, n with
  | [], _ => []
  | x :: rest, O => f x :: rest
  | x :: rest, S n' => x :: set_nth n' f rest
  end.

Definition notOpenError : Error :=
  mkError (Some "WebSocket is not open") None.

(** [ws.send(data)]: the frame goes out on an open transport.  On a
    transport that is still connecting the call throws; on one that is
    closing or has closed the frame is discarded and the call returns. *)
Definition socket_send (sid : SocketId) (data : json) : M unit :=
  fun w =>
    match nth_error (sockets w) sid with
    | Some sock =>
        match readyState sock with
        | OPEN =>
            (Normal tt,
             with_sockets (set_nth sid (fun s =>
               mkSocket (url s) (readyState s) (handlerKey s) (wire s ++ [data]))) w)
        | CONNECTING => (Thrown notOpenError, w)
        | CLOSING => (Normal tt, w)
        | CLOSED => (Normal tt, w)
        end
    | None => (Normal tt, w)
    end.

Definition closing_of (r : ReadyState) : ReadyState :=
  match r with
  | CONNECTING => CLOSING
  | OPEN => CLOSING
  | CLOSING => CLOSING
  | CLOSED => CLOSED
  end.

(** [ws.close()]: starts the closing handshake; the close event comes later
    from the transport. *)
Definition socket_close (sid : SocketId) : M unit :=
  modify (with_sockets (set_nth sid (fun s =>
    mkSocket (url s) (closing_of (readyState s)) (handlerKey s) (wire s)))).

(** [new WebSocket(url)] with the four handlers bound to [wsKey]. *)
Definition new_socket (u : string) (wsKey : string) : M SocketId :=
  fun w =>
    (Normal (length (sockets w)),
     with_sockets (fun l => l ++ [mkSocket u CONNECTING wsKey []]) w).

(* ===================================================================== *)
(** ** src/websocket-client.ts: class WebsocketClient *)
(* ===================================================================== *)

(** [wsTopics: string[] | string] *)
Inductive WsTopics : Type :=
| OneTopic (topic : string)
| TopicList (topics : list string).

(** [Array.isArray(wsTopics) ? wsTopics : [wsTopics]] *)
Definition toArray (wsTopics : WsTopics) : list string :=
  match wsTopics with
  | OneTopic topic => [topic]
  | TopicList topics => topics
  end.

(** What the outside world hands to a [connect] call when it resumes: the
    outcome of [client.getTimeOffset()] (read only when [getAuthParams] is
    waiting for it), [Date.now()], and whether [new WebSocket(url)] threw. *)
Record ResumeInput : Type := mkResume {
  timeOffset : Z + Error;
  now : Z;
  constructorThrows : option Error
}.

(** The text of an inbound message event: either the serialisation of a JSON
    value, or text [JSON.parse] rejects. *)
Inductive RawFrame : Type :=
| Text (value : json)
| Garbled.

Definition syntaxError : Error :=
  mkError (Some "Unexpected token in JSON") None.

Definition typeError : Error :=
  mkError (Some "Cannot use 'in' operator to search for 'success'") None.

(** [JSON.parse(event && event.data || event)] *)
Definition JSON_parse (data : RawFrame) : M json :=
  match data with
  | Text value => ret value
  | Garbled => throw syntaxError
  end.

Definition subscribeFrame (topics : list string) : json :=
  JObj [("op", JStr "subscribe"); ("args", JArr (map JStr topics))].

Definition unsubscribeFrame (topics : list string) : json :=
  JObj [("op", JStr "unsubscribe"); ("args", JArr (map JStr topics))].

Definition pingFrame : json := JObj [("op", JStr "ping")].

Section WebsocketClient.

(** [signMessage] is imported from [util/requestUtils] but its definition is
    not among the sources: it stays a parameter. *)
Variable signMessage : string -> string -> string.

(** [this.options] *)
Variable options : WebsocketClientOptions.

Definition isLivenet : bool := Bool.eqb (livenet options) true.

Definition isInverse : bool := negb (linear options).

Definition getWs (wsKey : string) : M (option SocketId) :=
  gets (fun w => WsStore.getWs (wsStore w) wsKey).

Definition setWsState (wsKey : string) (state : WsConnectionState) : M unit :=
  modify (with_store (fun s => WsStore.setConnectionState s wsKey state)).

Definition isConnectionState (wsKey : string) (state : WsConnectionState) : M bool :=
  gets (fun w => WsStore.isConnectionState (wsStore w) wsKey state).

Definition getWsUrl : string :=
  if truthy_string (wsUrl options)
  then render (wsUrl options)
  else if linear options
  then linearEndpoints (if livenet options then "livenet" else "testnet")
  else inverseEndpoints (if livenet options then "livenet" else "testnet").

Definition getWsKeyForTopic (topic : string) : string :=
  if isInverse then defaultWsKey else getLinearWsKeyForTopic topic.

Definition tryWsSend (wsKey : string) (wsMessage : json) : M unit :=
  try_catch
    (sock <- getWs wsKey ;;
     match sock with
     | Some sid => socket_send sid wsMessage
     | None => ret tt
     end)
    (fun e => log Err "Failed to send WS message").

Definition requestSubscribeTopics (wsKey : string) (topics : list string) : M unit :=
  tryWsSend wsKey (subscribeFrame topics).

Definition requestUnsubscribeTopics (wsKey : string) (topics : list string) : M unit :=
  tryWsSend wsKey (unsubscribeFrame topics).

(** [this.wsStore.getKeys().forEach(wsKey => request(wsKey,
    [...this.wsStore.getTopics(wsKey)]))] *)
Definition forEachKey (request : string -> list string -> M unit) : M unit :=
  keys <- gets (fun w => WsStore.getKeys (wsStore w)) ;;
  forEach keys (fun wsKey =>
    topics <- gets (fun w => WsStore.getTopics (wsStore w) wsKey) ;;
    request wsKey topics).

Definition subscribe (wsTopics : WsTopics) : M unit :=
  forEach (toArray wsTopics) (fun topic =>
    modify (with_store (fun s => WsStore.addTopic s (getWsKeyForTopic topic) topic))) ;;
  connected <- isConnectionState defaultWsKey READY_STATE_CONNECTED ;;
  if connected then forEachKey requestSubscribeTopics else ret tt.

Definition unsubscribe (wsTopics : WsTopics) : M unit :=
  forEach (toArray wsTopics) (fun topic =>
    modify (with_store (fun s => WsStore.deleteTopic s (getWsKeyForTopic topic) topic))) ;;
  connected <- isConnectionState defaultWsKey READY_STATE_CONNECTED ;;
  if connected then forEachKey requestUnsubscribeTopics else ret tt.

Definition clearPingTimer (wsKey : string) : M unit :=
  wsState <- gets (fun w => WsStore.get (wsStore w) wsKey) ;;
  match wsState with
  | Some r =>
      match WsStore.activePingTimer r with
      | Some h =>
          clearTimer h ;;
          modify (with_store (fun s => WsStore.setPingTimer s wsKey None))
      | None => ret tt
      end
  | None => ret tt
  end.

Definition clearPongTimer (wsKey : string) : M unit :=
  wsState <- gets (fun w => WsStore.get (wsStore w) wsKey) ;;
  match wsState with
  | Some r =>
      match WsStore.activePongTimer r with
      | Some h =>
          clearTimer h ;;
          modify (with_store (fun s => WsStore.setPongTimer s wsKey None))
      | None => ret tt
      end
  | None => ret tt
  end.

Definition clearTimers (wsKey : string) : M unit :=
  clearPingTimer wsKey ;;
  clearPongTimer wsKey.

Definition close (wsKey : string) : M unit :=
  log Info "Closing connection" ;;
  setWsState wsKey READY_STATE_CLOSING ;;
  clearTimers wsKey ;;
  sock <- getWs wsKey ;;
  match sock with
  | Some sid => socket_close sid
  | None => ret tt
  end.

Definition parseWsError (context : string) (error : Error) (wsKey : string) : M unit :=
  if negb (truthy_string (message error))
  then log Err (context ++ " due to unexpected error: ")%string
  else if (render (message error) =? "Unexpected server response: 401")%string
  then log Err (context ++ " due to 401 authorization failure.")%string
  else log Err ("{context} due to unexpected response error: " ++ render (msg error))%string.

(** The part of [getAuthParams] that runs before its own [await]. *)
Definition getAuthParams : M AuthStage :=
  if truthy_string (key options) && truthy_string (secret options)
  then log Debug "Getting auth'd request params" ;; ret AwaitTimeOffset
  else if negb (truthy_string (key options)) || negb (truthy_string (secret options))
  then log Warning "Connot authenticate websocket, either api or private keys missing." ;;
       ret (AuthParamsReady "")
  else log Debug "Starting public only websocket client." ;;
       ret (AuthParamsReady "").

(** The part of [getAuthParams] that runs once [getTimeOffset] resolved.
    The clock and the offset are milliseconds, taken as integers; the sum
    is the sum of the doubles as long as it stays in the safe range. *)
Definition signedAuthParams (offset : Z) (nowMs : Z) : M string :=
  let expires := (nowMs + offset + 5000)%Z in
  let signature :=
    signMessage ("GET/realtime" ++ RequestUtils.render_value (RequestUtils.PNumber expires))%string
                (render (secret options)) in
  match RequestUtils.serializeParams
          [("api_key", match key options with
                       | Some k => RequestUtils.PString k
                       | None => RequestUtils.PUndefined
                       end);
           ("expires", RequestUtils.PNumber expires);
           ("signature", RequestUtils.PString signature)] false with
  | inl query => ret ("?" ++ query)%string
  | inr e => throw e
  end.

Definition reconnectWithDelay (wsKey : string) (connectionDelayMs : Z) : M unit :=
  clearTimers wsKey ;;
  state <- gets (fun w => WsStore.getConnectionState (wsStore w) wsKey) ;;
  (if negb (state_eqb state READY_STATE_CONNECTING)
   then setWsState wsKey READY_STATE_RECONNECTING
   else ret tt) ;;
  _ <- setTimeout Reconnect connectionDelayMs ;;
  ret tt.

Definition connectToWsUrl (u : string) (wsKey : string) (input : ResumeInput) : M SocketId :=
  match constructorThrows input with
  | Some e => throw e
  | None => new_socket u wsKey
  end.

Definition isWsOpen (wsKey : string) : M bool :=
  gets (fun w => wsOpen w wsKey).

Definition connectFailed (wsKey : string) (err : Error) : M unit :=
  parseWsError "Connection failed" err wsKey ;;
  reconnectWithDelay wsKey (reconnectTimeout options).

(** [connect(wsKey)] up to its [await]: the two guards, the move to
    Connecting, and the synchronous part of [getAuthParams].  A call that
    passes the guards is left suspended. *)
Definition connect (wsKey : string) : M unit :=
  try_catch
    (opened <- isWsOpen wsKey ;;
     if opened
     then log Err "Refused to connect to ws with existing active connection"
     else
       connecting <- isConnectionState wsKey READY_STATE_CONNECTING ;;
       if connecting
       then log Err "Refused to connect to ws, connection attempt already active"
       else
         state <- gets (fun w => WsStore.getConnectionState (wsStore w) wsKey) ;;
         initial <- isConnectionState wsKey READY_STATE_INITIAL ;;
         (if (state_code state =? 0)%Z || initial
          then setWsState wsKey READY_STATE_CONNECTING
          else ret tt) ;;
         pending <- getAuthParams ;;
         modify (with_suspended (fun l => l ++ [mkSuspended wsKey pending])))
    (connectFailed wsKey).

(** [connect(wsKey)] from its [await] on. *)
Definition connect_resume (s : Suspended) (input : ResumeInput) : M unit :=
  let wsKey := suspendedKey s in
  try_catch
    (authParams <-
       match stage s with
       | AuthParamsReady a => ret a
       | AwaitTimeOffset =>
           match timeOffset input with
           | inl offset => signedAuthParams offset (now input)
           | inr e => throw e
           end
       end ;;
     let u := (getWsUrl ++ authParams)%string in
     sock <- connectToWsUrl u wsKey input ;;
     modify (with_store (fun st => WsStore.setWs st wsKey sock)))
    (connectFailed wsKey).

Definition ping (wsKey : string) : M unit :=
  clearPongTimer wsKey ;;
  log Silly "Sending ping" ;;
  tryWsSend wsKey pingFrame ;;
  h <- setTimeout (PongTimeout wsKey) (pongTimeout options) ;;
  modify (with_store (fun s => WsStore.setPongTimer s wsKey (Some h))).

(** The arrow function armed by [ping(wsKey)]. *)
Definition pongTimedOut (wsKey : string) : M unit :=
  log Info "Pong timeout - closing socket to reconnect" ;;
  sock <- getWs wsKey ;;
  match sock with
  | Some sid => socket_close sid
  | None => ret tt
  end.

(** The arrow function armed by [reconnectWithDelay]. *)
Definition reconnectNow : M unit :=
  log Info "Reconnecting to server" ;;
  connect defaultWsKey.

Definition onWsOpen (wsKey : string) : M unit :=
  connecting <- isConnectionState wsKey READY_STATE_CONNECTING ;;
  (if connecting
   then log Info "Websocket connected" ;; emit EvOpen
   else
     reconnecting <- isConnectionState wsKey READY_STATE_RECONNECTING ;;
     if reconnecting
     then log Info "Websocket reconnected" ;; emit EvReconnected
     else ret tt) ;;
  setWsState wsKey READY_STATE_CONNECTED ;;
  forEachKey requestSubscribeTopics ;;
  h <- setInterval PingTick (pingInterval options) ;;
  modify (with_store (fun s => WsStore.setPingTimer s wsKey (Some h))).

Definition onWsMessageResponse (response : json) (wsKey : string) : M unit :=
  if isWsPong response
  then log Silly "Received pong" ;; clearPongTimer wsKey
  else emit (EvResponse response).

Definition onWsMessageUpdate (message : json) : M unit :=
  emit (EvUpdate message).

Definition onWsMessage (event : RawFrame) (wsKey : string) : M unit :=
  msg <- JSON_parse event ;;
  match has_in "success" msg with
  | None => throw typeError
  | Some true => onWsMessageResponse msg wsKey
  | Some false =>
      if truthy_opt (prop msg "topic")
      then onWsMessageUpdate msg
      else log Warning "Got unhandled ws message"
  end.

(** [unheard]: what [emit] throws when the application does not listen for
    [error] as the handler runs. *)
Definition onWsError (unheard : option Error) (err : Error) (wsKey : string) : M unit :=
  parseWsError "Websocket error" err wsKey ;;
  connected <- isConnectionState wsKey READY_STATE_CONNECTED ;;
  if connected then emitError unheard err else ret tt.

Definition onWsClose (wsKey : string) : M unit :=
  log Info "Websocket connection closed" ;;
  state <- gets (fun w => WsStore.getConnectionState (wsStore w) wsKey) ;;
  if negb (state_eqb state READY_STATE_CLOSING)
  then reconnectWithDelay wsKey (reconnectTimeout options) ;; emit EvReconnect
  else setWsState wsKey READY_STATE_INITIAL ;; emit EvClose.

(** The constructor, after [this.options] has been assembled. *)
Definition constructor : M unit :=
  setWsState defaultWsKey READY_STATE_INITIAL ;;
  connect defaultWsKey.

(** *** The event loop

    One turn of the event loop: a call of the public interface, a timer
    that fires, a suspended [connect] that resumes, or a transport event
    delivered to the handler [connectToWsUrl] attached.  [step] is [None]
    when the turn cannot happen in the world at hand (no such timer, the
    transport is not in a state to raise the event). *)
Inductive Action : Type :=
| CallSubscribe (wsTopics : WsTopics)
| CallUnsubscribe (wsTopics : WsTopics)
| CallClose (wsKey : option string)
| TimerFires (h : TimerId)
| ConnectResumes (i : nat) (input : ResumeInput)
| TransportOpens (sid : SocketId)
| TransportMessage (sid : SocketId) (data : RawFrame)
| TransportError (sid : SocketId) (err : Error) (unheard : option Error)
| TransportCloses (sid : SocketId)
| PeerStartsClosing (sid : SocketId).

Definition find_timer (h : TimerId) (l : list Timer) : option Timer :=
  find (fun tm => (timerId tm =? h)%nat) l.

(** A timer that fires: an interval stays pending, a timeout does not. *)
Definition fire (tm : Timer) : M unit :=
  (if repeating tm then ret tt else clearTimer (timerId tm)) ;;
  match callback tm with
  | PingTick => ping defaultWsKey
  | PongTimeout wsKey => pongTimedOut wsKey
  | Reconnect => reconnectNow
  end.

Fixpoint remove_nth {A : Type} (n : nat) (l : list A) : list A :=
  match l, n with
  | [], _ => []
  | _ :: rest, O => rest
  | x :: rest, S n' => x :: remove_nth n' rest
  end.

Definition set_ready (sid : SocketId) (r : ReadyState) : M unit :=
  modify (with_sockets (set_nth sid (fun s =>
    mkSocket (url s) r (handlerKey s) (wire s)))).

Definition step (a : Action) (w : World) : option World :=
  match a with
  | CallSubscribe wsTopics => Some (exec (subscribe wsTopics) w)
  | CallUnsubscribe wsTopics => Some (exec (unsubscribe wsTopics) w)
  | CallClose wsKey => Some (exec (close (or_default wsKey defaultWsKey)) w)
  | TimerFires h =>
      match find_timer h (timers w) with
      | Some tm => Some (exec (fire tm) w)
      | None => None
      end
  | ConnectResumes i input =>
      match nth_error (suspended w) i with
      | Some s =>
          Some (exec (modify (with_suspended (remove_nth i)) ;; connect_resume s input) w)
      | None => None
      end
  | TransportOpens sid =>
      match nth_error (sockets w) sid with
      | Some sock =>
          match readyState sock with
          | CONNECTING => Some (exec (set_ready sid OPEN ;; onWsOpen (handlerKey sock)) w)
          | _ => None
          end
      | None => None
      end
  | TransportMessage sid data =>
      match nth_error (sockets w) sid with
      | Some sock =>
          match readyState sock with
          | OPEN | CLOSING => Some (exec (onWsMessage data (handlerKey sock)) w)
          | _ => None
          end
      | None => None
      end
  | TransportError sid err unheard =>
      match nth_error (sockets w) sid with
      | Some sock =>
          match readyState sock with
          | CLOSED => None
          | _ => Some (exec (onWsError unheard err (handlerKey sock)) w)
          end
      | None => None
      end
  | TransportCloses sid =>
      match nth_error (sockets w) sid with
      | Some sock =>
          match readyState sock with
          | CLOSED => None
          | _ => Some (exec (set_ready sid CLOSED ;; onWsClose (handlerKey sock)) w)
          end
      | None => None
      end
  | PeerStartsClosing sid =>
      match nth_error (sockets w) sid with
      | Some sock =>
          match readyState sock with
          | OPEN => Some (exec (set_ready sid CLOSING) w)
          | _ => None
          end
      | None => None
      end
  end.

Fixpoint run (acts : list Action) (w : World) : option World :=
  match acts with
  | [] => Some w
  | a :: rest =>
      match step a w with
      | Some w' => run rest w'
      | None => None
      end
  end.

(** [new WebsocketClient(options)] *)
Definition newClient : World := exec constructor emptyWorld.

(** The worlds a client can be in. *)
Inductive reachable : World -> Prop :=
| reach_new : reachable newClient
| reach_step (a : Action) (w w' : World) :
    reachable w -> step a w = Some w' -> reachable w'.

End WebsocketClient.

(** *** Sample configurations and runs *)

Definition sampleSign (message secretKey : string) : string :=
  (secretKey ++ ":" ++ message)%string.

Definition noOptions : WSClientConfigurableOptions :=
  mkConfig None None None None None None None None.

Definition linearOptions : WSClientConfigurableOptions :=
  mkConfig None None None (Some true) None None None None.

Definition plainResume : ResumeInput := mkResume (inl 0%Z) 0%Z None.

(* ===================================================================== *)
(** ** Reading the store back *)
(* ===================================================================== *)

(** The timer handles of a key, [None] when the key has no record. *)
Definition pingHandle (s : WsStore.t) (k : string) : option TimerId :=
  match WsStore.get s k with
  | Some r => WsStore.activePingTimer r
  | None => None
  end.

Definition pongHandle (s : WsStore.t) (k : string) : option TimerId :=
  match WsStore.get s k with
  | Some r => WsStore.activePongTimer r
  | None => None
  end.

Definition hasKey (s : WsStore.t) (k : string) : bool :=
  match WsStore.get s k with
  | Some _ => true
  | None => false
  end.

(** A transport after [frames] were written to it. *)
Definition wrote (frames : list json) (sock : Socket) : Socket :=
  mkSocket (url sock) (readyState sock) (handlerKey sock) (wire sock ++ frames).

(** One [tryWsSend(k, frame)] seen from the list of transports. *)
Definition deliver (s : WsStore.t) (k : string) (frame : json) (socks : list Socket)
  : list Socket :=
  match WsStore.getWs s k with
  | Some sid =>
      match nth_error socks sid with
      | Some sock =>
          if is_open (readyState sock) then set_nth sid (wrote [frame]) socks else socks
      | None => socks
      end
  | None => socks
  end.

Definition isPing (tm : Timer) : bool :=
  match callback tm with
  | PingTick => true
  | _ => false
  end.

Definition isPong (tm : Timer) : bool :=
  match callback tm with
  | PongTimeout _ => true
  | _ => false
  end.

Definition isReconnect (tm : Timer) : bool :=
  match callback tm with
  | Reconnect => true
  | _ => false
  end.

(* ===================================================================== *)
(** ** What a computation leaves alone *)
(* ===================================================================== *)

(** [preserves P m]: [P] survives [m], whether [m] returns or throws. *)
Definition preserves {A : Type} (P : World -> Prop) (m : M A) : Prop :=
  forall w, P w -> P (snd (m w)).

(* ===================================================================== *)
(** ** Frames written by a replay of the store *)
(* ===================================================================== *)

(** The transports after one frame per key of [keys] was handed to
    [tryWsSend], the frame of a key built from its stored topics. *)
Definition replay (frameOf : list string -> json) (s : WsStore.t)
    (keys : list string) (socks : list Socket) : list Socket :=
  fold_left (fun acc k => deliver s k (frameOf (WsStore.getTopics s k)) acc) keys socks.

Definition boundTo (s : WsStore.t) (sid : SocketId) (k : string) : bool :=
  match WsStore.getWs s k with
  | Some x => (x =? sid)%nat
  | None => false
  end.

(** The frames a replay writes on transport [sid] when it is open. *)
Definition framesFor (frameOf : list string -> json) (s : WsStore.t)
    (keys : list string) (sid : SocketId) : list json :=
  map (fun k => frameOf (WsStore.getTopics s k)) (filter (boundTo s sid) keys).

Definition received (frames : list json) (sock : Socket) : Socket :=
  if is_open (readyState sock) then wrote frames sock else sock.


(** The event [onWsOpen] emits, by the state the key was in. *)
Definition openEvents (prior : WsConnectionState) : list Emitted :=
  match prior with
  | READY_STATE_CONNECTING => [EvOpen]
  | READY_STATE_RECONNECTING => [EvReconnected]
  | _ => []
  end.

(** The store and the pending timers after [clearPingTimer(k)] /
    [clearPongTimer(k)]. *)
Definition pingDropped (k : string) (s : WsStore.t) : WsStore.t :=
  match pingHandle s k with
  | Some _ => WsStore.setPingTimer s k None
  | None => s
  end.

Definition pongDropped (k : string) (s : WsStore.t) : WsStore.t :=
  match pongHandle s k with
  | Some _ => WsStore.setPongTimer s k None
  | None => s
  end.

Definition cancelled (h : option TimerId) (l : list Timer) : list Timer :=
  match h with
  | Some x => cancel x l
  | None => l
  end.

Definition pingCleared (k : string) (w : World) : World :=
  with_store (pingDropped k) (with_timers (cancelled (pingHandle (wsStore w) k)) w).

Definition pongCleared (k : string) (w : World) : World :=
  with_store (pongDropped k) (with_timers (cancelled (pongHandle (wsStore w) k)) w).

(** The store after the [forEach] that opens [subscribe] / [unsubscribe]. *)
Definition addTopics (options : WebsocketClientOptions) (topics : list string)
    (s : WsStore.t) : WsStore.t :=
  fold_left (fun acc topic => WsStore.addTopic acc (getWsKeyForTopic options topic) topic)
            topics s.

Definition deleteTopics (options : WebsocketClientOptions) (topics : list string)
    (s : WsStore.t) : WsStore.t :=
  fold_left (fun acc topic => WsStore.deleteTopic acc (getWsKeyForTopic options topic) topic)
            topics s.

(** Calls of the public interface that edit the subscription list. *)
Definition isSubscription (a : Action) : bool :=
  match a with
  | CallSubscribe _ => true
  | CallUnsubscribe _ => true
  | _ => false
  end.

(** The store after the state test of [reconnectWithDelay]. *)
Definition markReconnecting (k : string) (s : WsStore.t) : WsStore.t :=
  if state_eqb (WsStore.getConnectionState s k) READY_STATE_CONNECTING
  then s
  else WsStore.setConnectionState s k READY_STATE_RECONNECTING.

(** The store after the state test of [connect]. *)
Definition markConnecting (k : string) (s : WsStore.t) : WsStore.t :=
  if state_eqb (WsStore.getConnectionState s k) READY_STATE_INITIAL
  then WsStore.setConnectionState s k READY_STATE_CONNECTING
  else s.

(** The stage [getAuthParams] leaves a [connect] call in. *)
Definition authStage (options : WebsocketClientOptions) : AuthStage :=
  if truthy_string (key options) && truthy_string (secret options)
  then AwaitTimeOffset
  else AuthParamsReady "".

(** Whether [connect] goes past its two guards. *)
Definition refused (w : World) (k : string) : bool :=
  wsOpen w k || state_eqb (WsStore.getConnectionState (wsStore w) k) READY_STATE_CONNECTING.

(** Whether the dispatch treats an inbound frame as a heartbeat reply. *)
Definition isPongFrame (data : RawFrame) : bool :=
  match data with
  | Text value =>
      match has_in "success" value with
      | Some true => isWsPong value
      | _ => false
      end
  | Garbled => false
  end.

(* ===================================================================== *)
(** ** Invariants of the reachable worlds *)
(* ===================================================================== *)

(** How the client is wired: the store holds each key once; every transport
    and every suspended [connect] belongs to the default key, the only key
    [connect] is ever called with; a key other than the default one never
    gets a socket, a timer handle or the Connected state; a valid socket
    handle is stored. *)
Record Wired (w : World) : Prop := mkWired {
  wired_keys : NoDup (WsStore.getKeys (wsStore w));
  wired_handlers : forall sock, In sock (sockets w) -> handlerKey sock = defaultWsKey;
  wired_suspended : forall s, In s (suspended w) -> suspendedKey s = defaultWsKey;
  wired_others : forall k, k <> defaultWsKey ->
    WsStore.getWs (wsStore w) k = None
    /\ WsStore.getConnectionState (wsStore w) k <> READY_STATE_CONNECTED
    /\ pingHandle (wsStore w) k = None
    /\ pongHandle (wsStore w) k = None;
  wired_pongs : forall tm k,
    In tm (timers w) -> callback tm = PongTimeout k -> k = defaultWsKey;
  wired_ws : forall sid,
    WsStore.getWs (wsStore w) defaultWsKey = Some sid -> sid < length (sockets w)
}.

(** The heartbeat and the reconnect loop, on what they depend on: the state
    [St] and the timer handles [P] (ping) and [Q] (pong) stored for the
    default key, the pending timers [T], the next fresh handle [N], the
    ready states [R] of the transports and the number [U] of suspended
    [connect] calls.

    Timer handles are fresh and distinct, an interval is a ping and a
    timeout is not; every pending pong timeout is the one whose handle is
    stored, and so is every pending ping interval; the ping interval is
    pending while the key is Connected and is not while it is Closing, and
    a pending ping has a transport that opened; and there is at most one
    of: a suspended [connect], a pending reconnect, a transport that has
    not closed. *)
Definition count {A : Type} (p : A -> bool) (l : list A) : nat :=
  length (filter p l).

Definition liveR (r : ReadyState) : bool :=
  match r with
  | CLOSED => false
  | _ => true
  end.

Definition upR (r : ReadyState) : bool :=
  match r with
  | OPEN => true
  | CLOSING => true
  | _ => false
  end.

Record Heart (St : WsConnectionState) (P Q : option TimerId) (T : list Timer)
    (N : TimerId) (R : list ReadyState) (U : nat) : Prop := mkHeart {
  heart_fresh : forall tm, In tm T -> timerId tm < N;
  heart_ids : NoDup (map timerId T);
  heart_kinds : forall tm, In tm T -> repeating tm = isPing tm;
  heart_ping_fresh : forall h, P = Some h -> h < N;
  heart_pong_fresh : forall h, Q = Some h -> h < N;
  heart_distinct : forall h, P = Some h -> Q <> Some h;
  heart_pong : forall tm, In tm T -> isPong tm = true -> Q = Some (timerId tm);
  heart_ping : forall tm, In tm T -> isPing tm = true -> P = Some (timerId tm);
  heart_connected : St = READY_STATE_CONNECTED -> exists tm, In tm T /\ isPing tm = true;
  heart_tokens : U + count isReconnect T + count liveR R <= 1;
  heart_up : (exists tm, In tm T /\ isPing tm = true) -> exists r, In r R /\ upR r = true;
  heart_closing : St = READY_STATE_CLOSING -> forall tm, In tm T -> isPing tm = false
}.

Definition Beating (w : World) : Prop :=
  Heart (WsStore.getConnectionState (wsStore w) defaultWsKey)
        (pingHandle (wsStore w) defaultWsKey)
        (pongHandle (wsStore w) defaultWsKey)
        (timers w) (nextTimer w)
        (map readyState (sockets w))
        (length (suspended w)).

(* ===================================================================== *)
(** ** Sample clients *)
(* ===================================================================== *)

(** [new WebsocketClient({})] and [new WebsocketClient({ linear: true })]. *)
Definition inverseClient : WebsocketClientOptions := mergeOptions noOptions.
Definition linearClient : WebsocketClientOptions := mergeOptions linearOptions.

(** A client as its event loop leaves it after the given turns. *)
Definition after (options : WebsocketClientOptions) (acts : list Action) : option World :=
  run sampleSign options acts (newClient options).

(** A frame with a bare [pong] marker next to [success]. *)
Definition barePong : json := JObj [("success", JBool true); ("pong", JBool true)].

Definition orEmpty (o : option World) : World :=
  match o with
  | Some w => w
  | None => emptyWorld
  end.

(** A default client whose transport is open, subscribed to one topic. *)
Definition connectedClient : World :=
  orEmpty (after inverseClient
             [ConnectResumes 0 plainResume; TransportOpens 0;
              CallSubscribe (OneTopic "trade")]).

(** The same client with its transport connecting again after a close. *)
Definition reconnectingClient : World :=
  orEmpty (run sampleSign inverseClient
             [TransportCloses 0; TimerFires 2; ConnectResumes 0 plainResume]
             connectedClient).

(** A default client that pinged, got no pong, and asked its transport to
    close: the close event has not come yet. *)
Definition timedOutClient : World :=
  orEmpty (after inverseClient
             [ConnectResumes 0 plainResume; TransportOpens 0; TimerFires 1; TimerFires 2]).

(** A default client waiting for the pong of its first ping. *)
Definition pingedClient : World :=
  orEmpty (after inverseClient
             [ConnectResumes 0 plainResume; TransportOpens 0; TimerFires 1]).

(** A linear client subscribed to a private topic before its transport
    opens. *)
Definition linearSubscribed : World :=
  orEmpty (after linearClient
             [CallSubscribe (OneTopic "trade"); ConnectResumes 0 plainResume]).

(* ===================================================================== *)
(** ** Vocabulary of the further properties *)
(* ===================================================================== *)

(** The integers a double holds exactly: below [2^53] in magnitude.  On
    these, the number arithmetic of the code is integer arithmetic and a
    number prints as its decimal digits. *)
Definition safeInteger (n : Z) : bool := (Z.abs n <? 2 ^ 53)%Z.

(** A string of ASCII characters only: its bytes are its code units. *)
Definition isAscii (s : string) : bool :=
  forallb (fun c => (nat_of_ascii c <? 128)%nat) (list_ascii_of_string s).

(** The order [Array.prototype.sort] leaves the parameters in. *)
Definition keyLe (p q : string * RequestUtils.ParamValue) : Prop :=
  (fst p <=? fst q)%string = true.

(** A client with no connection attempt left: no [connect] call is
    suspended, every transport it created has closed, and the only timers
    still pending are pong timeouts. *)
Definition Idle (w : World) : Prop :=
  suspended w = []
  /\ (forall sock, In sock (sockets w) -> readyState sock = CLOSED)
  /\ (forall tm, In tm (timers w) -> isPong tm = true).

(** [new WebSocket(url)] throws. *)
Definition failingResume : ResumeInput :=
  mkResume (inl 0%Z) 0%Z (Some (mkError (Some "Invalid URL") None)).

(** A default client whose first [new WebSocket(url)] threw. *)
Definition failedClient : World :=
  orEmpty (after inverseClient [ConnectResumes 0 failingResume]).

(** A frame that names no topic. *)
Definition topicless (frame : json) : Prop :=
  frame = pingFrame \/ frame = subscribeFrame [] \/ frame = unsubscribeFrame [].

(** Transports on which only such frames were written. *)
Definition Quiet (socks : list Socket) : Prop :=
  forall sock frame, In sock socks -> In frame (wire sock) -> topicless frame.

(** No topic is stored under the default key, and no frame written so far
    names one. *)
Definition Silent (w : World) : Prop :=
  WsStore.getTopics (wsStore w) defaultWsKey = [] /\ Quiet (sockets w).

(** The timer handles stored for the default key name timers of their own
    kind: a pending timer that the ping handle names is a ping interval,
    one that the pong handle names is a pong timeout. *)
Definition Tied (w : World) : Prop :=
  forall tm, In tm (timers w) ->
    (pingHandle (wsStore w) defaultWsKey = Some (timerId tm) -> isPing tm = true)
    /\ (pongHandle (wsStore w) defaultWsKey = Some (timerId tm) -> isPong tm = true).

(** A default client whose transport closed unexpectedly: the reconnect is
    scheduled and has not fired yet. *)
Definition droppedClient : World :=
  orEmpty (run sampleSign inverseClient [TransportCloses 0] connectedClient).

(** [failedClient] after its reconnect timeout fired. *)
Definition idleClient : World :=
  orEmpty (after inverseClient [ConnectResumes 0 failingResume; TimerFires 1]).

(** A linear client subscribed to a topic, its transport open. *)
Definition linearOpened : World :=
  orEmpty (after linearClient
             [CallSubscribe (OneTopic "trade"); ConnectResumes 0 plainResume;
              TransportOpens 0]).

(** [new WebsocketClient({ key: 'key', secret: 'secret' })] *)
Definition signedClient : WebsocketClientOptions :=
  mergeOptions (mkConfig (Some "key") (Some "secret") None None None None None None).

Definition isOpenEvent (e : Emitted) : bool :=
  match e with
  | EvOpen => true
  | _ => false
  end.

(** The [open] event is behind or ahead, never both: it was emitted at most
    once, not at all while the default key is Connecting; and a key back in
    Initial has no [connect] call or reconnect left to leave it. *)
Definition Once (w : World) : Prop :=
  count isOpenEvent (emitted w) <= 1
  /\ (WsStore.getConnectionState (wsStore w) defaultWsKey = READY_STATE_CONNECTING ->
      count isOpenEvent (emitted w) = 0)
  /\ (WsStore.getConnectionState (wsStore w) defaultWsKey = READY_STATE_INITIAL ->
      suspended w = [] /\ count isReconnect (timers w) = 0).

(** The reply of the server to [{ op: 'ping' }]. *)
Definition pongReply : json :=
  JObj [("success", JBool true); ("ret_msg", JStr "pong");
        ("request", JObj [("op", JStr "ping")])].
Unset Implicit Arguments.

Section StoreFacts.

Import WsStore.

Lemma string_eqb_refl (k : string) : (k =? k)%string = true.
Proof. apply String.eqb_refl. Qed.

Lemma get_update (s : WsStore.t) (k k' : string) (f : WsStoredState -> WsStoredState) :
  get (update s k f) k' =
  if (k =? k')%string
  then Some (f (match get s k with Some r => r | None => fresh end))
  else get s k'.
Proof.
  induction s as [|[key0 r0] rest IH]; simpl.
  - destruct (String.eqb_spec k k'); reflexivity.
  - destruct (String.eqb_spec key0 k) as [->|Hne]; simpl.
    + destruct (String.eqb_spec k k') as [->|Hne']; [reflexivity|].
      reflexivity.
    + rewrite IH.
      destruct (String.eqb_spec key0 k') as [->|Hne'].
      * destruct (String.eqb_spec k k') as [->|]; [congruence|reflexivity].
      * reflexivity.
Qed.

Lemma get_update_same s k f :
  get (update s k f) k = Some (f (match get s k with Some r => r | None => fresh end)).
Proof. rewrite get_update, string_eqb_refl. reflexivity. Qed.

Lemma get_update_other s k k' f :
  k <> k' -> get (update s k f) k' = get s k'.
Proof.
  intros Hne. rewrite get_update.
  destruct (String.eqb_spec k k'); [contradiction|reflexivity].
Qed.

Lemma getKeys_update s k f :
  getKeys (update s k f) = if hasKey s k then getKeys s else getKeys s ++ [k].
Proof.
  unfold hasKey, getKeys.
  induction s as [|[key0 r0] rest IH]; simpl; [reflexivity|].
  destruct (String.eqb_spec key0 k) as [->|Hne]; simpl; [reflexivity|].
  rewrite IH. destruct (get rest k); reflexivity.
Qed.

Lemma hasKey_In s k : hasKey s k = true <-> In k (getKeys s).
Proof.
  unfold hasKey, getKeys.
  induction s as [|[key0 r0] rest IH]; simpl.
  - split; [discriminate|tauto].
  - destruct (String.eqb_spec key0 k) as [->|Hne].
    + split; auto.
    + rewrite IH. split; [auto|]. intros [H|H]; [contradiction|assumption].
Qed.

Lemma getKeys_update_incl s k f k' :
  In k' (getKeys s) -> In k' (getKeys (update s k f)).
Proof.
  rewrite getKeys_update. destruct (hasKey s k); [auto|].
  intros H. apply in_or_app. now left.
Qed.

Lemma getKeys_update_NoDup s k f :
  NoDup (getKeys s) -> NoDup (getKeys (update s k f)).
Proof.
  intros Hnd. rewrite getKeys_update.
  destruct (hasKey s k) eqn:Hk; [assumption|].
  apply NoDup_app; [assumption|repeat constructor; simpl; tauto|].
  intros x Hx [<-|[]]. apply hasKey_In in Hx. congruence.
Qed.

End StoreFacts.

Section Accessors.

Import WsStore.

Ltac read_back :=
  intros;
  unfold getWs, getConnectionState, pingHandle, pongHandle, getTopics, hasKey,
         setWs, setConnectionState, setPingTimer, setPongTimer, addTopic, deleteTopic;
  rewrite get_update;
  match goal with
  | |- context [(?a =? ?b)%string] => destruct (String.eqb_spec a b); subst
  end;
  repeat match goal with
         | |- context [get ?s ?k] => destruct (get s k)
         end;
  simpl; try reflexivity; try congruence.

Lemma getWs_setWs s k sock k' :
  getWs (setWs s k sock) k' =
  if (k =? k')%string then Some sock else getWs s k'.
Proof. read_back. Qed.

Lemma getConnectionState_setWs s k sock k' :
  getConnectionState (setWs s k sock) k' = getConnectionState s k'.
Proof. read_back. Qed.

Lemma pingHandle_setWs s k sock k' :
  pingHandle (setWs s k sock) k' = pingHandle s k'.
Proof. read_back. Qed.

Lemma pongHandle_setWs s k sock k' :
  pongHandle (setWs s k sock) k' = pongHandle s k'.
Proof. read_back. Qed.

Lemma getTopics_setWs s k sock k' :
  getTopics (setWs s k sock) k' = getTopics s k'.
Proof. read_back. Qed.

Lemma hasKey_setWs s k sock k' :
  hasKey (setWs s k sock) k' = (k =? k')%string || hasKey s k'.
Proof. read_back. Qed.

Lemma getKeys_setWs s k sock :
  getKeys (setWs s k sock) = if hasKey s k then getKeys s else getKeys s ++ [k].
Proof. apply getKeys_update. Qed.

Lemma getWs_setConnectionState s k st k' :
  getWs (setConnectionState s k st) k' = getWs s k'.
Proof. read_back. Qed.

Lemma getConnectionState_setConnectionState s k st k' :
  getConnectionState (setConnectionState s k st) k' =
  if (k =? k')%string then st else getConnectionState s k'.
Proof. read_back. Qed.

Lemma pingHandle_setConnectionState s k st k' :
  pingHandle (setConnectionState s k st) k' = pingHandle s k'.
Proof. read_back. Qed.

Lemma pongHandle_setConnectionState s k st k' :
  pongHandle (setConnectionState s k st) k' = pongHandle s k'.
Proof. read_back. Qed.

Lemma getTopics_setConnectionState s k st k' :
  getTopics (setConnectionState s k st) k' = getTopics s k'.
Proof. read_back. Qed.

Lemma hasKey_setConnectionState s k st k' :
  hasKey (setConnectionState s k st) k' = (k =? k')%string || hasKey s k'.
Proof. read_back. Qed.

Lemma getKeys_setConnectionState s k st :
  getKeys (setConnectionState s k st) = if hasKey s k then getKeys s else getKeys s ++ [k].
Proof. apply getKeys_update. Qed.

Lemma getWs_setPingTimer s k h k' :
  getWs (setPingTimer s k h) k' = getWs s k'.
Proof. read_back. Qed.

Lemma getConnectionState_setPingTimer s k h k' :
  getConnectionState (setPingTimer s k h) k' = getConnectionState s k'.
Proof. read_back. Qed.

Lemma pingHandle_setPingTimer s k h k' :
  pingHandle (setPingTimer s k h) k' =
  if (k =? k')%string then h else pingHandle s k'.
Proof. read_back. Qed.

Lemma pongHandle_setPingTimer s k h k' :
  pongHandle (setPingTimer s k h) k' = pongHandle s k'.
Proof. read_back. Qed.

Lemma getTopics_setPingTimer s k h k' :
  getTopics (setPingTimer s k h) k' = getTopics s k'.
Proof. read_back. Qed.

Lemma hasKey_setPingTimer s k h k' :
  hasKey (setPingTimer s k h) k' = (k =? k')%string || hasKey s k'.
Proof. read_back. Qed.

Lemma getKeys_setPingTimer s k h :
  getKeys (setPingTimer s k h) = if hasKey s k then getKeys s else getKeys s ++ [k].
Proof. apply getKeys_update. Qed.

Lemma getWs_setPongTimer s k h k' :
  getWs (setPongTimer s k h) k' = getWs s k'.
Proof. read_back. Qed.

Lemma getConnectionState_setPongTimer s k h k' :
  getConnectionState (setPongTimer s k h) k' = getConnectionState s k'.
Proof. read_back. Qed.

Lemma pingHandle_setPongTimer s k h k' :
  pingHandle (setPongTimer s k h) k' = pingHandle s k'.
Proof. read_back. Qed.

Lemma pongHandle_setPongTimer s k h k' :
  pongHandle (setPongTimer s k h) k' =
  if (k =? k')%string then h else pongHandle s k'.
Proof. read_back. Qed.

Lemma getTopics_setPongTimer s k h k' :
  getTopics (setPongTimer s k h) k' = getTopics s k'.
Proof. read_back. Qed.

Lemma hasKey_setPongTimer s k h k' :
  hasKey (setPongTimer s k h) k' = (k =? k')%string || hasKey s k'.
Proof. read_back. Qed.

Lemma getKeys_setPongTimer s k h :
  getKeys (setPongTimer s k h) = if hasKey s k then getKeys s else getKeys s ++ [k].
Proof. apply getKeys_update. Qed.

Lemma getWs_addTopic s k topic k' :
  getWs (addTopic s k topic) k' = getWs s k'.
Proof. read_back. Qed.

Lemma getConnectionState_addTopic s k topic k' :
  getConnectionState (addTopic s k topic) k' = getConnectionState s k'.
Proof. read_back. Qed.

Lemma pingHandle_addTopic s k topic k' :
  pingHandle (addTopic s k topic) k' = pingHandle s k'.
Proof. read_back. Qed.

Lemma pongHandle_addTopic s k topic k' :
  pongHandle (addTopic s k topic) k' = pongHandle s k'.
Proof. read_back. Qed.

Lemma getTopics_addTopic s k topic k' :
  getTopics (addTopic s k topic) k' =
  if (k =? k')%string then if mem topic (getTopics s k) then getTopics s k else getTopics s k ++ [topic] else getTopics s k'.
Proof. read_back. Qed.

Lemma hasKey_addTopic s k topic k' :
  hasKey (addTopic s k topic) k' = (k =? k')%string || hasKey s k'.
Proof. read_back. Qed.

Lemma getKeys_addTopic s k topic :
  getKeys (addTopic s k topic) = if hasKey s k then getKeys s else getKeys s ++ [k].
Proof. apply getKeys_update. Qed.

Lemma getWs_deleteTopic s k topic k' :
  getWs (deleteTopic s k topic) k' = getWs s k'.
Proof. read_back. Qed.

Lemma getConnectionState_deleteTopic s k topic k' :
  getConnectionState (deleteTopic s k topic) k' = getConnectionState s k'.
Proof. read_back. Qed.

Lemma pingHandle_deleteTopic s k topic k' :
  pingHandle (deleteTopic s k topic) k' = pingHandle s k'.
Proof. read_back. Qed.

Lemma pongHandle_deleteTopic s k topic k' :
  pongHandle (deleteTopic s k topic) k' = pongHandle s k'.
Proof. read_back. Qed.

Lemma getTopics_deleteTopic s k topic k' :
  getTopics (deleteTopic s k topic) k' =
  if (k =? k')%string then filter (fun x => negb (x =? topic)%string) (getTopics s k) else getTopics s k'.
Proof. read_back. Qed.

Lemma hasKey_deleteTopic s k topic k' :
  hasKey (deleteTopic s k topic) k' = (k =? k')%string || hasKey s k'.
Proof. read_back. Qed.

Lemma getKeys_deleteTopic s k topic :
  getKeys (deleteTopic s k topic) = if hasKey s k then getKeys s else getKeys s ++ [k].
Proof. apply getKeys_update. Qed.

End Accessors.

Create Rewrite HintDb store.
#[local] Hint Rewrite getWs_setWs
  getConnectionState_setWs
  pingHandle_setWs
  pongHandle_setWs
  getTopics_setWs
  hasKey_setWs
  getWs_setConnectionState
  getConnectionState_setConnectionState
  pingHandle_setConnectionState
  pongHandle_setConnectionState
  getTopics_setConnectionState
  hasKey_setConnectionState
  getWs_setPingTimer
  getConnectionState_setPingTimer
  pingHandle_setPingTimer
  pongHandle_setPingTimer
  getTopics_setPingTimer
  hasKey_setPingTimer
  getWs_setPongTimer
  getConnectionState_setPongTimer
  pingHandle_setPongTimer
  pongHandle_setPongTimer
  getTopics_setPongTimer
  hasKey_setPongTimer
  getWs_addTopic
  getConnectionState_addTopic
  pingHandle_addTopic
  pongHandle_addTopic
  getTopics_addTopic
  hasKey_addTopic
  getWs_deleteTopic
  getConnectionState_deleteTopic
  pingHandle_deleteTopic
  pongHandle_deleteTopic
  getTopics_deleteTopic
  hasKey_deleteTopic : store.


Section Dropped.

Ltac dropped :=
  intros; unfold pingDropped, pongDropped;
  match goal with
  | |- context [match ?h with _ => _ end] => destruct h eqn:?
  end;
  autorewrite with store; try reflexivity;
  match goal with
  | |- context [(?a =? ?b)%string] => destruct (String.eqb_spec a b); subst
  end; congruence.

Lemma getWs_pingDropped k s k' : WsStore.getWs (pingDropped k s) k' = WsStore.getWs s k'.
Proof. dropped. Qed.

Lemma getWs_pongDropped k s k' : WsStore.getWs (pongDropped k s) k' = WsStore.getWs s k'.
Proof. dropped. Qed.

Lemma getConnectionState_pingDropped k s k' :
  WsStore.getConnectionState (pingDropped k s) k' = WsStore.getConnectionState s k'.
Proof. dropped. Qed.

Lemma getConnectionState_pongDropped k s k' :
  WsStore.getConnectionState (pongDropped k s) k' = WsStore.getConnectionState s k'.
Proof. dropped. Qed.

Lemma getTopics_pingDropped k s k' :
  WsStore.getTopics (pingDropped k s) k' = WsStore.getTopics s k'.
Proof. dropped. Qed.

Lemma getTopics_pongDropped k s k' :
  WsStore.getTopics (pongDropped k s) k' = WsStore.getTopics s k'.
Proof. dropped. Qed.

Lemma pingHandle_pingDropped k s k' :
  pingHandle (pingDropped k s) k' = if (k =? k')%string then None else pingHandle s k'.
Proof. dropped. Qed.

Lemma pingHandle_pongDropped k s k' : pingHandle (pongDropped k s) k' = pingHandle s k'.
Proof. dropped. Qed.

Lemma pongHandle_pingDropped k s k' : pongHandle (pingDropped k s) k' = pongHandle s k'.
Proof. dropped. Qed.

Lemma pongHandle_pongDropped k s k' :
  pongHandle (pongDropped k s) k' = if (k =? k')%string then None else pongHandle s k'.
Proof. dropped. Qed.

Lemma pingHandle_hasKey s k h : pingHandle s k = Some h -> hasKey s k = true.
Proof. unfold pingHandle, hasKey. destruct (WsStore.get s k); [reflexivity|discriminate]. Qed.

Lemma pongHandle_hasKey s k h : pongHandle s k = Some h -> hasKey s k = true.
Proof. unfold pongHandle, hasKey. destruct (WsStore.get s k); [reflexivity|discriminate]. Qed.

Lemma getKeys_pingDropped k s : WsStore.getKeys (pingDropped k s) = WsStore.getKeys s.
Proof.
  unfold pingDropped. destruct (pingHandle s k) eqn:H; [|reflexivity].
  rewrite getKeys_setPingTimer. now rewrite (pingHandle_hasKey _ _ _ H).
Qed.

Lemma getKeys_pongDropped k s : WsStore.getKeys (pongDropped k s) = WsStore.getKeys s.
Proof.
  unfold pongDropped. destruct (pongHandle s k) eqn:H; [|reflexivity].
  rewrite getKeys_setPongTimer. now rewrite (pongHandle_hasKey _ _ _ H).
Qed.

End Dropped.

#[local] Hint Rewrite getWs_pingDropped getWs_pongDropped
  getConnectionState_pingDropped getConnectionState_pongDropped
  getTopics_pingDropped getTopics_pongDropped
  pingHandle_pingDropped pingHandle_pongDropped
  pongHandle_pingDropped pongHandle_pongDropped
  getKeys_pingDropped getKeys_pongDropped : store.

(* ===================================================================== *)
(** ** Frame rules *)
(* ===================================================================== *)

Section Frames.

Variable P : World -> Prop.

Lemma preserves_ret {A : Type} (a : A) : preserves P (ret a).
Proof. intros w H. exact H. Qed.

Lemma preserves_throw {A : Type} (e : Error) : preserves P (@throw A e).
Proof. intros w H. exact H. Qed.

Lemma preserves_gets {A : Type} (f : World -> A) : preserves P (gets f).
Proof. intros w H. exact H. Qed.

Lemma preserves_modify (f : World -> World) :
  (forall w, P w -> P (f w)) -> preserves P (modify f).
Proof. intros Hf w H. apply Hf, H. Qed.

Lemma preserves_bind {A B : Type} (m : M A) (k : A -> M B) :
  preserves P m -> (forall a, preserves P (k a)) -> preserves P (bind m k).
Proof.
  intros Hm Hk w H. unfold bind.
  specialize (Hm w H). destruct (m w) as [[a|e] w1]; simpl in *.
  - apply Hk, Hm.
  - exact Hm.
Qed.

Lemma preserves_try_catch {A : Type} (body : M A) (handler : Error -> M A) :
  preserves P body -> (forall e, preserves P (handler e)) ->
  preserves P (try_catch body handler).
Proof.
  intros Hm Hk w H. unfold try_catch.
  specialize (Hm w H). destruct (body w) as [[a|e] w1]; simpl in *.
  - exact Hm.
  - apply Hk, Hm.
Qed.

Lemma preserves_forEach {A : Type} (l : list A) (f : A -> M unit) :
  (forall x, preserves P (f x)) -> preserves P (forEach l f).
Proof.
  intros Hf. induction l as [|x rest IH]; simpl.
  - apply preserves_ret.
  - apply preserves_bind; [apply Hf|intros _; exact IH].
Qed.

End Frames.

Lemma bind_exec {A B : Type} (m : M A) (k : A -> M B) (w : World) (a : A) :
  fst (m w) = Normal a -> bind m k w = k a (snd (m w)).
Proof.
  unfold bind. destruct (m w) as [[a'|e] w1]; simpl; intros H.
  - now inversion H.
  - discriminate.
Qed.

(** Peels a computation down to its primitive steps. *)
Ltac frame_step :=
  first
    [ apply preserves_ret
    | apply preserves_throw
    | apply preserves_gets
    | apply preserves_bind
    | apply preserves_try_catch
    | apply preserves_forEach
    | match goal with
      | |- preserves _ (match ?x with _ => _ end) => destruct x
      | |- preserves _ (if ?x then _ else _) => destruct x
      | |- forall _, _ => intro
      end ].

Ltac frame_leaf :=
  unfold preserves, modify, schedule, socket_send, socket_close, new_socket,
         set_ready;
  intros;
  repeat match goal with
         | |- context [match nth_error ?l ?n with _ => _ end] =>
             destruct (nth_error l n)
         | |- context [if is_open ?r then _ else _] => destruct (is_open r)
         | |- context [match readyState ?x with _ => _ end] => destruct (readyState x)
         end;
  cbn.

Ltac unfold_client :=
  unfold fire, constructor, reconnectNow, connect, connect_resume, connectFailed,
         pongTimedOut, ping, onWsOpen, onWsClose, onWsError, onWsMessage,
         onWsMessageResponse, onWsMessageUpdate, JSON_parse, subscribe,
         unsubscribe, close, forEachKey, requestSubscribeTopics,
         requestUnsubscribeTopics, tryWsSend, reconnectWithDelay, clearTimers,
         clearPingTimer, clearPongTimer, clearTimer, connectToWsUrl,
         signedAuthParams, getAuthParams, parseWsError, isWsOpen,
         isConnectionState, setWsState, getWs, setInterval, setTimeout, log,
         emit, fire.

Lemma nth_error_set_nth {A : Type} (f : A -> A) (l : list A) (n m : nat) :
  nth_error (set_nth n f l) m =
  if (n =? m)%nat then option_map f (nth_error l m) else nth_error l m.
Proof.
  revert n m. induction l as [|x rest IH]; intros [|n] [|m]; simpl; try reflexivity.
  - destruct (n =? m)%nat; reflexivity.
  - apply IH.
Qed.

Lemma length_set_nth {A : Type} (f : A -> A) (l : list A) (n : nat) :
  length (set_nth n f l) = length l.
Proof.
  revert n. induction l as [|x rest IH]; intros [|n]; simpl; auto.
Qed.

Lemma wrote_nil (sock : Socket) : wrote [] sock = sock.
Proof. destruct sock. unfold wrote. simpl. now rewrite app_nil_r. Qed.

Lemma wrote_wrote (a b : list json) (sock : Socket) :
  wrote b (wrote a sock) = wrote (a ++ b) sock.
Proof. unfold wrote. simpl. now rewrite app_assoc. Qed.

Lemma received_nil (sock : Socket) : received [] sock = sock.
Proof. unfold received. destruct (is_open (readyState sock)); [apply wrote_nil|reflexivity]. Qed.

Lemma received_received (a b : list json) (sock : Socket) :
  received b (received a sock) = received (a ++ b) sock.
Proof.
  unfold received. destruct (is_open (readyState sock)) eqn:Ho; simpl.
  - rewrite Ho. apply wrote_wrote.
  - rewrite Ho. reflexivity.
Qed.

Lemma nth_error_deliver (s : WsStore.t) (k : string) (frame : json)
    (socks : list Socket) (sid : SocketId) :
  nth_error (deliver s k frame socks) sid =
  option_map (received (if boundTo s sid k then [frame] else [])) (nth_error socks sid).
Proof.
  unfold deliver, boundTo.
  destruct (WsStore.getWs s k) as [x|].
  - destruct (nth_error socks x) as [sock|] eqn:Hx.
    + destruct (is_open (readyState sock)) eqn:Ho.
      * rewrite nth_error_set_nth.
        destruct (Nat.eqb_spec x sid) as [->|Hne].
        -- rewrite Hx. simpl. unfold received. now rewrite Ho.
        -- destruct (nth_error socks sid); simpl; [now rewrite received_nil|reflexivity].
      * destruct (Nat.eqb_spec x sid) as [->|Hne].
        -- rewrite Hx. simpl. unfold received. now rewrite Ho.
        -- destruct (nth_error socks sid); simpl; [now rewrite received_nil|reflexivity].
    + destruct (Nat.eqb_spec x sid) as [->|Hne].
      * rewrite Hx. reflexivity.
      * destruct (nth_error socks sid); simpl; [now rewrite received_nil|reflexivity].
  - destruct (nth_error socks sid); simpl; [now rewrite received_nil|reflexivity].
Qed.

(** Every transport after a replay: an open one has received, in key order,
    one frame for each key bound to it; any other is as it was. *)
Lemma nth_error_replay (frameOf : list string -> json) (s : WsStore.t)
    (keys : list string) (socks : list Socket) (sid : SocketId) :
  nth_error (replay frameOf s keys socks) sid =
  option_map (received (framesFor frameOf s keys sid)) (nth_error socks sid).
Proof.
  unfold replay, framesFor. revert socks.
  induction keys as [|k rest IH]; intros socks; simpl.
  - destruct (nth_error socks sid); simpl; [now rewrite received_nil|reflexivity].
  - rewrite IH, nth_error_deliver.
    destruct (nth_error socks sid) as [sock|]; simpl; [|reflexivity].
    rewrite received_received.
    destruct (boundTo s sid k); reflexivity.
Qed.

Lemma length_deliver s k frame socks : length (deliver s k frame socks) = length socks.
Proof.
  unfold deliver. destruct (WsStore.getWs s k); [|reflexivity].
  destruct (nth_error socks s0); [|reflexivity].
  destruct (is_open (readyState s1)); [apply length_set_nth|reflexivity].
Qed.

Lemma length_replay frameOf s keys socks :
  length (replay frameOf s keys socks) = length socks.
Proof.
  unfold replay. revert socks. induction keys as [|k rest IH]; intros socks; simpl.
  - reflexivity.
  - rewrite IH. apply length_deliver.
Qed.

Section SendFacts.

Variable options : WebsocketClientOptions.

Lemma tryWsSend_returns (k : string) (frame : json) (w : World) :
  fst (tryWsSend k frame w) = Normal tt.
Proof.
  unfold_client. unfold try_catch, bind, gets, socket_send, modify.
  destruct (WsStore.getWs (wsStore w) k) as [sid|]; [|reflexivity].
  destruct (nth_error (sockets w) sid) as [sock|]; [|reflexivity].
  destruct (readyState sock); reflexivity.
Qed.

Lemma tryWsSend_sockets (k : string) (frame : json) (w : World) :
  sockets (exec (tryWsSend k frame) w) = deliver (wsStore w) k frame (sockets w).
Proof.
  unfold exec, deliver. unfold_client. unfold try_catch, bind, gets, socket_send, modify.
  destruct (WsStore.getWs (wsStore w) k) as [sid|]; [|reflexivity].
  destruct (nth_error (sockets w) sid) as [sock|]; [|reflexivity].
  destruct (readyState sock); reflexivity.
Qed.

Lemma tryWsSend_store (k : string) (frame : json) (S0 : WsStore.t) :
  preserves (fun w => wsStore w = S0) (tryWsSend k frame).
Proof. unfold_client. repeat frame_step; frame_leaf; auto. Qed.

Lemma tryWsSend_timers (k : string) (frame : json) (T0 : list Timer * TimerId) :
  preserves (fun w => (timers w, nextTimer w) = T0) (tryWsSend k frame).
Proof. unfold_client. repeat frame_step; frame_leaf; auto. Qed.

Lemma tryWsSend_emitted (k : string) (frame : json) (E0 : list Emitted) :
  preserves (fun w => emitted w = E0) (tryWsSend k frame).
Proof. unfold_client. repeat frame_step; frame_leaf; auto. Qed.

Lemma tryWsSend_suspended (k : string) (frame : json) (E0 : list Suspended) :
  preserves (fun w => suspended w = E0) (tryWsSend k frame).
Proof. unfold_client. repeat frame_step; frame_leaf; auto. Qed.

Variable frameOf : list string -> json.

Let request (k : string) (topics : list string) : M unit := tryWsSend k (frameOf topics).

Let each (k : string) : M unit :=
  topics <- gets (fun w => WsStore.getTopics (wsStore w) k) ;; request k topics.

Lemma each_returns k w : fst (each k w) = Normal tt.
Proof. unfold each, request, bind, gets. apply tryWsSend_returns. Qed.

Lemma forEach_each_returns keys w : fst (forEach keys each w) = Normal tt.
Proof.
  revert w. induction keys as [|k rest IH]; intros w; simpl; [reflexivity|].
  rewrite (bind_exec _ _ _ _ (each_returns k w)). apply IH.
Qed.

Lemma forEach_each_store keys (S0 : WsStore.t) :
  preserves (fun w => wsStore w = S0) (forEach keys each).
Proof.
  apply preserves_forEach. intros k. unfold each, request.
  apply preserves_bind; [apply preserves_gets|intros; apply tryWsSend_store].
Qed.

Lemma forEach_each_sockets keys w :
  sockets (exec (forEach keys each) w) = replay frameOf (wsStore w) keys (sockets w).
Proof.
  unfold exec, replay. revert w.
  induction keys as [|k rest IH]; intros w; simpl; [reflexivity|].
  rewrite (bind_exec _ _ _ _ (each_returns k w)). rewrite IH.
  assert (Hs : wsStore (snd (each k w)) = wsStore w).
  { unfold each, request.
    apply (preserves_bind (fun w' => wsStore w' = wsStore w));
      [apply preserves_gets|intros; apply tryWsSend_store|reflexivity]. }
  rewrite Hs. f_equal.
  unfold each, request, bind, gets. apply tryWsSend_sockets.
Qed.

Lemma forEachKey_returns w : fst (forEachKey request w) = Normal tt.
Proof. unfold forEachKey, bind, gets. apply forEach_each_returns. Qed.

Lemma forEachKey_sockets w :
  sockets (exec (forEachKey request) w) =
  replay frameOf (wsStore w) (WsStore.getKeys (wsStore w)) (sockets w).
Proof. unfold exec, forEachKey, bind, gets. apply forEach_each_sockets. Qed.

Lemma forEachKey_store (S0 : WsStore.t) :
  preserves (fun w => wsStore w = S0) (forEachKey request).
Proof. unfold forEachKey, request. unfold_client. repeat frame_step; frame_leaf; auto. Qed.

Lemma forEachKey_timers (T0 : list Timer * TimerId) :
  preserves (fun w => (timers w, nextTimer w) = T0) (forEachKey request).
Proof. unfold forEachKey, request. unfold_client. repeat frame_step; frame_leaf; auto. Qed.

Lemma forEachKey_emitted (E0 : list Emitted) :
  preserves (fun w => emitted w = E0) (forEachKey request).
Proof. unfold forEachKey, request. unfold_client. repeat frame_step; frame_leaf; auto. Qed.

Lemma forEachKey_suspended (E0 : list Suspended) :
  preserves (fun w => suspended w = E0) (forEachKey request).
Proof. unfold forEachKey, request. unfold_client. repeat frame_step; frame_leaf; auto. Qed.

End SendFacts.


(* ===================================================================== *)
(** ** The fields of the world after the opaque steps *)
(* ===================================================================== *)

Create Rewrite HintDb world.

Lemma store_after_sub :
  forall w, wsStore (exec (forEachKey requestSubscribeTopics) w) = wsStore w.
Proof. intros w. now apply (forEachKey_store subscribeFrame (wsStore w)). Qed.

Lemma timers_after_sub :
  forall w, timers (exec (forEachKey requestSubscribeTopics) w) = timers w.
Proof. intros w. pose proof (forEachKey_timers subscribeFrame (timers w, nextTimer w) w eq_refl) as H. now inversion H. Qed.

Lemma nextTimer_after_sub :
  forall w, nextTimer (exec (forEachKey requestSubscribeTopics) w) = nextTimer w.
Proof. intros w. pose proof (forEachKey_timers subscribeFrame (timers w, nextTimer w) w eq_refl) as H. now inversion H. Qed.

Lemma emitted_after_sub :
  forall w, emitted (exec (forEachKey requestSubscribeTopics) w) = emitted w.
Proof. intros w. now apply (forEachKey_emitted subscribeFrame (emitted w)). Qed.

Lemma suspended_after_sub :
  forall w, suspended (exec (forEachKey requestSubscribeTopics) w) = suspended w.
Proof. intros w. now apply (forEachKey_suspended subscribeFrame (suspended w)). Qed.

Lemma sockets_after_sub :
  forall w, sockets (exec (forEachKey requestSubscribeTopics) w) =
    replay subscribeFrame (wsStore w) (WsStore.getKeys (wsStore w)) (sockets w).
Proof. intros w. apply (forEachKey_sockets subscribeFrame). Qed.

Lemma store_after_unsub :
  forall w, wsStore (exec (forEachKey requestUnsubscribeTopics) w) = wsStore w.
Proof. intros w. now apply (forEachKey_store unsubscribeFrame (wsStore w)). Qed.

Lemma timers_after_unsub :
  forall w, timers (exec (forEachKey requestUnsubscribeTopics) w) = timers w.
Proof. intros w. pose proof (forEachKey_timers unsubscribeFrame (timers w, nextTimer w) w eq_refl) as H. now inversion H. Qed.

Lemma nextTimer_after_unsub :
  forall w, nextTimer (exec (forEachKey requestUnsubscribeTopics) w) = nextTimer w.
Proof. intros w. pose proof (forEachKey_timers unsubscribeFrame (timers w, nextTimer w) w eq_refl) as H. now inversion H. Qed.

Lemma emitted_after_unsub :
  forall w, emitted (exec (forEachKey requestUnsubscribeTopics) w) = emitted w.
Proof. intros w. now apply (forEachKey_emitted unsubscribeFrame (emitted w)). Qed.

Lemma suspended_after_unsub :
  forall w, suspended (exec (forEachKey requestUnsubscribeTopics) w) = suspended w.
Proof. intros w. now apply (forEachKey_suspended unsubscribeFrame (suspended w)). Qed.

Lemma sockets_after_unsub :
  forall w, sockets (exec (forEachKey requestUnsubscribeTopics) w) =
    replay unsubscribeFrame (wsStore w) (WsStore.getKeys (wsStore w)) (sockets w).
Proof. intros w. apply (forEachKey_sockets unsubscribeFrame). Qed.

Lemma store_after_send :
  forall k frame w, wsStore (exec (tryWsSend k frame) w) = wsStore w.
Proof. intros k frame w. now apply (tryWsSend_store k frame (wsStore w)). Qed.

Lemma timers_after_send :
  forall k frame w, timers (exec (tryWsSend k frame) w) = timers w.
Proof. intros k frame w. pose proof (tryWsSend_timers k frame (timers w, nextTimer w) w eq_refl) as H. now inversion H. Qed.

Lemma nextTimer_after_send :
  forall k frame w, nextTimer (exec (tryWsSend k frame) w) = nextTimer w.
Proof. intros k frame w. pose proof (tryWsSend_timers k frame (timers w, nextTimer w) w eq_refl) as H. now inversion H. Qed.

Lemma emitted_after_send :
  forall k frame w, emitted (exec (tryWsSend k frame) w) = emitted w.
Proof. intros k frame w. now apply (tryWsSend_emitted k frame (emitted w)). Qed.

Lemma suspended_after_send :
  forall k frame w, suspended (exec (tryWsSend k frame) w) = suspended w.
Proof. intros k frame w. now apply (tryWsSend_suspended k frame (suspended w)). Qed.

Lemma sockets_after_send :
  forall k frame w, sockets (exec (tryWsSend k frame) w) = deliver (wsStore w) k frame (sockets w).
Proof. intros. apply tryWsSend_sockets. Qed.

#[local] Hint Rewrite store_after_sub
  timers_after_sub
  nextTimer_after_sub
  emitted_after_sub
  suspended_after_sub
  sockets_after_sub
  store_after_unsub
  timers_after_unsub
  nextTimer_after_unsub
  emitted_after_unsub
  suspended_after_unsub
  sockets_after_unsub
  store_after_send
  timers_after_send
  nextTimer_after_send
  emitted_after_send
  suspended_after_send
  sockets_after_send  : world.


Ltac fields :=
  cbn [wsStore sockets timers nextTimer emitted logged suspended
       with_store with_sockets with_timers with_emitted with_logged with_suspended
       pingCleared pongCleared];
  autorewrite with world;
  cbn [wsStore sockets timers nextTimer emitted logged suspended
       with_store with_sockets with_timers with_emitted with_logged with_suspended
       pingCleared pongCleared].

(* ===================================================================== *)
(** ** Running a computation step by step *)
(* ===================================================================== *)

Lemma run_gets {A B : Type} (f : World -> A) (k : A -> M B) (w : World) :
  bind (gets f) k w = k (f w) w.
Proof. reflexivity. Qed.

Lemma run_modify {B : Type} (f : World -> World) (k : unit -> M B) (w : World) :
  bind (modify f) k w = k tt (f w).
Proof. reflexivity. Qed.

Lemma run_ret {A B : Type} (a : A) (k : A -> M B) (w : World) :
  bind (ret a) k w = k a w.
Proof. reflexivity. Qed.

Lemma run_throw {A B : Type} (e : Error) (k : A -> M B) (w : World) :
  bind (throw e) k w = (Thrown e, w).
Proof. reflexivity. Qed.

Lemma run_schedule {B : Type} (cb : TimerCallback) (ms : Z) (again : bool)
    (k : TimerId -> M B) (w : World) :
  bind (schedule cb ms again) k w =
  k (nextTimer w)
    {| wsStore := wsStore w;
       sockets := sockets w;
       timers := timers w ++ [mkTimer (nextTimer w) cb ms again];
       nextTimer := S (nextTimer w);
       emitted := emitted w;
       logged := logged w;
       suspended := suspended w |}.
Proof. reflexivity. Qed.

Lemma bind_assoc {A B C : Type} (m : M A) (f : A -> M B) (g : B -> M C) (w : World) :
  bind (bind m f) g w = bind m (fun x => bind (f x) g) w.
Proof. unfold bind. destruct (m w) as [[a|e] w1]; reflexivity. Qed.

Lemma run_opaque {A B : Type} (m : M A) (k : A -> M B) (w : World) (a : A) (w1 : World) :
  m w = (Normal a, w1) -> bind m k w = k a w1.
Proof. intros H. unfold bind. now rewrite H. Qed.

Lemma clearPingTimer_run (k : string) (w : World) :
  clearPingTimer k w = (Normal tt, pingCleared k w).
Proof.
  unfold clearPingTimer, pingCleared, pingDropped, cancelled, pingHandle, clearTimer.
  rewrite run_gets. destruct w as [s so ti nt em lo su].
  unfold with_store, with_timers, modify, bind, ret. cbn [wsStore sockets timers nextTimer emitted logged suspended].
  destruct (WsStore.get s k) as [r|]; [|reflexivity].
  destruct (WsStore.activePingTimer r); reflexivity.
Qed.

Lemma clearPongTimer_run (k : string) (w : World) :
  clearPongTimer k w = (Normal tt, pongCleared k w).
Proof.
  unfold clearPongTimer, pongCleared, pongDropped, cancelled, pongHandle, clearTimer.
  rewrite run_gets. destruct w as [s so ti nt em lo su].
  unfold with_store, with_timers, modify, bind, ret. cbn [wsStore sockets timers nextTimer emitted logged suspended].
  destruct (WsStore.get s k) as [r|]; [|reflexivity].
  destruct (WsStore.activePongTimer r); reflexivity.
Qed.

Lemma clearTimers_run (k : string) (w : World) :
  clearTimers k w = (Normal tt, pongCleared k (pingCleared k w)).
Proof.
  unfold clearTimers.
  rewrite (run_opaque _ _ _ _ _ (clearPingTimer_run k w)).
  apply clearPongTimer_run.
Qed.

Lemma run_replay_subscribe {B : Type} (k : unit -> M B) (w : World) :
  bind (forEachKey requestSubscribeTopics) k w =
  k tt (exec (forEachKey requestSubscribeTopics) w).
Proof.
  apply run_opaque. unfold exec.
  rewrite (surjective_pairing (forEachKey requestSubscribeTopics w)).
  f_equal. apply (forEachKey_returns subscribeFrame).
Qed.

Lemma run_replay_unsubscribe {B : Type} (k : unit -> M B) (w : World) :
  bind (forEachKey requestUnsubscribeTopics) k w =
  k tt (exec (forEachKey requestUnsubscribeTopics) w).
Proof.
  apply run_opaque. unfold exec.
  rewrite (surjective_pairing (forEachKey requestUnsubscribeTopics w)).
  f_equal. apply (forEachKey_returns unsubscribeFrame).
Qed.

Lemma run_clearTimers {B : Type} (key : string) (k : unit -> M B) (w : World) :
  bind (clearTimers key) k w = k tt (pongCleared key (pingCleared key w)).
Proof. apply run_opaque, clearTimers_run. Qed.

Lemma run_clearPongTimer {B : Type} (key : string) (k : unit -> M B) (w : World) :
  bind (clearPongTimer key) k w = k tt (pongCleared key w).
Proof. apply run_opaque, clearPongTimer_run. Qed.

Lemma run_tryWsSend {B : Type} (key : string) (frame : json) (k : unit -> M B) (w : World) :
  bind (tryWsSend key frame) k w = k tt (exec (tryWsSend key frame) w).
Proof.
  apply run_opaque. unfold exec.
  rewrite (surjective_pairing (tryWsSend key frame w)).
  f_equal. apply tryWsSend_returns.
Qed.

Lemma replay_subscribe_run (w : World) :
  forEachKey requestSubscribeTopics w =
  (Normal tt, exec (forEachKey requestSubscribeTopics) w).
Proof.
  unfold exec. rewrite (surjective_pairing (forEachKey requestSubscribeTopics w)) at 1.
  f_equal. apply (forEachKey_returns subscribeFrame).
Qed.

Lemma replay_unsubscribe_run (w : World) :
  forEachKey requestUnsubscribeTopics w =
  (Normal tt, exec (forEachKey requestUnsubscribeTopics) w).
Proof.
  unfold exec. rewrite (surjective_pairing (forEachKey requestUnsubscribeTopics w)) at 1.
  f_equal. apply (forEachKey_returns unsubscribeFrame).
Qed.

(** Runs the primitive steps at the head of a computation. *)
Ltac mrun :=
  repeat first
    [ rewrite bind_assoc
    | rewrite run_gets
    | rewrite run_modify
    | rewrite run_ret
    | rewrite run_throw
    | rewrite run_schedule
    | rewrite run_replay_subscribe
    | rewrite run_replay_unsubscribe
    | rewrite run_clearTimers
    | rewrite run_clearPongTimer
    | rewrite run_tryWsSend
    | rewrite replay_subscribe_run
    | rewrite replay_unsubscribe_run
    | rewrite clearPongTimer_run
    | progress cbv beta iota ].

Ltac unfold_handlers :=
  unfold fire, constructor, reconnectNow, connect, connect_resume, connectFailed,
         pongTimedOut, ping, onWsOpen, onWsClose, onWsError, onWsMessage,
         onWsMessageResponse, onWsMessageUpdate, JSON_parse, subscribe,
         unsubscribe, close, reconnectWithDelay, connectToWsUrl,
         signedAuthParams, getAuthParams, parseWsError, isWsOpen,
         isConnectionState, setWsState, getWs, setInterval, setTimeout, log,
         emit, fire, clearTimer, set_ready, socket_close.

(* ===================================================================== *)
(** ** The subscription list *)
(* ===================================================================== *)

Lemma mem_In (topic : string) (l : list string) :
  WsStore.mem topic l = true <-> In topic l.
Proof.
  unfold WsStore.mem. rewrite existsb_exists. split.
  - intros [x [Hx He]]. apply String.eqb_eq in He. now subst.
  - intros H. exists topic. split; [assumption|apply String.eqb_refl].
Qed.

Lemma addTopic_adds (s : WsStore.t) (k topic : string) :
  In topic (WsStore.getTopics (WsStore.addTopic s k topic) k).
Proof.
  rewrite getTopics_addTopic, String.eqb_refl.
  destruct (WsStore.mem topic (WsStore.getTopics s k)) eqn:Hm.
  - now apply mem_In.
  - apply in_or_app. right. now left.
Qed.

Lemma addTopic_keeps (s : WsStore.t) (k topic k' x : string) :
  In x (WsStore.getTopics s k') ->
  In x (WsStore.getTopics (WsStore.addTopic s k topic) k').
Proof.
  intros H. rewrite getTopics_addTopic.
  destruct (String.eqb_spec k k') as [->|]; [|assumption].
  destruct (WsStore.mem topic (WsStore.getTopics s k')); [assumption|].
  apply in_or_app. now left.
Qed.

Lemma deleteTopic_removes (s : WsStore.t) (k topic : string) :
  ~ In topic (WsStore.getTopics (WsStore.deleteTopic s k topic) k).
Proof.
  rewrite getTopics_deleteTopic, String.eqb_refl. intros H.
  apply filter_In in H. destruct H as [_ H].
  now rewrite String.eqb_refl in H.
Qed.

Lemma deleteTopic_shrinks (s : WsStore.t) (k topic k' x : string) :
  In x (WsStore.getTopics (WsStore.deleteTopic s k topic) k') ->
  In x (WsStore.getTopics s k').
Proof.
  rewrite getTopics_deleteTopic.
  destruct (String.eqb_spec k k') as [->|]; [|auto].
  intros H. now apply filter_In in H.
Qed.

Lemma deleteTopic_keeps (s : WsStore.t) (k topic k' x : string) :
  In x (WsStore.getTopics s k') -> x <> topic \/ k <> k' ->
  In x (WsStore.getTopics (WsStore.deleteTopic s k topic) k').
Proof.
  intros H Hd. rewrite getTopics_deleteTopic.
  destruct (String.eqb_spec k k') as [->|]; [|assumption].
  apply filter_In. split; [assumption|].
  destruct (String.eqb_spec x topic) as [->|]; [|reflexivity].
  destruct Hd; congruence.
Qed.

Section Topics.

Variable options : WebsocketClientOptions.

Lemma addTopics_keeps (topics : list string) (s : WsStore.t) (k x : string) :
  In x (WsStore.getTopics s k) ->
  In x (WsStore.getTopics (addTopics options topics s) k).
Proof.
  unfold addTopics. revert s.
  induction topics as [|t rest IH]; intros s H; simpl; [assumption|].
  apply IH. now apply addTopic_keeps.
Qed.

Lemma addTopics_adds (topics : list string) (s : WsStore.t) (topic : string) :
  In topic topics ->
  In topic (WsStore.getTopics (addTopics options topics s) (getWsKeyForTopic options topic)).
Proof.
  revert s. induction topics as [|t rest IH]; intros s H; [contradiction|].
  destruct H as [->|H].
  - change (addTopics options (topic :: rest) s)
      with (addTopics options rest
              (WsStore.addTopic s (getWsKeyForTopic options topic) topic)).
    apply addTopics_keeps, addTopic_adds.
  - apply (IH _ H).
Qed.

Lemma deleteTopics_shrinks (topics : list string) (s : WsStore.t) (k x : string) :
  In x (WsStore.getTopics (deleteTopics options topics s) k) ->
  In x (WsStore.getTopics s k).
Proof.
  unfold deleteTopics. revert s.
  induction topics as [|t rest IH]; intros s H; simpl in *; [assumption|].
  apply IH in H. now apply deleteTopic_shrinks in H.
Qed.

Lemma deleteTopics_removes (topics : list string) (s : WsStore.t) (topic : string) :
  In topic topics ->
  ~ In topic (WsStore.getTopics (deleteTopics options topics s)
                                (getWsKeyForTopic options topic)).
Proof.
  revert s. induction topics as [|t rest IH]; intros s H; [contradiction|].
  destruct H as [->|H].
  - change (deleteTopics options (topic :: rest) s)
      with (deleteTopics options rest
              (WsStore.deleteTopic s (getWsKeyForTopic options topic) topic)).
    intros Hin. apply deleteTopics_shrinks in Hin.
    now apply deleteTopic_removes in Hin.
  - apply (IH _ H).
Qed.

(** A topic survives [deleteTopics] unless it is one of those deleted from
    its key. *)
Lemma deleteTopics_keeps (topics : list string) (s : WsStore.t) (k x : string) :
  In x (WsStore.getTopics s k) ->
  In x (WsStore.getTopics (deleteTopics options topics s) k)
  \/ (In x topics /\ getWsKeyForTopic options x = k).
Proof.
  unfold deleteTopics. revert s.
  induction topics as [|t rest IH]; intros s H; simpl; [now left|].
  destruct (String.eqb_spec x t) as [->|Hxt].
  - destruct (String.eqb_spec (getWsKeyForTopic options t) k) as [Hk|Hk].
    + right. split; [now left|assumption].
    + destruct (IH (WsStore.deleteTopic s (getWsKeyForTopic options t) t)) as [Hl|[Hr1 Hr2]].
      * apply deleteTopic_keeps; [assumption|now right].
      * now left.
      * right. split; [now right|assumption].
  - destruct (IH (WsStore.deleteTopic s (getWsKeyForTopic options t) t)) as [Hl|[Hr1 Hr2]].
    + apply deleteTopic_keeps; [assumption|now left].
    + now left.
    + right. split; [now right|assumption].
Qed.

Lemma getWs_addTopics topics s k :
  WsStore.getWs (addTopics options topics s) k = WsStore.getWs s k.
Proof.
  unfold addTopics. revert s. induction topics as [|t rest IH]; intros s; simpl;
    [reflexivity|]. now rewrite IH, getWs_addTopic.
Qed.

Lemma getWs_deleteTopics topics s k :
  WsStore.getWs (deleteTopics options topics s) k = WsStore.getWs s k.
Proof.
  unfold deleteTopics. revert s. induction topics as [|t rest IH]; intros s; simpl;
    [reflexivity|]. now rewrite IH, getWs_deleteTopic.
Qed.

Lemma getConnectionState_addTopics topics s k :
  WsStore.getConnectionState (addTopics options topics s) k = WsStore.getConnectionState s k.
Proof.
  unfold addTopics. revert s. induction topics as [|t rest IH]; intros s; simpl;
    [reflexivity|]. now rewrite IH, getConnectionState_addTopic.
Qed.

Lemma getConnectionState_deleteTopics topics s k :
  WsStore.getConnectionState (deleteTopics options topics s) k = WsStore.getConnectionState s k.
Proof.
  unfold deleteTopics. revert s. induction topics as [|t rest IH]; intros s; simpl;
    [reflexivity|]. now rewrite IH, getConnectionState_deleteTopic.
Qed.

Lemma pingHandle_addTopics topics s k :
  pingHandle (addTopics options topics s) k = pingHandle s k.
Proof.
  unfold addTopics. revert s. induction topics as [|t rest IH]; intros s; simpl;
    [reflexivity|]. now rewrite IH, pingHandle_addTopic.
Qed.

Lemma pingHandle_deleteTopics topics s k :
  pingHandle (deleteTopics options topics s) k = pingHandle s k.
Proof.
  unfold deleteTopics. revert s. induction topics as [|t rest IH]; intros s; simpl;
    [reflexivity|]. now rewrite IH, pingHandle_deleteTopic.
Qed.

Lemma pongHandle_addTopics topics s k :
  pongHandle (addTopics options topics s) k = pongHandle s k.
Proof.
  unfold addTopics. revert s. induction topics as [|t rest IH]; intros s; simpl;
    [reflexivity|]. now rewrite IH, pongHandle_addTopic.
Qed.

Lemma pongHandle_deleteTopics topics s k :
  pongHandle (deleteTopics options topics s) k = pongHandle s k.
Proof.
  unfold deleteTopics. revert s. induction topics as [|t rest IH]; intros s; simpl;
    [reflexivity|]. now rewrite IH, pongHandle_deleteTopic.
Qed.

Lemma run_addTopics {B : Type} (topics : list string) (k : unit -> M B) (w : World) :
  bind (forEach topics (fun topic =>
          modify (with_store (fun s =>
            WsStore.addTopic s (getWsKeyForTopic options topic) topic)))) k w =
  k tt (with_store (addTopics options topics) w).
Proof.
  unfold addTopics. revert w.
  induction topics as [|t rest IH]; intros w; simpl.
  - rewrite run_ret. destruct w; reflexivity.
  - rewrite bind_assoc, run_modify. rewrite IH. reflexivity.
Qed.

Lemma run_deleteTopics {B : Type} (topics : list string) (k : unit -> M B) (w : World) :
  bind (forEach topics (fun topic =>
          modify (with_store (fun s =>
            WsStore.deleteTopic s (getWsKeyForTopic options topic) topic)))) k w =
  k tt (with_store (deleteTopics options topics) w).
Proof.
  unfold deleteTopics. revert w.
  induction topics as [|t rest IH]; intros w; simpl.
  - rewrite run_ret. destruct w; reflexivity.
  - rewrite bind_assoc, run_modify. rewrite IH. reflexivity.
Qed.

End Topics.

#[local] Hint Rewrite getWs_addTopics getWs_deleteTopics
  getConnectionState_addTopics getConnectionState_deleteTopics
  pingHandle_addTopics pingHandle_deleteTopics
  pongHandle_addTopics pongHandle_deleteTopics : store.

(* ===================================================================== *)
(** ** What each handler does to the world *)
(* ===================================================================== *)

Ltac done_run :=
  intros E; inversion E; subst; clear E; repeat split; fields;
  autorewrite with store; try reflexivity.

Lemma state_eqb_eq (a b : WsConnectionState) : state_eqb a b = true <-> a = b.
Proof. destruct a, b; simpl; split; intros H; try reflexivity; try discriminate. Qed.

Lemma state_eqb_refl (a : WsConnectionState) : state_eqb a a = true.
Proof. now apply state_eqb_eq. Qed.

Section Handlers.

Variable options : WebsocketClientOptions.

Lemma subscribe_result (wsTopics : WsTopics) (w : World) (c : Completion unit) (w' : World) :
  subscribe options wsTopics w = (c, w') ->
  c = Normal tt
  /\ wsStore w' = addTopics options (toArray wsTopics) (wsStore w)
  /\ sockets w' =
       (if state_eqb (WsStore.getConnectionState (wsStore w) defaultWsKey) READY_STATE_CONNECTED
        then replay subscribeFrame (wsStore w') (WsStore.getKeys (wsStore w')) (sockets w)
        else sockets w)
  /\ timers w' = timers w
  /\ nextTimer w' = nextTimer w
  /\ suspended w' = suspended w
  /\ emitted w' = emitted w.
Proof.
  unfold_handlers. unfold WsStore.isConnectionState.
  rewrite run_addTopics. mrun. fields. autorewrite with store.
  destruct (state_eqb (WsStore.getConnectionState (wsStore w) defaultWsKey) READY_STATE_CONNECTED);
    mrun; unfold ret; done_run.
Qed.

Lemma unsubscribe_result (wsTopics : WsTopics) (w : World) (c : Completion unit) (w' : World) :
  unsubscribe options wsTopics w = (c, w') ->
  c = Normal tt
  /\ wsStore w' = deleteTopics options (toArray wsTopics) (wsStore w)
  /\ sockets w' =
       (if state_eqb (WsStore.getConnectionState (wsStore w) defaultWsKey) READY_STATE_CONNECTED
        then replay unsubscribeFrame (wsStore w') (WsStore.getKeys (wsStore w')) (sockets w)
        else sockets w)
  /\ timers w' = timers w
  /\ nextTimer w' = nextTimer w
  /\ suspended w' = suspended w
  /\ emitted w' = emitted w.
Proof.
  unfold_handlers. unfold WsStore.isConnectionState.
  rewrite run_deleteTopics. mrun. fields. autorewrite with store.
  destruct (state_eqb (WsStore.getConnectionState (wsStore w) defaultWsKey) READY_STATE_CONNECTED);
    mrun; unfold ret; done_run.
Qed.

Lemma onWsOpen_result (k : string) (w : World) (c : Completion unit) (w' : World) :
  onWsOpen options k w = (c, w') ->
  let s1 := WsStore.setConnectionState (wsStore w) k READY_STATE_CONNECTED in
  c = Normal tt
  /\ wsStore w' = WsStore.setPingTimer s1 k (Some (nextTimer w))
  /\ sockets w' = replay subscribeFrame s1 (WsStore.getKeys s1) (sockets w)
  /\ timers w' = timers w ++ [mkTimer (nextTimer w) PingTick (pingInterval options) true]
  /\ nextTimer w' = S (nextTimer w)
  /\ suspended w' = suspended w
  /\ emitted w' = emitted w ++ openEvents (WsStore.getConnectionState (wsStore w) k).
Proof.
  unfold_handlers. unfold WsStore.isConnectionState.
  rewrite run_gets.
  destruct (WsStore.getConnectionState (wsStore w) k) eqn:Hst;
    cbn [state_eqb state_code Z.eqb Pos.eqb]; mrun; rewrite ?Hst;
    cbn [state_eqb state_code Z.eqb Pos.eqb]; mrun.
  all: done_run.
  all: cbn; now rewrite app_nil_r.
Qed.

Lemma close_result (k : string) (w : World) (c : Completion unit) (w' : World) :
  close k w = (c, w') ->
  c = Normal tt
  /\ wsStore w' =
       pongDropped k (pingDropped k (WsStore.setConnectionState (wsStore w) k READY_STATE_CLOSING))
  /\ sockets w' =
       match WsStore.getWs (wsStore w) k with
       | Some sid =>
           set_nth sid (fun s => mkSocket (url s) (closing_of (readyState s)) (handlerKey s) (wire s))
                   (sockets w)
       | None => sockets w
       end
  /\ timers w' = cancelled (pongHandle (wsStore w) k) (cancelled (pingHandle (wsStore w) k) (timers w))
  /\ nextTimer w' = nextTimer w
  /\ suspended w' = suspended w
  /\ emitted w' = emitted w.
Proof.
  unfold_handlers. mrun. fields. autorewrite with store.
  destruct (WsStore.getWs (wsStore w) k) as [sid|]; unfold modify, ret; done_run.
Qed.

Lemma reconnectWithDelay_result (k : string) (ms : Z) (w : World)
    (c : Completion unit) (w' : World) :
  reconnectWithDelay k ms w = (c, w') ->
  c = Normal tt
  /\ wsStore w' = markReconnecting k (pongDropped k (pingDropped k (wsStore w)))
  /\ sockets w' = sockets w
  /\ timers w' =
       cancelled (pongHandle (wsStore w) k) (cancelled (pingHandle (wsStore w) k) (timers w))
       ++ [mkTimer (nextTimer w) Reconnect ms false]
  /\ nextTimer w' = S (nextTimer w)
  /\ suspended w' = suspended w
  /\ emitted w' = emitted w
  /\ logged w' = logged w.
Proof.
  unfold_handlers. mrun. fields. unfold markReconnecting.
  destruct (state_eqb (WsStore.getConnectionState
                         (pongDropped k (pingDropped k (wsStore w))) k)
                      READY_STATE_CONNECTING);
    cbn [negb]; mrun; unfold ret; done_run.
Qed.

Lemma reconnectWithDelay_run (k : string) (ms : Z) (w : World) :
  reconnectWithDelay k ms w = (Normal tt, exec (reconnectWithDelay k ms) w).
Proof.
  unfold exec. destruct (reconnectWithDelay k ms w) as [c w'] eqn:E.
  apply reconnectWithDelay_result in E. destruct E as [-> _]. reflexivity.
Qed.

Lemma run_reconnectWithDelay {B : Type} (key : string) (ms : Z) (k : unit -> M B) (w : World) :
  bind (reconnectWithDelay key ms) k w = k tt (exec (reconnectWithDelay key ms) w).
Proof. apply run_opaque, reconnectWithDelay_run. Qed.

Lemma after_reconnectWithDelay (k : string) (ms : Z) (w : World) :
  let w' := exec (reconnectWithDelay k ms) w in
  wsStore w' = markReconnecting k (pongDropped k (pingDropped k (wsStore w)))
  /\ sockets w' = sockets w
  /\ timers w' =
       cancelled (pongHandle (wsStore w) k) (cancelled (pingHandle (wsStore w) k) (timers w))
       ++ [mkTimer (nextTimer w) Reconnect ms false]
  /\ nextTimer w' = S (nextTimer w)
  /\ suspended w' = suspended w
  /\ emitted w' = emitted w
  /\ logged w' = logged w.
Proof.
  cbv zeta. unfold exec. destruct (reconnectWithDelay k ms w) as [c w'] eqn:E.
  apply reconnectWithDelay_result in E. simpl. tauto.
Qed.

Lemma onWsClose_result (k : string) (w : World) (c : Completion unit) (w' : World) :
  onWsClose options k w = (c, w') ->
  c = Normal tt
  /\ wsStore w' =
       (if state_eqb (WsStore.getConnectionState (wsStore w) k) READY_STATE_CLOSING
        then WsStore.setConnectionState (wsStore w) k READY_STATE_INITIAL
        else markReconnecting k (pongDropped k (pingDropped k (wsStore w))))
  /\ sockets w' = sockets w
  /\ timers w' =
       (if state_eqb (WsStore.getConnectionState (wsStore w) k) READY_STATE_CLOSING
        then timers w
        else cancelled (pongHandle (wsStore w) k) (cancelled (pingHandle (wsStore w) k) (timers w))
             ++ [mkTimer (nextTimer w) Reconnect (reconnectTimeout options) false])
  /\ nextTimer w' =
       (if state_eqb (WsStore.getConnectionState (wsStore w) k) READY_STATE_CLOSING
        then nextTimer w else S (nextTimer w))
  /\ suspended w' = suspended w
  /\ emitted w' =
       emitted w ++
       (if state_eqb (WsStore.getConnectionState (wsStore w) k) READY_STATE_CLOSING
        then [EvClose] else [EvReconnect]).
Proof.
  unfold onWsClose, log, emit, setWsState. mrun. fields.
  destruct (state_eqb (WsStore.getConnectionState (wsStore w) k) READY_STATE_CLOSING);
    cbn [negb]; mrun.
  - unfold modify. done_run.
  - rewrite run_reconnectWithDelay. unfold modify.
    destruct (after_reconnectWithDelay k (reconnectTimeout options)
                (with_logged (fun l => l ++ [mkLog Info "Websocket connection closed"]) w))
      as (Hs & Hso & Ht & Hn & Hsu & He & Hl).
    intros E; inversion E; subst; clear E. cbn in *.
    repeat split; assumption || (now rewrite He).
Qed.

Lemma ping_result (k : string) (w : World) (c : Completion unit) (w' : World) :
  ping options k w = (c, w') ->
  c = Normal tt
  /\ wsStore w' = WsStore.setPongTimer (pongDropped k (wsStore w)) k (Some (nextTimer w))
  /\ sockets w' = deliver (wsStore w) k pingFrame (sockets w)
  /\ timers w' =
       cancelled (pongHandle (wsStore w) k) (timers w)
       ++ [mkTimer (nextTimer w) (PongTimeout k) (pongTimeout options) false]
  /\ nextTimer w' = S (nextTimer w)
  /\ suspended w' = suspended w
  /\ emitted w' = emitted w.
Proof.
  unfold_handlers. mrun. unfold modify. done_run.
  unfold deliver. autorewrite with store. reflexivity.
Qed.

Lemma pongTimedOut_result (k : string) (w : World) (c : Completion unit) (w' : World) :
  pongTimedOut k w = (c, w') ->
  c = Normal tt
  /\ wsStore w' = wsStore w
  /\ sockets w' =
       match WsStore.getWs (wsStore w) k with
       | Some sid =>
           set_nth sid (fun s => mkSocket (url s) (closing_of (readyState s)) (handlerKey s) (wire s))
                   (sockets w)
       | None => sockets w
       end
  /\ timers w' = timers w
  /\ nextTimer w' = nextTimer w
  /\ suspended w' = suspended w
  /\ emitted w' = emitted w.
Proof.
  unfold_handlers. mrun. fields.
  destruct (WsStore.getWs (wsStore w) k) as [sid|]; unfold modify, ret; done_run.
Qed.

Lemma getAuthParams_run (w : World) :
  getAuthParams options w =
  (Normal (authStage options),
   with_logged
     (fun l => l ++
        [if truthy_string (key options) && truthy_string (secret options)
         then mkLog Debug "Getting auth'd request params"
         else mkLog Warning "Connot authenticate websocket, either api or private keys missing."])
     w).
Proof.
  unfold getAuthParams, authStage, log.
  destruct (truthy_string (key options)), (truthy_string (secret options));
    cbn [andb orb negb]; mrun; reflexivity.
Qed.

Lemma run_getAuthParams {B : Type} (k : AuthStage -> M B) (w : World) :
  bind (getAuthParams options) k w =
  k (authStage options)
    (with_logged
       (fun l => l ++
          [if truthy_string (key options) && truthy_string (secret options)
           then mkLog Debug "Getting auth'd request params"
           else mkLog Warning "Connot authenticate websocket, either api or private keys missing."])
       w).
Proof. apply run_opaque, getAuthParams_run. Qed.

Lemma connect_result (k : string) (w : World) (c : Completion unit) (w' : World) :
  connect options k w = (c, w') ->
  c = Normal tt
  /\ wsStore w' = (if refused w k then wsStore w else markConnecting k (wsStore w))
  /\ sockets w' = sockets w
  /\ timers w' = timers w
  /\ nextTimer w' = nextTimer w
  /\ suspended w' =
       (if refused w k then suspended w
        else suspended w ++ [mkSuspended k (authStage options)])
  /\ emitted w' = emitted w.
Proof.
  unfold connect, refused, try_catch, isWsOpen, isConnectionState, WsStore.isConnectionState,
    setWsState, log.
  mrun. destruct (wsOpen w k); cbn [orb].
  - unfold modify. done_run.
  - mrun. destruct (state_eqb (WsStore.getConnectionState (wsStore w) k) READY_STATE_CONNECTING).
    + unfold modify. done_run.
    + mrun. unfold markConnecting.
      replace ((state_code (WsStore.getConnectionState (wsStore w) k) =? 0)%Z
               || state_eqb (WsStore.getConnectionState (wsStore w) k) READY_STATE_INITIAL)
        with (state_eqb (WsStore.getConnectionState (wsStore w) k) READY_STATE_INITIAL)
        by (destruct (WsStore.getConnectionState (wsStore w) k); reflexivity).
      destruct (state_eqb (WsStore.getConnectionState (wsStore w) k) READY_STATE_INITIAL); mrun.
      all: rewrite run_getAuthParams; unfold modify; done_run.
Qed.


Lemma parseWsError_run (context : string) (e : Error) (k : string) (w : World) :
  exists entry, parseWsError context e k w = (Normal tt, with_logged (fun l => l ++ [entry]) w).
Proof.
  unfold parseWsError, log.
  destruct (negb (truthy_string (message e))); [eexists; reflexivity|].
  destruct (render (message e) =? "Unexpected server response: 401")%string;
    eexists; reflexivity.
Qed.

Lemma connectFailed_result (k : string) (e : Error) (w : World)
    (c : Completion unit) (w' : World) :
  connectFailed options k e w = (c, w') ->
  c = Normal tt
  /\ wsStore w' = markReconnecting k (pongDropped k (pingDropped k (wsStore w)))
  /\ sockets w' = sockets w
  /\ timers w' =
       cancelled (pongHandle (wsStore w) k) (cancelled (pingHandle (wsStore w) k) (timers w))
       ++ [mkTimer (nextTimer w) Reconnect (reconnectTimeout options) false]
  /\ nextTimer w' = S (nextTimer w)
  /\ suspended w' = suspended w
  /\ emitted w' = emitted w.
Proof.
  unfold connectFailed.
  destruct (parseWsError_run "Connection failed" e k w) as [entry Hp].
  rewrite (run_opaque _ _ _ _ _ Hp).
  intros E. apply reconnectWithDelay_result in E. cbn in E. tauto.
Qed.

Lemma onWsMessage_result (data : RawFrame) (k : string) (w : World)
    (c : Completion unit) (w' : World) :
  onWsMessage data k w = (c, w') ->
  wsStore w' = (if isPongFrame data then pongDropped k (wsStore w) else wsStore w)
  /\ sockets w' = sockets w
  /\ timers w' =
       (if isPongFrame data then cancelled (pongHandle (wsStore w) k) (timers w) else timers w)
  /\ nextTimer w' = nextTimer w
  /\ suspended w' = suspended w.
Proof.
  unfold onWsMessage, JSON_parse, onWsMessageResponse, onWsMessageUpdate, isPongFrame, log, emit.
  destruct data as [value|].
  - rewrite run_ret. destruct (has_in "success" value) as [[|]|].
    + destruct (isWsPong value).
      * mrun. done_run.
      * unfold modify. done_run.
    + destruct (truthy_opt (prop value "topic")); unfold modify; done_run.
    + unfold throw. done_run.
  - rewrite run_throw. done_run.
Qed.

Lemma onWsError_result (unheard : option Error) (err : Error) (k : string) (w : World)
    (c : Completion unit) (w' : World) :
  onWsError unheard err k w = (c, w') ->
  (unheard = None -> c = Normal tt)
  /\ wsStore w' = wsStore w
  /\ sockets w' = sockets w
  /\ timers w' = timers w
  /\ nextTimer w' = nextTimer w
  /\ suspended w' = suspended w
  /\ emitted w' =
       emitted w ++
       (if state_eqb (WsStore.getConnectionState (wsStore w) k) READY_STATE_CONNECTED
        then [EvError err] else []).
Proof.
  unfold onWsError, isConnectionState, WsStore.isConnectionState, emitError, emit.
  destruct (parseWsError_run "Websocket error" err k w) as [entry Hp].
  rewrite (run_opaque _ _ _ _ _ Hp). mrun. fields.
  destruct (state_eqb (WsStore.getConnectionState (wsStore w) k) READY_STATE_CONNECTED);
    [destruct unheard|]; unfold modify, ret, throw; done_run;
    try (cbn; now rewrite app_nil_r); discriminate.
Qed.

Variable signMessage : string -> string -> string.

Lemma signedAuthParams_returns (offset nowMs : Z) (w : World) :
  exists query, signedAuthParams signMessage options offset nowMs w = (Normal query, w).
Proof. unfold signedAuthParams. cbn. eexists. reflexivity. Qed.

(** A resumed [connect] either opens one transport and stores its handle,
    or runs its [catch] block. *)
Lemma connect_resume_result (s : Suspended) (input : ResumeInput) (w : World)
    (c : Completion unit) (w' : World) :
  connect_resume signMessage options s input w = (c, w') ->
  (exists u,
      c = Normal tt
      /\ wsStore w' = WsStore.setWs (wsStore w) (suspendedKey s) (length (sockets w))
      /\ sockets w' = sockets w ++ [mkSocket u CONNECTING (suspendedKey s) []]
      /\ timers w' = timers w
      /\ nextTimer w' = nextTimer w
      /\ suspended w' = suspended w
      /\ emitted w' = emitted w
      /\ logged w' = logged w
      /\ constructorThrows input = None
      /\ (forall a, stage s = AuthParamsReady a -> u = (getWsUrl options ++ a)%string))
  \/ (exists e, connectFailed options (suspendedKey s) e w = (c, w')
                /\ (stage s = AwaitTimeOffset \/ constructorThrows input = Some e)).
Proof.
  unfold connect_resume, connectToWsUrl, try_catch.
  destruct (stage s) as [|a] eqn:Hstage.
  - destruct (timeOffset input) as [offset|e].
    + destruct (signedAuthParams_returns offset (now input) w) as [query Hq].
      rewrite (run_opaque _ _ _ _ _ Hq).
      destruct (constructorThrows input) as [e|].
      * rewrite run_throw. intros E. right. exists e. split; [exact E|now left].
      * unfold new_socket, bind, modify. intros E. left. eexists.
        inversion E; subst; clear E. cbn. repeat split. intros a Ha. discriminate.
    + rewrite run_throw. intros E. right. exists e. split; [exact E|now left].
  - rewrite run_ret.
    destruct (constructorThrows input) as [e|].
    + rewrite run_throw. intros E. right. exists e. split; [exact E|now right].
    + unfold new_socket, bind, modify. intros E. left. eexists.
      inversion E; subst; clear E. cbn. repeat split. intros a' Ha. now inversion Ha.
Qed.

End Handlers.

(* ===================================================================== *)
(** ** Lists of transports and of timers *)
(* ===================================================================== *)

Lemma In_set_nth {A : Type} (f : A -> A) (l : list A) (n : nat) (y : A) :
  In y (set_nth n f l) -> In y l \/ exists x, In x l /\ y = f x.
Proof.
  revert n. induction l as [|x rest IH]; intros [|n]; simpl; try tauto.
  - intros [<-|H]; [right; exists x; auto|auto].
  - intros [<-|H]; [auto|].
    destruct (IH _ H) as [H1|[z [H1 H2]]]; [auto|right; exists z; auto].
Qed.

Lemma In_deliver s k frame socks sock :
  In sock (deliver s k frame socks) ->
  exists sock0, In sock0 socks /\ handlerKey sock = handlerKey sock0
                /\ readyState sock = readyState sock0.
Proof.
  unfold deliver.
  destruct (WsStore.getWs s k) as [sid|]; [|intros; exists sock; auto].
  destruct (nth_error socks sid) as [so|]; [|intros; exists sock; auto].
  destruct (is_open (readyState so)); [|intros; exists sock; auto].
  intros H. apply In_set_nth in H. destruct H as [H|[x [H1 ->]]].
  - exists sock; auto.
  - exists x; auto.
Qed.

Lemma In_replay frameOf s keys socks sock :
  In sock (replay frameOf s keys socks) ->
  exists sock0, In sock0 socks /\ handlerKey sock = handlerKey sock0
                /\ readyState sock = readyState sock0.
Proof.
  unfold replay. revert socks sock.
  induction keys as [|k rest IH]; intros socks sock; simpl.
  - intros; exists sock; auto.
  - intros H. apply IH in H. destruct H as [s1 (H1 & H2 & H3)].
    apply In_deliver in H1. destruct H1 as [s0 (H4 & H5 & H6)].
    exists s0. repeat split; congruence || assumption.
Qed.

Lemma In_cancel (h : TimerId) (l : list Timer) (tm : Timer) :
  In tm (cancel h l) <-> In tm l /\ timerId tm <> h.
Proof.
  unfold cancel. rewrite filter_In.
  destruct (Nat.eqb_spec (timerId tm) h); simpl; intuition congruence.
Qed.

Lemma In_cancelled (h : option TimerId) (l : list Timer) (tm : Timer) :
  In tm (cancelled h l) <-> In tm l /\ h <> Some (timerId tm).
Proof.
  destruct h as [x|]; simpl.
  - rewrite In_cancel. intuition congruence.
  - intuition congruence.
Qed.

Lemma find_timer_In (h : TimerId) (l : list Timer) (tm : Timer) :
  find_timer h l = Some tm -> In tm l /\ timerId tm = h.
Proof.
  unfold find_timer. intros H. apply find_some in H.
  destruct H as [H1 H2]. now apply Nat.eqb_eq in H2.
Qed.

Lemma In_remove_nth {A : Type} (n : nat) (l : list A) (x : A) :
  In x (remove_nth n l) -> In x l.
Proof.
  revert n. induction l as [|y rest IH]; intros [|n]; simpl; auto.
  intros [H|H]; [auto|right; eauto].
Qed.

Lemma NoDup_addTopics options topics s :
  NoDup (WsStore.getKeys s) -> NoDup (WsStore.getKeys (addTopics options topics s)).
Proof.
  unfold addTopics. revert s. induction topics as [|t rest IH]; intros s H; simpl;
    [assumption|]. apply IH. now apply getKeys_update_NoDup.
Qed.

Lemma NoDup_deleteTopics options topics s :
  NoDup (WsStore.getKeys s) -> NoDup (WsStore.getKeys (deleteTopics options topics s)).
Proof.
  unfold deleteTopics. revert s. induction topics as [|t rest IH]; intros s H; simpl;
    [assumption|]. apply IH. now apply getKeys_update_NoDup.
Qed.

Lemma NoDup_setConnectionState s k st :
  NoDup (WsStore.getKeys s) -> NoDup (WsStore.getKeys (WsStore.setConnectionState s k st)).
Proof. apply getKeys_update_NoDup. Qed.

Lemma NoDup_setWs s k sid :
  NoDup (WsStore.getKeys s) -> NoDup (WsStore.getKeys (WsStore.setWs s k sid)).
Proof. apply getKeys_update_NoDup. Qed.

Lemma NoDup_setPingTimer s k h :
  NoDup (WsStore.getKeys s) -> NoDup (WsStore.getKeys (WsStore.setPingTimer s k h)).
Proof. apply getKeys_update_NoDup. Qed.

Lemma NoDup_setPongTimer s k h :
  NoDup (WsStore.getKeys s) -> NoDup (WsStore.getKeys (WsStore.setPongTimer s k h)).
Proof. apply getKeys_update_NoDup. Qed.

Lemma NoDup_markReconnecting s k :
  NoDup (WsStore.getKeys s) -> NoDup (WsStore.getKeys (markReconnecting k s)).
Proof.
  unfold markReconnecting. destruct (state_eqb _ _); [auto|apply NoDup_setConnectionState].
Qed.

Lemma NoDup_markConnecting s k :
  NoDup (WsStore.getKeys s) -> NoDup (WsStore.getKeys (markConnecting k s)).
Proof.
  unfold markConnecting. destruct (state_eqb _ _); [apply NoDup_setConnectionState|auto].
Qed.

Section MarkFacts.

Ltac marked :=
  intros; unfold markReconnecting, markConnecting;
  match goal with
  | |- context [if ?c then _ else _] => destruct c
  end; autorewrite with store; reflexivity.

Lemma getWs_markReconnecting k s k' :
  WsStore.getWs (markReconnecting k s) k' = WsStore.getWs s k'.
Proof. marked. Qed.

Lemma getWs_markConnecting k s k' :
  WsStore.getWs (markConnecting k s) k' = WsStore.getWs s k'.
Proof. marked. Qed.

Lemma pingHandle_markReconnecting k s k' :
  pingHandle (markReconnecting k s) k' = pingHandle s k'.
Proof. marked. Qed.

Lemma pingHandle_markConnecting k s k' :
  pingHandle (markConnecting k s) k' = pingHandle s k'.
Proof. marked. Qed.

Lemma pongHandle_markReconnecting k s k' :
  pongHandle (markReconnecting k s) k' = pongHandle s k'.
Proof. marked. Qed.

Lemma pongHandle_markConnecting k s k' :
  pongHandle (markConnecting k s) k' = pongHandle s k'.
Proof. marked. Qed.

Lemma getTopics_markReconnecting k s k' :
  WsStore.getTopics (markReconnecting k s) k' = WsStore.getTopics s k'.
Proof. marked. Qed.

Lemma getTopics_markConnecting k s k' :
  WsStore.getTopics (markConnecting k s) k' = WsStore.getTopics s k'.
Proof. marked. Qed.

Lemma getConnectionState_markReconnecting k s k' :
  WsStore.getConnectionState (markReconnecting k s) k' =
  if (k =? k')%string
  then (if state_eqb (WsStore.getConnectionState s k) READY_STATE_CONNECTING
        then READY_STATE_CONNECTING else READY_STATE_RECONNECTING)
  else WsStore.getConnectionState s k'.
Proof.
  unfold markReconnecting.
  destruct (state_eqb (WsStore.getConnectionState s k) READY_STATE_CONNECTING) eqn:H.
  - destruct (String.eqb_spec k k') as [->|]; [|reflexivity].
    now apply state_eqb_eq in H.
  - autorewrite with store. reflexivity.
Qed.

Lemma getConnectionState_markConnecting k s k' :
  WsStore.getConnectionState (markConnecting k s) k' =
  if (k =? k')%string
  then (if state_eqb (WsStore.getConnectionState s k) READY_STATE_INITIAL
        then READY_STATE_CONNECTING else WsStore.getConnectionState s k)
  else WsStore.getConnectionState s k'.
Proof.
  unfold markConnecting.
  destruct (state_eqb (WsStore.getConnectionState s k) READY_STATE_INITIAL) eqn:H.
  - autorewrite with store. reflexivity.
  - destruct (String.eqb_spec k k') as [->|]; reflexivity.
Qed.

End MarkFacts.

#[local] Hint Rewrite getWs_markReconnecting getWs_markConnecting
  pingHandle_markReconnecting pingHandle_markConnecting
  pongHandle_markReconnecting pongHandle_markConnecting
  getTopics_markReconnecting getTopics_markConnecting
  getConnectionState_markReconnecting getConnectionState_markConnecting : store.

(* ===================================================================== *)
(** ** The wiring invariant *)
(* ===================================================================== *)

Lemma exec_modify_then {A : Type} (f : World -> World) (m : M A) (w : World) :
  exec (modify f ;; m) w = exec m (f w).
Proof. reflexivity. Qed.

Ltac case_match :=
  match goal with
  | |- context [match ?x with _ => _ end] => destruct x eqn:?
  end.

Ltac neq_default :=
  match goal with
  | Hk : ?k <> defaultWsKey |- context [(defaultWsKey =? ?k)%string] =>
      destruct (String.eqb_spec defaultWsKey k); [congruence|]
  end.

Ltac same_others :=
  intros; autorewrite with store; try neq_default; repeat split; reflexivity.

Ltac with_result L :=
  match goal with
  | |- context [exec ?m ?w] =>
      unfold exec; destruct (m w) as [?c ?w1] eqn:E; cbn [snd];
      apply L in E; cbv zeta in E
  end.

Section Wiring.

Variable options : WebsocketClientOptions.

Lemma newClient_fields :
  wsStore (newClient options) =
    [(defaultWsKey,
      WsStore.mkStored None READY_STATE_CONNECTING None None [])]
  /\ sockets (newClient options) = []
  /\ timers (newClient options) = []
  /\ nextTimer (newClient options) = 1
  /\ suspended (newClient options) = [mkSuspended defaultWsKey (authStage options)]
  /\ emitted (newClient options) = [].
Proof.
  unfold newClient, exec, constructor, setWsState.
  rewrite run_modify.
  destruct (connect options defaultWsKey _) as [c w'] eqn:E.
  apply connect_result in E. destruct E as (_ & Hs & Hso & Ht & Hn & Hsu & He).
  cbn in *. tauto.
Qed.

Lemma newClient_Wired : Wired (newClient options).
Proof.
  destruct newClient_fields as (Hs & Hso & Ht & Hn & Hsu & He).
  constructor; rewrite ?Hs, ?Hso, ?Ht, ?Hsu.
  - repeat constructor; simpl; tauto.
  - intros sock [].
  - intros s [<-|[]]. reflexivity.
  - intros k Hk. unfold WsStore.getWs, WsStore.getConnectionState, pingHandle, pongHandle.
    cbn [WsStore.get]. destruct (String.eqb_spec defaultWsKey k); [congruence|].
    repeat split; congruence.
  - intros tm k [].
  - intros sid. unfold WsStore.getWs. cbn [WsStore.get].
    rewrite String.eqb_refl. discriminate.
Qed.

Lemma handlers_set_nth (f : Socket -> Socket) (sid : SocketId) (socks : list Socket) :
  (forall s, handlerKey (f s) = handlerKey s) ->
  (forall sock, In sock socks -> handlerKey sock = defaultWsKey) ->
  forall sock, In sock (set_nth sid f socks) -> handlerKey sock = defaultWsKey.
Proof.
  intros Hf H sock Hin. apply In_set_nth in Hin.
  destruct Hin as [Hin|[x [Hin ->]]]; [auto|]. rewrite Hf. auto.
Qed.

Lemma handlers_replay frameOf s keys (socks : list Socket) :
  (forall sock, In sock socks -> handlerKey sock = defaultWsKey) ->
  forall sock, In sock (replay frameOf s keys socks) -> handlerKey sock = defaultWsKey.
Proof.
  intros H sock Hin. apply In_replay in Hin.
  destruct Hin as [s0 (H1 & H2 & _)]. rewrite H2. auto.
Qed.

Lemma handlers_deliver s k frame (socks : list Socket) :
  (forall sock, In sock socks -> handlerKey sock = defaultWsKey) ->
  forall sock, In sock (deliver s k frame socks) -> handlerKey sock = defaultWsKey.
Proof.
  intros H sock Hin. apply In_deliver in Hin.
  destruct Hin as [s0 (H1 & H2 & _)]. rewrite H2. auto.
Qed.

(** The fields of [Wired] that only read the store, for a store that
    differs from a wired one in the default key's record alone. *)
Lemma others_kept (s s' : WsStore.t) :
  (forall k, k <> defaultWsKey ->
     WsStore.getWs s' k = WsStore.getWs s k
     /\ WsStore.getConnectionState s' k = WsStore.getConnectionState s k
     /\ pingHandle s' k = pingHandle s k
     /\ pongHandle s' k = pongHandle s k) ->
  (forall k, k <> defaultWsKey ->
     WsStore.getWs s k = None
     /\ WsStore.getConnectionState s k <> READY_STATE_CONNECTED
     /\ pingHandle s k = None /\ pongHandle s k = None) ->
  forall k, k <> defaultWsKey ->
     WsStore.getWs s' k = None
     /\ WsStore.getConnectionState s' k <> READY_STATE_CONNECTED
     /\ pingHandle s' k = None /\ pongHandle s' k = None.
Proof.
  intros Heq H k Hk. destruct (Heq k Hk) as (-> & -> & -> & ->). auto.
Qed.

Lemma Wired_subscribe (wsTopics : WsTopics) (w : World) :
  Wired w -> Wired (exec (subscribe options wsTopics) w).
Proof.
  intros [Hk Hh Hsus Ho Hp Hws]. with_result subscribe_result.
  destruct E as (_ & Hs & Hso & Ht & Hn & Hsu & _).
  constructor; rewrite ?Hs, ?Ht, ?Hsu, ?Hso.
  - now apply NoDup_addTopics.
  - case_match; [now apply handlers_replay|assumption].
  - assumption.
  - revert Ho. apply others_kept. same_others.
  - assumption.
  - autorewrite with store. intros sid Hsid. apply Hws in Hsid.
    case_match; [now rewrite length_replay|assumption].
Qed.

Lemma Wired_unsubscribe (wsTopics : WsTopics) (w : World) :
  Wired w -> Wired (exec (unsubscribe options wsTopics) w).
Proof.
  intros [Hk Hh Hsus Ho Hp Hws]. with_result unsubscribe_result.
  destruct E as (_ & Hs & Hso & Ht & Hn & Hsu & _).
  constructor; rewrite ?Hs, ?Ht, ?Hsu, ?Hso.
  - now apply NoDup_deleteTopics.
  - case_match; [now apply handlers_replay|assumption].
  - assumption.
  - revert Ho. apply others_kept. same_others.
  - assumption.
  - autorewrite with store. intros sid Hsid. apply Hws in Hsid.
    case_match; [now rewrite length_replay|assumption].
Qed.

Lemma Wired_close (k : string) (w : World) :
  Wired w -> Wired (exec (close k) w).
Proof.
  intros [Hk Hh Hsus Ho Hp Hws]. with_result close_result.
  destruct E as (_ & Hs & Hso & Ht & Hn & Hsu & _).
  constructor; rewrite ?Hs, ?Ht, ?Hsu, ?Hso.
  - autorewrite with store. now apply NoDup_setConnectionState.
  - case_match; [|assumption]. apply handlers_set_nth; auto.
  - assumption.
  - intros k' Hk'. autorewrite with store.
    destruct (Ho k' Hk') as (H1 & H2 & H3 & H4). rewrite H1, H3, H4.
    repeat split.
    + destruct (String.eqb_spec k k'); [discriminate|assumption].
    + now destruct (_ =? _)%string.
    + now destruct (_ =? _)%string.
  - intros tm k' Hin. apply In_cancelled in Hin. destruct Hin as [Hin _].
    apply In_cancelled in Hin. destruct Hin as [Hin _]. now apply Hp.
  - autorewrite with store. intros sid Hsid. apply Hws in Hsid.
    case_match; [now rewrite length_set_nth|assumption].
Qed.

Lemma Wired_timers (f : list Timer -> list Timer) (w : World) :
  (forall tm, In tm (f (timers w)) -> In tm (timers w)) ->
  Wired w -> Wired (with_timers f w).
Proof.
  intros Hf [Hk Hh Hsus Ho Hp Hws]. constructor; cbn; auto.
  intros tm k Hin. apply Hp. now apply Hf.
Qed.

Lemma Wired_logged (f : list LogEntry -> list LogEntry) (w : World) :
  Wired w -> Wired (with_logged f w).
Proof. intros [Hk Hh Hsus Ho Hp Hws]. constructor; cbn; auto. Qed.

Lemma Wired_resumed (i : nat) (w : World) :
  Wired w -> Wired (with_suspended (remove_nth i) w).
Proof.
  intros [Hk Hh Hsus Ho Hp Hws]. constructor; cbn; auto.
  intros s Hin. apply Hsus. now apply In_remove_nth in Hin.
Qed.

Lemma Wired_ready (sid : SocketId) (r : ReadyState) (w : World) :
  Wired w ->
  Wired (with_sockets (set_nth sid (fun s => mkSocket (url s) r (handlerKey s) (wire s))) w).
Proof.
  intros [Hk Hh Hsus Ho Hp Hws]. constructor; cbn; auto.
  - apply handlers_set_nth; auto.
  - intros s Hs. rewrite length_set_nth. auto.
Qed.

Lemma Wired_ping (w : World) :
  Wired w -> Wired (exec (ping options defaultWsKey) w).
Proof.
  intros [Hk Hh Hsus Ho Hp Hws]. with_result ping_result.
  destruct E as (_ & Hs & Hso & Ht & Hn & Hsu & _).
  constructor; rewrite ?Hs, ?Ht, ?Hsu, ?Hso.
  - apply NoDup_setPongTimer. now autorewrite with store.
  - now apply handlers_deliver.
  - assumption.
  - revert Ho. apply others_kept. same_others.
  - intros tm k Hin Hcb. apply in_app_or in Hin. destruct Hin as [Hin|[<-|[]]].
    + apply In_cancelled in Hin. destruct Hin as [Hin _]. eapply Hp; eauto.
    + cbn in Hcb. congruence.
  - autorewrite with store. intros sid Hsid. apply Hws in Hsid.
    now rewrite length_deliver.
Qed.

Lemma Wired_pongTimedOut (k : string) (w : World) :
  Wired w -> Wired (exec (pongTimedOut k) w).
Proof.
  intros [Hk Hh Hsus Ho Hp Hws]. with_result pongTimedOut_result.
  destruct E as (_ & Hs & Hso & Ht & Hn & Hsu & _).
  constructor; rewrite ?Hs, ?Ht, ?Hsu, ?Hso.
  - assumption.
  - case_match; [|assumption]. apply handlers_set_nth; auto.
  - assumption.
  - assumption.
  - assumption.
  - intros sid Hsid. apply Hws in Hsid.
    case_match; [now rewrite length_set_nth|assumption].
Qed.

Lemma Wired_connect (w : World) :
  Wired w -> Wired (exec (connect options defaultWsKey) w).
Proof.
  intros [Hk Hh Hsus Ho Hp Hws]. with_result connect_result.
  destruct E as (_ & Hs & Hso & Ht & Hn & Hsu & _).
  constructor; rewrite ?Hs, ?Ht, ?Hsu, ?Hso.
  - case_match; [assumption|now apply NoDup_markConnecting].
  - assumption.
  - case_match; [assumption|].
    intros s Hin. apply in_app_or in Hin. destruct Hin as [Hin|[<-|[]]]; auto.
  - case_match; [assumption|]. revert Ho. apply others_kept. same_others.
  - assumption.
  - case_match; [assumption|]. now autorewrite with store.
Qed.

Lemma Wired_reconnectNow (w : World) :
  Wired w -> Wired (exec (reconnectNow options) w).
Proof.
  intros H. unfold reconnectNow, log. rewrite exec_modify_then.
  now apply Wired_connect, Wired_logged.
Qed.

Lemma Wired_failed (e : Error) (w : World) :
  Wired w -> Wired (exec (connectFailed options defaultWsKey e) w).
Proof.
  intros [Hk Hh Hsus Ho Hp Hws]. with_result connectFailed_result.
  destruct E as (_ & Hs & Hso & Ht & Hn & Hsu & _).
  constructor; rewrite ?Hs, ?Ht, ?Hsu, ?Hso.
  - apply NoDup_markReconnecting. now autorewrite with store.
  - assumption.
  - assumption.
  - revert Ho. apply others_kept. same_others.
  - intros tm k Hin Hcb. apply in_app_or in Hin. destruct Hin as [Hin|[<-|[]]].
    + apply In_cancelled in Hin. destruct Hin as [Hin _].
      apply In_cancelled in Hin. destruct Hin as [Hin _]. eapply Hp; eauto.
    + discriminate.
  - now autorewrite with store.
Qed.

Lemma Wired_onWsOpen (w : World) :
  Wired w -> Wired (exec (onWsOpen options defaultWsKey) w).
Proof.
  intros [Hk Hh Hsus Ho Hp Hws]. with_result onWsOpen_result.
  destruct E as (_ & Hs & Hso & Ht & Hn & Hsu & _).
  constructor; rewrite ?Hs, ?Ht, ?Hsu, ?Hso.
  - now apply NoDup_setPingTimer, NoDup_setConnectionState.
  - now apply handlers_replay.
  - assumption.
  - revert Ho. apply others_kept. same_others.
  - intros tm k Hin Hcb. apply in_app_or in Hin. destruct Hin as [Hin|[<-|[]]].
    + eapply Hp; eauto.
    + discriminate.
  - autorewrite with store. intros sid Hsid. apply Hws in Hsid.
    now rewrite length_replay.
Qed.

Lemma Wired_onWsClose (w : World) :
  Wired w -> Wired (exec (onWsClose options defaultWsKey) w).
Proof.
  intros [Hk Hh Hsus Ho Hp Hws]. with_result onWsClose_result.
  destruct E as (_ & Hs & Hso & Ht & Hn & Hsu & _).
  constructor; rewrite ?Hs, ?Ht, ?Hsu, ?Hso.
  - case_match.
    + now apply NoDup_setConnectionState.
    + apply NoDup_markReconnecting. now autorewrite with store.
  - assumption.
  - assumption.
  - case_match; revert Ho; apply others_kept; same_others.
  - case_match; intros tm k Hin Hcb; [eapply Hp; eauto|].
    apply in_app_or in Hin. destruct Hin as [Hin|[<-|[]]].
    + apply In_cancelled in Hin. destruct Hin as [Hin _].
      apply In_cancelled in Hin. destruct Hin as [Hin _]. eapply Hp; eauto.
    + discriminate.
  - case_match; now autorewrite with store.
Qed.

Lemma Wired_onWsMessage (data : RawFrame) (w : World) :
  Wired w -> Wired (exec (onWsMessage data defaultWsKey) w).
Proof.
  intros [Hk Hh Hsus Ho Hp Hws]. with_result onWsMessage_result.
  destruct E as (Hs & Hso & Ht & Hn & Hsu).
  constructor; rewrite ?Hs, ?Ht, ?Hsu, ?Hso.
  - case_match; now autorewrite with store.
  - assumption.
  - assumption.
  - case_match; [|assumption]. revert Ho. apply others_kept. same_others.
  - case_match; intros tm k Hin Hcb; [|eapply Hp; eauto].
    apply In_cancelled in Hin. destruct Hin as [Hin _]. eapply Hp; eauto.
  - case_match; now autorewrite with store.
Qed.

Lemma Wired_onWsError (unheard : option Error) (err : Error) (k : string) (w : World) :
  Wired w -> Wired (exec (onWsError unheard err k) w).
Proof.
  intros [Hk Hh Hsus Ho Hp Hws]. with_result onWsError_result.
  destruct E as (_ & Hs & Hso & Ht & Hn & Hsu & _).
  constructor; rewrite ?Hs, ?Ht, ?Hsu, ?Hso; assumption.
Qed.

Lemma fire_exec (tm : Timer) (w : World) :
  exec (fire options tm) w =
  exec (match callback tm with
        | PingTick => ping options defaultWsKey
        | PongTimeout wsKey => pongTimedOut wsKey
        | Reconnect => reconnectNow options
        end)
       (if repeating tm then w else with_timers (cancel (timerId tm)) w).
Proof. unfold fire, clearTimer. destruct (repeating tm); reflexivity. Qed.

Variable signMessage : string -> string -> string.

Lemma Wired_connect_resume (s : Suspended) (input : ResumeInput) (w : World) :
  suspendedKey s = defaultWsKey ->
  Wired w -> Wired (exec (connect_resume signMessage options s input) w).
Proof.
  intros Hkey Hw.
  unfold exec. destruct (connect_resume signMessage options s input w) as [c w1] eqn:E.
  cbn [snd]. apply connect_resume_result in E. rewrite Hkey in E.
  destruct E as [[u (_ & Hs & Hso & Ht & Hn & Hsu & _)]|[e [E _]]].
  - destruct Hw as [Hk Hh Hsus Ho Hp Hws].
    constructor; rewrite ?Hs, ?Ht, ?Hsu, ?Hso.
    + now apply NoDup_setWs.
    + intros sock Hin. apply in_app_or in Hin. destruct Hin as [Hin|[<-|[]]]; auto.
    + assumption.
    + intros k Hk'. autorewrite with store. neq_default.
      destruct (Ho k Hk') as (H1 & H2 & H3 & H4). auto.
    + assumption.
    + intros sid. autorewrite with store. rewrite String.eqb_refl.
      intros Hsid. inversion Hsid. rewrite length_app. simpl. lia.
  - replace w1 with (exec (connectFailed options defaultWsKey e) w)
      by (unfold exec; now rewrite E).
    now apply Wired_failed.
Qed.

Lemma step_Wired (a : Action) (w w' : World) :
  Wired w -> step signMessage options a w = Some w' -> Wired w'.
Proof.
  intros Hw H.
  destruct a; cbn [step] in H;
    repeat match type of H with
           | context [match ?x with _ => _ end] => destruct x eqn:?
           end;
    try discriminate; injection H as <-;
    try (unfold set_ready; rewrite exec_modify_then);
    try match goal with
        | Hn : nth_error (sockets w) _ = Some ?sock |- _ =>
            rewrite (wired_handlers Hw sock (nth_error_In _ _ Hn))
        end.
  - now apply Wired_subscribe.
  - now apply Wired_unsubscribe.
  - now apply Wired_close.
  - rewrite fire_exec.
    assert (Hw0 : Wired (if repeating t then w else with_timers (cancel (timerId t)) w)).
    { destruct (repeating t); [assumption|]. apply Wired_timers; [|assumption].
      intros tm Hin. now apply In_cancel in Hin. }
    destruct (callback t).
    + now apply Wired_ping.
    + now apply Wired_pongTimedOut.
    + now apply Wired_reconnectNow.
  - apply Wired_connect_resume.
    + apply (wired_suspended Hw). eapply nth_error_In; eauto.
    + now apply Wired_resumed.
  - now apply Wired_onWsOpen, Wired_ready.
  - now apply Wired_onWsMessage.
  - now apply Wired_onWsMessage.
  - now apply Wired_onWsError.
  - now apply Wired_onWsError.
  - now apply Wired_onWsError.
  - now apply Wired_onWsClose, Wired_ready.
  - now apply Wired_onWsClose, Wired_ready.
  - now apply Wired_onWsClose, Wired_ready.
  - unfold exec, set_ready, modify. cbn [snd]. now apply Wired_ready.
Qed.

Lemma reachable_Wired (w : World) :
  reachable signMessage options w -> Wired w.
Proof.
  induction 1 as [|a w w' _ IH Hstep].
  - apply newClient_Wired.
  - eapply step_Wired; eauto.
Qed.

End Wiring.

(* ===================================================================== *)
(** ** The heartbeat invariant, move by move *)
(* ===================================================================== *)

Lemma count_app {A : Type} (p : A -> bool) (l l' : list A) :
  count p (l ++ l') = count p l + count p l'.
Proof. unfold count. now rewrite filter_app, length_app. Qed.

Lemma count_filter_le {A : Type} (p q : A -> bool) (l : list A) :
  count p (filter q l) <= count p l.
Proof.
  unfold count. induction l as [|x rest IH]; simpl; [lia|].
  destruct (q x) eqn:Hq; simpl; destruct (p x) eqn:Hp; simpl; lia.
Qed.

Lemma count_cancelled_le (p : Timer -> bool) (h : option TimerId) (l : list Timer) :
  count p (cancelled h l) <= count p l.
Proof. destruct h; simpl; [apply count_filter_le|lia]. Qed.

Lemma count_pos {A : Type} (p : A -> bool) (l : list A) (x : A) :
  In x l -> p x = true -> 1 <= count p l.
Proof.
  unfold count. intros Hin Hp.
  assert (H : In x (filter p l)) by (apply filter_In; auto).
  destruct (filter p l); [contradiction|simpl; lia].
Qed.

Lemma count_none {A : Type} (p : A -> bool) (l : list A) :
  count p l = 0 -> forall x, In x l -> p x = false.
Proof.
  intros H x Hin. destruct (p x) eqn:Hp; [|reflexivity].
  pose proof (count_pos p l x Hin Hp). lia.
Qed.

Lemma count_cancel_lt (p : Timer -> bool) (l : list Timer) (tm : Timer) :
  In tm l -> p tm = true -> count p (cancel (timerId tm) l) + 1 <= count p l.
Proof.
  unfold count, cancel. induction l as [|x rest IH]; intros Hin Hp; [contradiction|].
  simpl. destruct Hin as [->|Hin].
  - rewrite Nat.eqb_refl. simpl. rewrite Hp. simpl.
    pose proof (count_filter_le p (fun t => negb (timerId t =? timerId tm)%nat) rest) as Hle.
    unfold count in Hle. lia.
  - specialize (IH Hin Hp).
    destruct (negb (timerId x =? timerId tm)%nat); simpl; destruct (p x); simpl; lia.
Qed.

Lemma count_set_nth_same {A : Type} (p : A -> bool) (f : A -> A) (i : nat) (l : list A) :
  (forall x, p (f x) = p x) -> count p (set_nth i f l) = count p l.
Proof.
  intros Hf. unfold count. revert i.
  induction l as [|x rest IH]; intros [|i]; simpl; try reflexivity.
  - rewrite Hf. destruct (p x); reflexivity.
  - destruct (p x); simpl; now rewrite IH.
Qed.

Lemma count_set_nth_kill {A : Type} (p : A -> bool) (f : A -> A) (i : nat) (l : list A) (x : A) :
  nth_error l i = Some x -> p x = true -> p (f x) = false ->
  count p (set_nth i f l) + 1 = count p l.
Proof.
  unfold count. revert i.
  induction l as [|y rest IH]; intros [|i] Hn Hp Hf; simpl in *; try discriminate.
  - injection Hn as ->. rewrite Hp, Hf. simpl. lia.
  - specialize (IH i Hn Hp Hf). destruct (p y); simpl; lia.
Qed.

Lemma count_set_nth_kill_free {A : Type} (p : A -> bool) (f : A -> A) (i : nat)
    (l : list A) (x : A) :
  nth_error l i = Some x -> p x = true -> p (f x) = true ->
  count p (set_nth i f l) = count p l.
Proof.
  unfold count. revert i.
  induction l as [|y rest IH]; intros [|i] Hn Hp Hf; simpl in *; try discriminate.
  - injection Hn as ->. now rewrite Hp, Hf.
  - specialize (IH i Hn Hp Hf). destruct (p y); simpl; lia.
Qed.

Lemma count_two {A : Type} (p : A -> bool) (l : list A) (i j : nat) (a b : A) :
  i <> j -> nth_error l i = Some a -> nth_error l j = Some b ->
  p a = true -> p b = true -> 2 <= count p l.
Proof.
  unfold count. revert i j.
  induction l as [|y rest IH]; intros [|i] [|j] Hne Hi Hj Ha Hb; simpl in *;
    try discriminate; try congruence.
  - injection Hi as ->. rewrite Ha. simpl.
    pose proof (count_pos p rest b (nth_error_In _ _ Hj) Hb) as H. unfold count in H. lia.
  - injection Hj as ->. rewrite Hb. simpl.
    pose proof (count_pos p rest a (nth_error_In _ _ Hi) Ha) as H. unfold count in H. lia.
  - assert (Hne' : i <> j) by congruence.
    specialize (IH i j Hne' Hi Hj Ha Hb). destruct (p y); simpl; lia.
Qed.

(** Dropping pending timers keeps the handles of the others distinct. *)
Lemma NoDup_ids_kept (keep : Timer -> bool) (ts : list Timer) :
  NoDup (map timerId ts) -> NoDup (map timerId (filter keep ts)).
Proof.
  induction ts as [|tm rest IH]; simpl; intros Hnd; [constructor|].
  apply NoDup_cons_iff in Hnd. destruct Hnd as [Hfresh Hrest].
  destruct (keep tm); simpl; [|auto].
  apply NoDup_cons; [|auto]. intros Hin. apply Hfresh.
  apply in_map_iff in Hin. destruct Hin as [other [Hid Hin]].
  apply filter_In in Hin. apply in_map_iff. exists other. tauto.
Qed.

Lemma NoDup_ids_cancelled (h : option TimerId) (l : list Timer) :
  NoDup (map timerId l) -> NoDup (map timerId (cancelled h l)).
Proof. destruct h; simpl; [apply NoDup_ids_kept|auto]. Qed.

Lemma NoDup_ids_fresh (l : list Timer) (tm : Timer) :
  NoDup (map timerId l) ->
  (forall x, In x l -> timerId x < timerId tm) ->
  NoDup (map timerId (l ++ [tm])).
Proof.
  intros Hnd Hfresh. rewrite map_app. simpl.
  apply NoDup_app; [assumption|repeat constructor; simpl; tauto|].
  intros id Hin [<-|[]]. apply in_map_iff in Hin.
  destruct Hin as [x [Hx Hin]]. specialize (Hfresh x Hin). lia.
Qed.

Lemma same_id_same_timer (l : list Timer) (a b : Timer) :
  NoDup (map timerId l) -> In a l -> In b l -> timerId a = timerId b -> a = b.
Proof.
  induction l as [|x rest IH]; intros Hnd Ha Hb Hid; [contradiction|].
  simpl in Hnd. inversion Hnd as [|? ? Hnotin Hnd']; subst.
  destruct Ha as [->|Ha], Hb as [->|Hb]; auto.
  - exfalso. apply Hnotin. rewrite Hid. now apply in_map.
  - exfalso. apply Hnotin. rewrite <- Hid. now apply in_map.
Qed.

Lemma set_nth_In_kept {A : Type} (f : A -> A) (i : nat) (l : list A) (x : A) :
  In x l -> In x (set_nth i f l) \/ In (f x) (set_nth i f l).
Proof.
  revert i. induction l as [|y rest IH]; intros [|i] Hin; simpl in *; try tauto.
  - destruct Hin as [->|Hin]; auto.
  - destruct Hin as [->|Hin]; [auto|]. destruct (IH i Hin); auto.
Qed.

Lemma nth_error_In_index {A : Type} (l : list A) (x : A) :
  In x l -> exists i, nth_error l i = Some x.
Proof. apply In_nth_error. Qed.

Section Moves.

Variables (St : WsConnectionState) (P Q : option TimerId) (T : list Timer)
          (N : TimerId) (R : list ReadyState) (U : nat).

Hypothesis H : Heart St P Q T N R U.

(** A pending ping interval survives the cancelling of the pong handle. *)
Lemma ping_kept (tm : Timer) :
  In tm T -> isPing tm = true -> In tm (cancelled Q T).
Proof.
  intros Hin Hp. apply In_cancelled. split; [assumption|].
  apply (heart_distinct H). now apply (heart_ping H).
Qed.

(** [clearPongTimer] *)
Lemma heart_pong_cleared : Heart St P None (cancelled Q T) N R U.
Proof.
  destruct H as [Hf Hi Hk Hpf Hqf Hd Hq Hp Hc Ht Hu Hcl]. constructor.
  - intros tm Hin. apply In_cancelled in Hin. now apply Hf.
  - now apply NoDup_ids_cancelled.
  - intros tm Hin. apply In_cancelled in Hin. now apply Hk.
  - assumption.
  - discriminate.
  - discriminate.
  - intros tm Hin Hpong. apply In_cancelled in Hin. destruct Hin as [Hin Hne].
    exfalso. apply Hne. now apply Hq.
  - intros tm Hin. apply In_cancelled in Hin. now apply Hp.
  - intros Hs. destruct (Hc Hs) as [tm [Hin Hping]]. exists tm. split; [|assumption].
    now apply ping_kept.
  - pose proof (count_cancelled_le isReconnect Q T). lia.
  - intros [tm [Hin Hping]]. apply Hu. exists tm. apply In_cancelled in Hin. tauto.
  - intros Hs tm Hin. apply In_cancelled in Hin. now apply Hcl.
Qed.

(** Both handles cleared, as [clearTimers] does, on the way to a state
    other than Connected. *)
Lemma heart_both_cleared (S' : WsConnectionState) :
  S' <> READY_STATE_CONNECTED ->
  Heart S' None None (cancelled Q (cancelled P T)) N R U.
Proof.
  intros Hs'.
  assert (Hnoping : forall tm, In tm (cancelled Q (cancelled P T)) -> isPing tm = false).
  { intros tm Hin. apply In_cancelled in Hin. destruct Hin as [Hin _].
    apply In_cancelled in Hin. destruct Hin as [Hin Hne].
    destruct (isPing tm) eqn:Hp; [|reflexivity].
    exfalso. apply Hne. now apply (heart_ping H). }
  destruct H as [Hf Hi Hk Hpf Hqf Hd Hq Hp Hc Ht Hu Hcl]. constructor.
  - intros tm Hin. apply In_cancelled in Hin. destruct Hin as [Hin _].
    apply In_cancelled in Hin. now apply Hf.
  - now apply NoDup_ids_cancelled, NoDup_ids_cancelled.
  - intros tm Hin. apply In_cancelled in Hin. destruct Hin as [Hin _].
    apply In_cancelled in Hin. now apply Hk.
  - discriminate.
  - discriminate.
  - discriminate.
  - intros tm Hin Hpong. apply In_cancelled in Hin. destruct Hin as [Hin Hne].
    apply In_cancelled in Hin. exfalso. apply Hne. now apply Hq.
  - intros tm Hin Hping. rewrite (Hnoping tm Hin) in Hping. discriminate.
  - contradiction.
  - pose proof (count_cancelled_le isReconnect Q (cancelled P T)).
    pose proof (count_cancelled_le isReconnect P T). lia.
  - intros [tm [Hin Hping]]. rewrite (Hnoping tm Hin) in Hping. discriminate.
  - intros _. exact Hnoping.
Qed.

(** [ws.close()] on one transport. *)
Lemma heart_socket_closing (i : nat) :
  Heart St P Q T N (set_nth i closing_of R) U.
Proof.
  destruct H as [Hf Hi Hk Hpf Hqf Hd Hq Hp Hc Ht Hu Hcl].
  constructor; try assumption.
  - rewrite count_set_nth_same; [assumption|]. now intros [].
  - intros Hex. destruct (Hu Hex) as [r [Hin Hup]].
    destruct (set_nth_In_kept closing_of i R r Hin) as [Hk'|Hk'].
    + exists r. auto.
    + exists (closing_of r). split; [assumption|]. now destruct r.
Qed.

(** A change of state that neither enters Connected nor enters Closing. *)
Lemma heart_state (S' : WsConnectionState) :
  (S' = READY_STATE_CONNECTED -> St = READY_STATE_CONNECTED) ->
  (S' = READY_STATE_CLOSING -> St = READY_STATE_CLOSING) ->
  Heart S' P Q T N R U.
Proof.
  intros H1 H2.
  destruct H as [Hf Hi Hk Hpf Hqf Hd Hq Hp Hc Ht Hu Hcl].
  constructor; try assumption; auto.
Qed.

(** A timeout fires: it is no longer pending when its callback runs. *)
Lemma heart_fired (tm : Timer) :
  In tm T -> repeating tm = false ->
  Heart St P Q (cancel (timerId tm) T) N R U.
Proof.
  intros Hin Hrep.
  assert (Hnot : isPing tm = false) by (now rewrite <- (heart_kinds H tm Hin)).
  destruct H as [Hf Hi Hk Hpf Hqf Hd Hq Hp Hc Ht Hu Hcl]. constructor; try assumption.
  - intros x Hx. apply In_cancel in Hx. now apply Hf.
  - now apply NoDup_ids_kept.
  - intros x Hx. apply In_cancel in Hx. now apply Hk.
  - intros x Hx. apply In_cancel in Hx. now apply Hq.
  - intros x Hx. apply In_cancel in Hx. now apply Hp.
  - intros Hs. destruct (Hc Hs) as [x [Hx Hping]]. exists x. split; [|assumption].
    apply In_cancel. split; [assumption|]. intros Hid.
    assert (x = tm) by (now apply (same_id_same_timer T)). subst. congruence.
  - pose proof (count_filter_le isReconnect
                  (fun t => negb (timerId t =? timerId tm)%nat) T) as Hle.
    unfold cancel. lia.
  - intros [x [Hx Hping]]. apply Hu. exists x. apply In_cancel in Hx. tauto.
  - intros Hs x Hx. apply In_cancel in Hx. now apply Hcl.
Qed.

(** [setTimeout] of the reconnect, when nothing else carries the
    connection on. *)
Lemma heart_arm_reconnect (ms : Z) :
  U + count isReconnect T + count liveR R = 0 ->
  Heart St P Q (T ++ [mkTimer N Reconnect ms false]) (S N) R U.
Proof.
  intros Hroom. destruct H as [Hf Hi Hk Hpf Hqf Hd Hq Hp Hc Ht Hu Hcl]. constructor.
  - intros tm Hin. apply in_app_or in Hin. destruct Hin as [Hin|[<-|[]]].
    + specialize (Hf tm Hin). lia.
    + simpl. lia.
  - apply NoDup_ids_fresh; [assumption|]. intros x Hx. simpl. now apply Hf.
  - intros tm Hin. apply in_app_or in Hin. destruct Hin as [Hin|[<-|[]]]; auto.
  - intros h Hh. specialize (Hpf h Hh). lia.
  - intros h Hh. specialize (Hqf h Hh). lia.
  - assumption.
  - intros tm Hin Hpong. apply in_app_or in Hin. destruct Hin as [Hin|[<-|[]]]; auto.
    discriminate.
  - intros tm Hin Hping. apply in_app_or in Hin. destruct Hin as [Hin|[<-|[]]]; auto.
    discriminate.
  - intros Hs. destruct (Hc Hs) as [tm [Hin Hping]]. exists tm. split; [|assumption].
    apply in_or_app. now left.
  - rewrite count_app. cbn. lia.
  - intros [tm [Hin Hping]]. apply Hu. apply in_app_or in Hin.
    destruct Hin as [Hin|[<-|[]]]; [eauto|discriminate].
  - intros Hs tm Hin. apply in_app_or in Hin. destruct Hin as [Hin|[<-|[]]]; auto.
Qed.

(** No ping interval is pending while a transport is still connecting. *)
Lemma no_ping_while_connecting (i : nat) :
  nth_error R i = Some CONNECTING -> forall tm, In tm T -> isPing tm = false.
Proof.
  intros Hi tm Hin. destruct (isPing tm) eqn:Hping; [|reflexivity]. exfalso.
  destruct (heart_up H (ex_intro _ tm (conj Hin Hping))) as [r [Hr Hup]].
  destruct (nth_error_In_index R r Hr) as [j Hj].
  assert (Hne : i <> j).
  { intros ->. rewrite Hi in Hj. injection Hj as <-. discriminate. }
  assert (Hlive : liveR r = true) by (destruct r; auto; discriminate).
  pose proof (count_two liveR R i j CONNECTING r Hne Hi Hj eq_refl Hlive).
  pose proof (heart_tokens H). lia.
Qed.

(** The open event of a connecting transport. *)
Lemma heart_opened (i : nat) (ms : Z) :
  nth_error R i = Some CONNECTING ->
  Heart READY_STATE_CONNECTED (Some N) Q
        (T ++ [mkTimer N PingTick ms true]) (S N)
        (set_nth i (fun _ => OPEN) R) U.
Proof.
  intros Hi. pose proof (no_ping_while_connecting i Hi) as Hnoping.
  destruct H as [Hf Hids Hk Hpf Hqf Hd Hq Hp Hc Ht Hu Hcl]. constructor.
  - intros tm Hin. apply in_app_or in Hin. destruct Hin as [Hin|[<-|[]]].
    + specialize (Hf tm Hin). lia.
    + simpl. lia.
  - apply NoDup_ids_fresh; [assumption|]. intros x Hx. simpl. now apply Hf.
  - intros tm Hin. apply in_app_or in Hin. destruct Hin as [Hin|[<-|[]]]; auto.
  - intros h Hh. injection Hh as <-. lia.
  - intros h Hh. specialize (Hqf h Hh). lia.
  - intros h Hh Heq. injection Hh as <-. specialize (Hqf N Heq). lia.
  - intros tm Hin Hpong. apply in_app_or in Hin. destruct Hin as [Hin|[<-|[]]]; auto.
    discriminate.
  - intros tm Hin Hping. apply in_app_or in Hin. destruct Hin as [Hin|[<-|[]]].
    + rewrite (Hnoping tm Hin) in Hping. discriminate.
    + reflexivity.
  - intros _. exists (mkTimer N PingTick ms true). split; [|reflexivity].
    apply in_or_app. right. now left.
  - rewrite count_app. cbn.
    rewrite (count_set_nth_kill_free liveR (fun _ => OPEN) i R CONNECTING Hi); auto. lia.
  - intros _. exists OPEN. split; [|reflexivity].
    apply (nth_error_In _ i). rewrite nth_error_set_nth, Nat.eqb_refl, Hi. reflexivity.
  - discriminate.
Qed.

(** The close event of a transport, once no ping interval is pending. *)
Lemma heart_socket_closed (i : nat) (r : ReadyState) :
  nth_error R i = Some r -> liveR r = true ->
  (forall tm, In tm T -> isPing tm = false) ->
  Heart St P Q T N (set_nth i (fun _ => CLOSED) R) U
  /\ U + count isReconnect T + count liveR (set_nth i (fun _ => CLOSED) R) = 0.
Proof.
  intros Hi Hlive Hnoping.
  pose proof (count_set_nth_kill liveR (fun _ => CLOSED) i R r Hi Hlive eq_refl) as Hkill.
  destruct H as [Hf Hids Hk Hpf Hqf Hd Hq Hp Hc Ht Hu Hcl].
  split; [|lia]. constructor; try assumption.
  - lia.
  - intros [tm [Hin Hping]]. rewrite (Hnoping tm Hin) in Hping. discriminate.
Qed.

(** A [connect] call is left suspended, when nothing else carries the
    connection on. *)
Lemma heart_suspended :
  U + count isReconnect T + count liveR R = 0 ->
  Heart St P Q T N R (S U).
Proof.
  intros Hroom. destruct H as [Hf Hids Hk Hpf Hqf Hd Hq Hp Hc Ht Hu Hcl].
  constructor; try assumption. lia.
Qed.

(** A resumed [connect] opens its transport. *)
Lemma heart_socket_added :
  U + count isReconnect T + count liveR R = 0 ->
  Heart St P Q T N (R ++ [CONNECTING]) U.
Proof.
  intros Hroom. destruct H as [Hf Hids Hk Hpf Hqf Hd Hq Hp Hc Ht Hu Hcl].
  constructor; try assumption.
  - rewrite count_app. cbn. lia.
  - intros Hex. destruct (Hu Hex) as [r [Hr Hup]]. exists r. split; [|assumption].
    apply in_or_app. now left.
Qed.

(** After a reconnect timeout fired, nothing else carries the connection
    on. *)
Lemma fired_reconnect_room (tm : Timer) :
  In tm T -> isReconnect tm = true ->
  U + count isReconnect (cancel (timerId tm) T) + count liveR R = 0.
Proof.
  intros Hin Hrec. pose proof (count_cancel_lt isReconnect T tm Hin Hrec).
  pose proof (heart_tokens H). lia.
Qed.

End Moves.

(** A suspended [connect] resumes: nothing else carries the connection
    on. *)
Lemma heart_unsuspended St P Q T N R U :
  Heart St P Q T N R (S U) ->
  Heart St P Q T N R U /\ U + count isReconnect T + count liveR R = 0.
Proof.
  intros [Hf Hids Hk Hpf Hqf Hd Hq Hp Hc Ht Hu Hcl].
  split; [|lia]. constructor; try assumption. lia.
Qed.

(** [setTimeout] of the pong timeout, once the old handle is cleared. *)
Lemma heart_arm_pong St P T N R U (k : string) (ms : Z) :
  Heart St P None T N R U ->
  Heart St P (Some N) (T ++ [mkTimer N (PongTimeout k) ms false]) (S N) R U.
Proof.
  intros [Hf Hi Hk Hpf Hqf Hd Hq Hp Hc Ht Hu Hcl]. constructor.
  - intros tm Hin. apply in_app_or in Hin. destruct Hin as [Hin|[<-|[]]].
    + specialize (Hf tm Hin). lia.
    + simpl. lia.
  - apply NoDup_ids_fresh; [assumption|]. intros x Hx. simpl. now apply Hf.
  - intros tm Hin. apply in_app_or in Hin. destruct Hin as [Hin|[<-|[]]]; auto.
  - intros h Hh. specialize (Hpf h Hh). lia.
  - intros h Hh. injection Hh as <-. lia.
  - intros h Hh Heq. injection Heq as <-. specialize (Hpf N Hh). lia.
  - intros tm Hin Hpong. apply in_app_or in Hin. destruct Hin as [Hin|[<-|[]]].
    + specialize (Hq tm Hin Hpong). congruence.
    + reflexivity.
  - intros tm Hin Hping. apply in_app_or in Hin. destruct Hin as [Hin|[<-|[]]]; auto.
    discriminate.
  - intros Hs. destruct (Hc Hs) as [tm [Hin Hping]]. exists tm. split; [|assumption].
    apply in_or_app. now left.
  - rewrite count_app. cbn. lia.
  - intros [tm [Hin Hping]]. apply Hu. apply in_app_or in Hin.
    destruct Hin as [Hin|[<-|[]]]; [eauto|discriminate].
  - intros Hs tm Hin. apply in_app_or in Hin. destruct Hin as [Hin|[<-|[]]]; auto.
Qed.


(* ===================================================================== *)
(** ** The heartbeat invariant, handler by handler *)
(* ===================================================================== *)

Lemma map_set_nth {A B : Type} (g : A -> B) (f : A -> A) (f' : B -> B) (i : nat) (l : list A) :
  (forall x, g (f x) = f' (g x)) -> map g (set_nth i f l) = set_nth i f' (map g l).
Proof.
  intros Hf. revert i. induction l as [|x rest IH]; intros [|i]; simpl; try reflexivity.
  - now rewrite Hf.
  - now rewrite IH.
Qed.

Lemma set_nth_id {A : Type} (f : A -> A) (i : nat) (l : list A) :
  (forall x, f x = x) -> set_nth i f l = l.
Proof.
  intros Hf. revert i. induction l as [|x rest IH]; intros [|i]; simpl; try reflexivity.
  - now rewrite Hf.
  - now rewrite IH.
Qed.

Lemma set_nth_at {A : Type} (f g : A -> A) (i : nat) (l : list A) (x : A) :
  nth_error l i = Some x -> f x = g x -> set_nth i f l = set_nth i g l.
Proof.
  revert i. induction l as [|y rest IH]; intros [|i] Hn Hfg; simpl in *; try discriminate.
  - injection Hn as ->. now rewrite Hfg.
  - now rewrite (IH i Hn Hfg).
Qed.

Lemma readyStates_deliver s k frame socks :
  map readyState (deliver s k frame socks) = map readyState socks.
Proof.
  unfold deliver. destruct (WsStore.getWs s k) as [sid|]; [|reflexivity].
  destruct (nth_error socks sid) as [sock|]; [|reflexivity].
  destruct (is_open (readyState sock)); [|reflexivity].
  rewrite (map_set_nth readyState (wrote [frame]) (fun r => r)); [|reflexivity].
  now apply set_nth_id.
Qed.

Lemma readyStates_replay frameOf s keys socks :
  map readyState (replay frameOf s keys socks) = map readyState socks.
Proof.
  unfold replay. revert socks. induction keys as [|k rest IH]; intros socks; simpl;
    [reflexivity|]. now rewrite IH, readyStates_deliver.
Qed.

Lemma readyStates_ready (sid : SocketId) (r : ReadyState) (socks : list Socket) :
  map readyState (set_nth sid (fun s => mkSocket (url s) r (handlerKey s) (wire s)) socks)
  = set_nth sid (fun _ => r) (map readyState socks).
Proof. now apply map_set_nth. Qed.

Lemma readyStates_closing (sid : SocketId) (socks : list Socket) :
  map readyState
      (set_nth sid (fun s => mkSocket (url s) (closing_of (readyState s)) (handlerKey s) (wire s))
               socks)
  = set_nth sid closing_of (map readyState socks).
Proof. now apply map_set_nth. Qed.

Lemma nth_error_readyState (socks : list Socket) (sid : SocketId) (sock : Socket) :
  nth_error socks sid = Some sock ->
  nth_error (map readyState socks) sid = Some (readyState sock).
Proof. intros H. now rewrite nth_error_map, H. Qed.

(** Rewrites the seven quantities the heartbeat invariant reads, in a world
    described by the equations of a handler's result. *)
Ltac observe :=
  unfold Beating in *;
  repeat match goal with
         | Heq : wsStore ?w' = _ |- context [wsStore ?w'] => rewrite Heq
         | Heq : sockets ?w' = _ |- context [sockets ?w'] => rewrite Heq
         | Heq : timers ?w' = _ |- context [timers ?w'] => rewrite Heq
         | Heq : nextTimer ?w' = _ |- context [nextTimer ?w'] => rewrite Heq
         | Heq : suspended ?w' = _ |- context [suspended ?w'] => rewrite Heq
         end;
  autorewrite with store;
  rewrite ?String.eqb_refl, ?readyStates_replay, ?readyStates_deliver,
          ?readyStates_ready, ?readyStates_closing.

Section Beats.

Variable options : WebsocketClientOptions.

Lemma newClient_Beating : Beating (newClient options).
Proof.
  destruct (newClient_fields options) as (Hs & Hso & Ht & Hn & Hsu & He).
  unfold Beating, WsStore.getConnectionState, pingHandle, pongHandle.
  rewrite Hs, Hso, Ht, Hn, Hsu. cbn [WsStore.get]. rewrite String.eqb_refl. cbn.
  constructor; cbn; try (intros; contradiction || discriminate || lia).
  - constructor.
  - intros [tm [[] _]].
Qed.

Lemma Beating_subscribe (wsTopics : WsTopics) (w : World) :
  Beating w -> Beating (exec (subscribe options wsTopics) w).
Proof.
  intros H. with_result subscribe_result.
  destruct E as (_ & Hs & Hso & Ht & Hn & Hsu & _). observe.
  case_match; rewrite ?readyStates_replay; exact H.
Qed.

Lemma Beating_unsubscribe (wsTopics : WsTopics) (w : World) :
  Beating w -> Beating (exec (unsubscribe options wsTopics) w).
Proof.
  intros H. with_result unsubscribe_result.
  destruct E as (_ & Hs & Hso & Ht & Hn & Hsu & _). observe.
  case_match; rewrite ?readyStates_replay; exact H.
Qed.

Lemma Beating_onWsError (unheard : option Error) (err : Error) (k : string) (w : World) :
  Beating w -> Beating (exec (onWsError unheard err k) w).
Proof.
  intros H. with_result onWsError_result.
  destruct E as (_ & Hs & Hso & Ht & Hn & Hsu & _). observe. exact H.
Qed.

Lemma Beating_onWsMessage (data : RawFrame) (w : World) :
  Beating w -> Beating (exec (onWsMessage data defaultWsKey) w).
Proof.
  intros H. with_result onWsMessage_result.
  destruct E as (Hs & Hso & Ht & Hn & Hsu). observe.
  destruct (isPongFrame data); autorewrite with store; rewrite ?String.eqb_refl.
  - now apply heart_pong_cleared.
  - exact H.
Qed.

Lemma Beating_ping (w : World) :
  Beating w -> Beating (exec (ping options defaultWsKey) w).
Proof.
  intros H. with_result ping_result.
  destruct E as (_ & Hs & Hso & Ht & Hn & Hsu & _). observe.
  apply heart_arm_pong. now apply heart_pong_cleared.
Qed.

Lemma Beating_pongTimedOut (k : string) (w : World) :
  Beating w -> Beating (exec (pongTimedOut k) w).
Proof.
  intros H. with_result pongTimedOut_result.
  destruct E as (_ & Hs & Hso & Ht & Hn & Hsu & _). observe.
  case_match; rewrite ?readyStates_closing; [|exact H].
  now apply heart_socket_closing.
Qed.

Lemma Beating_close (k : string) (w : World) :
  Wired w -> Beating w -> Beating (exec (close k) w).
Proof.
  intros Hw H. with_result close_result.
  destruct E as (_ & Hs & Hso & Ht & Hn & Hsu & _). observe.
  assert (Hsock : Heart (WsStore.getConnectionState (wsStore w) defaultWsKey)
                        (pingHandle (wsStore w) defaultWsKey)
                        (pongHandle (wsStore w) defaultWsKey)
                        (timers w) (nextTimer w)
                        (map readyState
                           match WsStore.getWs (wsStore w) k with
                           | Some sid =>
                               set_nth sid
                                 (fun s => mkSocket (url s) (closing_of (readyState s))
                                                    (handlerKey s) (wire s))
                                 (sockets w)
                           | None => sockets w
                           end)
                        (length (suspended w))).
  { case_match; rewrite ?readyStates_closing; [|exact H]. now apply heart_socket_closing. }
  destruct (String.eqb_spec k defaultWsKey) as [->|Hne].
  - apply (heart_both_cleared _ _ _ _ _ _ _ Hsock). discriminate.
  - destruct (wired_others Hw Hne) as (_ & _ & Hp & Hq). rewrite Hp, Hq. exact Hsock.
Qed.

Lemma Beating_connect (w : World) :
  Beating w ->
  length (suspended w) + count isReconnect (timers w)
    + count liveR (map readyState (sockets w)) = 0 ->
  Beating (exec (connect options defaultWsKey) w).
Proof.
  intros H Hroom. with_result connect_result.
  destruct E as (_ & Hs & Hso & Ht & Hn & Hsu & _). observe.
  destruct (refused w defaultWsKey); [exact H|].
  autorewrite with store. rewrite String.eqb_refl, length_app. cbn [length].
  replace (length (suspended w) + 1) with (S (length (suspended w))) by lia.
  apply heart_suspended; [|assumption].
  apply (heart_state _ _ _ _ _ _ _ H).
  - destruct (state_eqb _ _) eqn:Hi; [discriminate|auto].
  - destruct (state_eqb _ _) eqn:Hi; [discriminate|auto].
Qed.

Lemma Beating_failed (e : Error) (w : World) :
  Beating w ->
  length (suspended w) + count isReconnect (timers w)
    + count liveR (map readyState (sockets w)) = 0 ->
  Beating (exec (connectFailed options defaultWsKey e) w).
Proof.
  intros H Hroom. with_result connectFailed_result.
  destruct E as (_ & Hs & Hso & Ht & Hn & Hsu & _). observe.
  apply heart_arm_reconnect.
  - apply (heart_both_cleared _ _ _ _ _ _ _ H). case_match; discriminate.
  - pose proof (count_cancelled_le isReconnect (pongHandle (wsStore w) defaultWsKey)
                  (cancelled (pingHandle (wsStore w) defaultWsKey) (timers w))).
    pose proof (count_cancelled_le isReconnect (pingHandle (wsStore w) defaultWsKey) (timers w)).
    lia.
Qed.

Lemma Beating_opened (sid : SocketId) (sock : Socket) (w : World) :
  Beating w ->
  nth_error (sockets w) sid = Some sock -> readyState sock = CONNECTING ->
  Beating (exec (onWsOpen options defaultWsKey)
             (with_sockets
                (set_nth sid (fun s => mkSocket (url s) OPEN (handlerKey s) (wire s))) w)).
Proof.
  intros H Hsock Hready. with_result onWsOpen_result.
  destruct E as (_ & Hs & Hso & Ht & Hn & Hsu & _). cbn [wsStore sockets timers nextTimer suspended with_sockets with_suspended] in Hs, Hso, Ht, Hn, Hsu. observe.
  apply (heart_opened _ _ _ _ _ _ _ H).
  rewrite <- Hready. now apply nth_error_readyState.
Qed.

Lemma Beating_closed (sid : SocketId) (sock : Socket) (w : World) :
  Beating w ->
  nth_error (sockets w) sid = Some sock -> liveR (readyState sock) = true ->
  Beating (exec (onWsClose options defaultWsKey)
             (with_sockets
                (set_nth sid (fun s => mkSocket (url s) CLOSED (handlerKey s) (wire s))) w)).
Proof.
  intros H Hsock Hlive. with_result onWsClose_result.
  destruct E as (_ & Hs & Hso & Ht & Hn & Hsu & _). cbn [wsStore sockets timers nextTimer suspended with_sockets with_suspended] in Hs, Hso, Ht, Hn, Hsu. observe.
  pose proof (nth_error_readyState _ _ _ Hsock) as Hnth.
  destruct (state_eqb (WsStore.getConnectionState (wsStore w) defaultWsKey)
                      READY_STATE_CLOSING) eqn:Hst;
    autorewrite with store; rewrite ?String.eqb_refl.
  - apply state_eqb_eq in Hst.
    destruct (heart_socket_closed _ _ _ _ _ _ _ H sid _ Hnth Hlive
                (heart_closing H Hst)) as [Hh _].
    apply (heart_state _ _ _ _ _ _ _ Hh); discriminate.
  - assert (Hc : Heart
                   (if state_eqb (WsStore.getConnectionState (wsStore w) defaultWsKey)
                                 READY_STATE_CONNECTING
                    then READY_STATE_CONNECTING else READY_STATE_RECONNECTING)
                   None None
                   (cancelled (pongHandle (wsStore w) defaultWsKey)
                      (cancelled (pingHandle (wsStore w) defaultWsKey) (timers w)))
                   (nextTimer w) (map readyState (sockets w)) (length (suspended w))).
    { apply (heart_both_cleared _ _ _ _ _ _ _ H). case_match; discriminate. }
    assert (Hnoping : forall tm,
               In tm (cancelled (pongHandle (wsStore w) defaultWsKey)
                        (cancelled (pingHandle (wsStore w) defaultWsKey) (timers w))) ->
               isPing tm = false).
    { intros tm Hin. destruct (isPing tm) eqn:Hp; [|reflexivity].
      pose proof (heart_ping Hc tm Hin Hp). discriminate. }
    destruct (heart_socket_closed _ _ _ _ _ _ _ Hc sid _ Hnth Hlive Hnoping) as [Hh Hroom].
    now apply heart_arm_reconnect.
Qed.

Variable signMessage : string -> string -> string.

Lemma Beating_resumed (i : nat) (s : Suspended) (input : ResumeInput) (w : World) :
  suspendedKey s = defaultWsKey ->
  Beating w -> nth_error (suspended w) i = Some s ->
  Beating (exec (connect_resume signMessage options s input)
             (with_suspended (remove_nth i) w)).
Proof.
  intros Hkey H Hi.
  assert (Hlen : length (suspended w) = S (length (remove_nth i (suspended w)))).
  { clear - Hi. revert i Hi. induction (suspended w) as [|x rest IH]; intros [|i] Hi;
      simpl in *; try discriminate; [reflexivity|]. now rewrite (IH i Hi). }
  unfold Beating in H. rewrite Hlen in H. apply heart_unsuspended in H.
  destruct H as [H Hroom].
  unfold exec.
  destruct (connect_resume signMessage options s input (with_suspended (remove_nth i) w))
    as [c w1] eqn:E.
  cbn [snd]. apply connect_resume_result in E. rewrite Hkey in E.
  destruct E as [[u (_ & Hs & Hso & Ht & Hn & Hsu & _)]|[e [E _]]].
  - cbn [wsStore sockets timers nextTimer suspended with_sockets with_suspended] in Hs, Hso, Ht, Hn, Hsu. observe. rewrite map_app. cbn [map readyState].
    now apply heart_socket_added.
  - replace w1 with (exec (connectFailed options defaultWsKey e)
                          (with_suspended (remove_nth i) w))
      by (unfold exec; now rewrite E).
    apply Beating_failed; [exact H|exact Hroom].
Qed.

Lemma Beating_fired (tm : Timer) (w : World) :
  Beating w -> In tm (timers w) -> repeating tm = false ->
  Beating (with_timers (cancel (timerId tm)) w).
Proof.
  intros H Hin Hrep. unfold Beating.
  cbn [wsStore sockets timers nextTimer suspended with_timers].
  now apply heart_fired.
Qed.

Lemma step_Beating (a : Action) (w w' : World) :
  Wired w -> Beating w -> step signMessage options a w = Some w' -> Beating w'.
Proof.
  intros Hw Hb H.
  destruct a; cbn [step] in H;
    repeat match type of H with
           | context [match ?x with _ => _ end] => destruct x eqn:?
           end;
    try discriminate; injection H as <-;
    try (unfold set_ready; rewrite exec_modify_then);
    try match goal with
        | Hn : nth_error (sockets w) _ = Some ?sock |- _ =>
            rewrite (wired_handlers Hw sock (nth_error_In _ _ Hn))
        end.
  - now apply Beating_subscribe.
  - now apply Beating_unsubscribe.
  - now apply Beating_close.
  - apply find_timer_In in Heqo. destruct Heqo as [Hin Hid].
    rewrite fire_exec. pose proof (heart_kinds Hb t Hin) as Hkind.
    unfold isPing in Hkind. destruct (callback t) eqn:Hcb; rewrite Hkind.
    + now apply Beating_ping.
    + apply Beating_pongTimedOut. now apply Beating_fired.
    + unfold reconnectNow, log. rewrite exec_modify_then.
      pose proof (Beating_fired t w Hb Hin Hkind) as Hb'.
      apply Beating_connect; [exact Hb'|].
      cbn [wsStore sockets timers nextTimer suspended with_timers with_logged].
      apply (fired_reconnect_room _ _ _ _ _ _ _ Hb); [assumption|].
      unfold isReconnect. now rewrite Hcb.
  - apply Beating_resumed; [|assumption|assumption].
    apply (wired_suspended Hw). eapply nth_error_In; eauto.
  - eapply Beating_opened; eauto.
  - now apply Beating_onWsMessage.
  - now apply Beating_onWsMessage.
  - now apply Beating_onWsError.
  - now apply Beating_onWsError.
  - now apply Beating_onWsError.
  - eapply Beating_closed; eauto. now rewrite Heqr.
  - eapply Beating_closed; eauto. now rewrite Heqr.
  - eapply Beating_closed; eauto. now rewrite Heqr.
  - unfold exec, set_ready, modify. cbn [snd]. unfold Beating.
    cbn [wsStore sockets timers nextTimer suspended with_sockets].
    rewrite readyStates_ready.
    rewrite (set_nth_at (fun _ => CLOSING) closing_of sid (map readyState (sockets w)) OPEN).
    + now apply heart_socket_closing.
    + rewrite <- Heqr. now apply nth_error_readyState.
    + reflexivity.
Qed.

(** Every world a client can be in is wired and keeps the heartbeat
    discipline. *)
Lemma reachable_invariant (w : World) :
  reachable signMessage options w -> Wired w /\ Beating w.
Proof.
  induction 1 as [|a w w' _ [IHw IHb] Hstep].
  - split; [apply newClient_Wired|apply newClient_Beating].
  - split; [eapply step_Wired; eauto|eapply step_Beating; eauto].
Qed.

End Beats.

(* ===================================================================== *)
(** ** Timers and transports of a reachable world *)
(* ===================================================================== *)

Lemma find_timer_found (l : list Timer) (tm : Timer) :
  NoDup (map timerId l) -> In tm l -> find_timer (timerId tm) l = Some tm.
Proof.
  intros Hnd Hin. unfold find_timer.
  destruct (find (fun x => (timerId x =? timerId tm)%nat) l) as [x|] eqn:Hf.
  - apply find_some in Hf. destruct Hf as [Hx Hid]. apply Nat.eqb_eq in Hid.
    f_equal. now apply (same_id_same_timer l).
  - apply (find_none _ _ Hf) in Hin. now rewrite Nat.eqb_refl in Hin.
Qed.

Lemma no_live_socket_all_closed (socks : list Socket) :
  count liveR (map readyState socks) = 0 ->
  forall sock, In sock socks -> readyState sock = CLOSED.
Proof.
  intros Hc sock Hin.
  pose proof (count_none liveR _ Hc (readyState sock) (in_map readyState _ _ Hin)) as Hl.
  now destruct (readyState sock).
Qed.

Lemma timer_kinds (tm : Timer) :
  isPing tm = false -> isReconnect tm = false -> isPong tm = true.
Proof. unfold isPing, isReconnect, isPong. now destruct (callback tm). Qed.

Lemma wsOpen_all_closed (w : World) (k : string) :
  (forall sock, In sock (sockets w) -> readyState sock = CLOSED) -> wsOpen w k = false.
Proof.
  intros Hall. unfold wsOpen.
  destruct (WsStore.getWs (wsStore w) k) as [sid|]; [|reflexivity].
  destruct (nth_error (sockets w) sid) as [sock|] eqn:Hn; [|reflexivity].
  now rewrite (Hall sock (nth_error_In _ _ Hn)).
Qed.


(* ===================================================================== *)
(** ** Properties of the connection manager *)
(* ===================================================================== *)

Lemma append_empty (s : string) : (s ++ "")%string = s.
Proof. induction s as [|a s IH]; simpl; [reflexivity|now rewrite IH]. Qed.

(** The frames of a replay depend on the store through the keys, the
    socket handles and the topics only. *)
Lemma framesFor_ext (frameOf : list string -> json) (s s' : WsStore.t)
    (keys : list string) (sid : SocketId) :
  (forall k, WsStore.getWs s' k = WsStore.getWs s k) ->
  (forall k, WsStore.getTopics s' k = WsStore.getTopics s k) ->
  framesFor frameOf s' keys sid = framesFor frameOf s keys sid.
Proof.
  intros Hws Htop. unfold framesFor, boundTo.
  induction keys as [|k rest IH]; simpl; [reflexivity|].
  rewrite Hws. destruct (WsStore.getWs s k) as [x|]; [|exact IH].
  destruct (x =? sid)%nat; simpl; [|exact IH].
  now rewrite Htop, IH.
Qed.

(** With one key per record and only [k] bound to the transport, a replay
    writes exactly one frame on it: the frame of [k]. *)
Lemma framesFor_single (frameOf : list string -> json) (s : WsStore.t)
    (sid : SocketId) (k : string) :
  NoDup (WsStore.getKeys s) ->
  WsStore.getWs s k = Some sid ->
  (forall k', k' <> k -> WsStore.getWs s k' = None) ->
  framesFor frameOf s (WsStore.getKeys s) sid = [frameOf (WsStore.getTopics s k)].
Proof.
  intros Hnd Hws Hothers.
  assert (Hin : In k (WsStore.getKeys s)).
  { apply hasKey_In. unfold hasKey. unfold WsStore.getWs in Hws.
    destruct (WsStore.get s k); [reflexivity|discriminate]. }
  unfold framesFor. revert Hnd Hin.
  generalize (WsStore.getKeys s) as keys.
  induction keys as [|k0 rest IH]; intros Hnd Hin; [contradiction|].
  inversion Hnd as [|? ? Hnotin Hnd']; subst. simpl.
  destruct (String.eqb_spec k0 k) as [->|Hne].
  - unfold boundTo at 1. rewrite Hws, Nat.eqb_refl. simpl. f_equal.
    assert (Hnone : filter (boundTo s sid) rest = []).
    { clear IH Hin Hnd Hnd'. induction rest as [|k1 rest IH]; [reflexivity|]. simpl.
      unfold boundTo at 1. rewrite Hothers.
      - apply IH. intros H. apply Hnotin. now right.
      - intros ->. apply Hnotin. now left. }
    now rewrite Hnone.
  - unfold boundTo at 1. rewrite (Hothers k0 Hne).
    apply IH; [assumption|]. destruct Hin as [Hin|Hin]; [congruence|assumption].
Qed.

Section Properties.

Variable options : WebsocketClientOptions.

(** C4.  [connect(key)] under an active attempt is a no-op: when the key is
    Connecting, or its stored socket is open, the call opens no transport
    and leaves none to be opened later, stores no socket handle and leaves
    the state of every key as it was; it only logs the refusal. *)
Theorem connect_is_idempotent_under_active_attempt (k : string) (w : World) :
  WsStore.getConnectionState (wsStore w) k = READY_STATE_CONNECTING \/ wsOpen w k = true ->
  let w' := exec (connect options k) w in
  fst (connect options k w) = Normal tt
  /\ sockets w' = sockets w
  /\ suspended w' = suspended w
  /\ wsStore w' = wsStore w
  /\ timers w' = timers w
  /\ emitted w' = emitted w
  /\ exists refusal, logged w' = logged w ++ [mkLog Err refusal].
Proof.
  intros H. cbv zeta.
  assert (Href : refused w k = true).
  { unfold refused. destruct H as [H|H]; rewrite H; [|reflexivity].
    cbn. apply orb_true_r. }
  unfold exec. destruct (connect options k w) as [c w'] eqn:E. cbn [fst snd].
  pose proof (connect_result _ _ _ _ _ E) as (Hc & Hs & Hso & Ht & Hn & Hsu & He).
  rewrite Href in Hs, Hsu. repeat split; try assumption.
  revert E. unfold connect, try_catch, isWsOpen, isConnectionState,
    WsStore.isConnectionState, log. mrun.
  unfold refused in Href. destruct (wsOpen w k); cbn [orb] in Href.
  - unfold modify. intros E. inversion E. eexists. reflexivity.
  - mrun. rewrite Href. unfold modify. intros E. inversion E. eexists. reflexivity.
Qed.

(** What a well-formed frame without the pong echo does when it carries a
    [success] field, and what the echo does. *)
Lemma onWsMessageResponse_dispatch (response : json) (k : string) (w : World) :
  onWsMessageResponse response k w =
  if isWsPong response
  then (Normal tt,
        pongCleared k (with_logged (fun l => l ++ [mkLog Silly "Received pong"]) w))
  else (Normal tt, with_emitted (fun l => l ++ [EvResponse response]) w).
Proof.
  unfold onWsMessageResponse, log, emit.
  destruct (isWsPong response); [|reflexivity].
  rewrite run_modify. apply clearPongTimer_run.
Qed.

(** C8 (amended).  A frame that parses to an object with neither a
    [success] field nor a truthy [topic] field is logged as unhandled and
    dropped: the log grows by that one warning, nothing else changes and no
    event is emitted.  A frame that does not parse, or parses to a value
    that is not an object, makes the handler throw before it touches
    anything: no state change, no event.  A frame with a [success] field is
    answered as a response or as a heartbeat reply, never as an update,
    whatever its [topic] field. *)
Theorem onWsMessage_drops_and_prefers_success (k : string) (w : World) :
  (forall fields,
      assoc "success" fields = None ->
      truthy_opt (assoc "topic" fields) = false ->
      onWsMessage (Text (JObj fields)) k w =
      (Normal tt,
       with_logged (fun l => l ++ [mkLog Warning "Got unhandled ws message"]) w))
  /\ (forall data,
        data = Garbled \/ (exists value, data = Text value /\ has_in "success" value = None) ->
        exists e, onWsMessage data k w = (Thrown e, w))
  /\ (forall fields value,
        assoc "success" fields = Some value ->
        let w' := exec (onWsMessage (Text (JObj fields)) k) w in
        emitted w' =
          emitted w ++ (if isWsPong (JObj fields) then [] else [EvResponse (JObj fields)])
        /\ forall update, In (EvUpdate update) (emitted w') -> In (EvUpdate update) (emitted w)).
Proof.
  repeat split.
  - intros fields Hs Ht. unfold onWsMessage, JSON_parse. rewrite run_ret.
    cbn [has_in prop]. rewrite Hs, Ht. reflexivity.
  - intros data [->|[value [-> Hv]]].
    + exists syntaxError. reflexivity.
    + exists typeError. unfold onWsMessage, JSON_parse. rewrite run_ret.
      now rewrite Hv.
  - unfold exec, onWsMessage, JSON_parse. rewrite run_ret.
    cbn [has_in]. rewrite H. rewrite onWsMessageResponse_dispatch.
    destruct (isWsPong (JObj fields)); cbn; [now rewrite app_nil_r|reflexivity].
  - intros update. unfold exec, onWsMessage, JSON_parse. rewrite run_ret.
    cbn [has_in]. rewrite H. rewrite onWsMessageResponse_dispatch.
    destruct (isWsPong (JObj fields)); cbn; [auto|].
    intros Hin. apply in_app_or in Hin.
    destruct Hin as [Hin|[Hin|[]]]; [assumption|discriminate].
Qed.

(** C10.  The constructor first puts the default key in the Initial state
    and then calls [connect] for it: a fresh client is Connecting, with
    exactly one connection attempt under way, for the default key, and no
    transport yet.  None of the public methods starts a connection
    attempt: [subscribe], [unsubscribe] and [close] leave the suspended
    attempts and the number of transports as they are and arm no timer. *)
Theorem constructor_starts_the_only_connection :
  let w0 := exec (setWsState defaultWsKey READY_STATE_INITIAL) emptyWorld in
  WsStore.getConnectionState (wsStore w0) defaultWsKey = READY_STATE_INITIAL
  /\ newClient options = exec (connect options defaultWsKey) w0
  /\ WsStore.getConnectionState (wsStore (newClient options)) defaultWsKey
       = READY_STATE_CONNECTING
  /\ suspended (newClient options) = [mkSuspended defaultWsKey (authStage options)]
  /\ sockets (newClient options) = []
  /\ (forall w wsTopics,
        suspended (exec (subscribe options wsTopics) w) = suspended w
        /\ length (sockets (exec (subscribe options wsTopics) w)) = length (sockets w)
        /\ timers (exec (subscribe options wsTopics) w) = timers w)
  /\ (forall w wsTopics,
        suspended (exec (unsubscribe options wsTopics) w) = suspended w
        /\ length (sockets (exec (unsubscribe options wsTopics) w)) = length (sockets w)
        /\ timers (exec (unsubscribe options wsTopics) w) = timers w)
  /\ (forall w k,
        suspended (exec (close k) w) = suspended w
        /\ length (sockets (exec (close k) w)) = length (sockets w)
        /\ forall tm, In tm (timers (exec (close k) w)) -> In tm (timers w)).
Proof.
  cbv zeta. destruct (newClient_fields options) as (Hs & Hso & Ht & Hn & Hsu & He).
  repeat split; try assumption.
  - rewrite Hs. unfold WsStore.getConnectionState. cbn [WsStore.get].
    now rewrite String.eqb_refl.
  - with_result subscribe_result. tauto.
  - with_result subscribe_result. destruct E as (_ & _ & Hso' & _). rewrite Hso'.
    case_match; [apply length_replay|reflexivity].
  - with_result subscribe_result. tauto.
  - with_result unsubscribe_result. tauto.
  - with_result unsubscribe_result. destruct E as (_ & _ & Hso' & _). rewrite Hso'.
    case_match; [apply length_replay|reflexivity].
  - with_result unsubscribe_result. tauto.
  - with_result close_result. tauto.
  - with_result close_result. destruct E as (_ & _ & Hso' & _). rewrite Hso'.
    case_match; [apply length_set_nth|reflexivity].
  - intros tm. with_result close_result. destruct E as (_ & _ & _ & Ht' & _).
    rewrite Ht'. intros Hin. apply In_cancelled in Hin. destruct Hin as [Hin _].
    now apply In_cancelled in Hin.
Qed.

End Properties.

Section EventLoop.

Variable signMessage : string -> string -> string.
Variable options : WebsocketClientOptions.

(** C9.  With the key or the secret missing, [getAuthParams] returns the
    empty string and logs a warning; a [connect] call that passes its
    guards is left waiting with that empty string; and when it resumes it
    opens a transport on the bare endpoint URL and stores its handle,
    returning normally without entering its [catch] block, unless the
    transport constructor itself throws.  The time offset is never asked
    for. *)
Theorem missing_credentials_connect_unauthenticated
    (k : string) (w : World) (input : ResumeInput) :
  truthy_string (key options) = false \/ truthy_string (secret options) = false ->
  getAuthParams options w =
    (Normal (AuthParamsReady ""),
     with_logged
       (fun l => l ++
          [mkLog Warning "Connot authenticate websocket, either api or private keys missing."])
       w)
  /\ (refused w k = false ->
      suspended (exec (connect options k) w) =
        suspended w ++ [mkSuspended k (AuthParamsReady "")])
  /\ (constructorThrows input = None ->
      connect_resume signMessage options (mkSuspended k (AuthParamsReady "")) input w =
        (Normal tt,
         with_store (fun s => WsStore.setWs s k (length (sockets w)))
           (with_sockets (fun l => l ++ [mkSocket (getWsUrl options) CONNECTING k []]) w))).
Proof.
  intros Hmissing.
  assert (Hcreds : truthy_string (key options) && truthy_string (secret options) = false).
  { destruct Hmissing as [H|H]; rewrite H; [reflexivity|apply andb_false_r]. }
  assert (Hstage : authStage options = AuthParamsReady "").
  { unfold authStage. now rewrite Hcreds. }
  repeat split.
  - rewrite getAuthParams_run, Hstage, Hcreds. reflexivity.
  - intros Hpass. with_result connect_result.
    destruct E as (_ & _ & _ & _ & _ & Hsu & _).
    now rewrite Hsu, Hpass, Hstage.
  - intros Hctor. unfold connect_resume, connectToWsUrl, try_catch.
    cbn [stage suspendedKey]. rewrite run_ret, Hctor, append_empty.
    reflexivity.
Qed.

(** Every turn of the event loop other than a [subscribe] or [unsubscribe]
    call leaves the topics of every key as they are. *)
Lemma step_keeps_topics (a : Action) (w w' : World) (k : string) :
  step signMessage options a w = Some w' ->
  isSubscription a = false ->
  WsStore.getTopics (wsStore w') k = WsStore.getTopics (wsStore w) k.
Proof.
  intros H Hsub.
  assert (Hall : forall (m : M unit),
             preserves (fun w0 => WsStore.getTopics (wsStore w0) k =
                                  WsStore.getTopics (wsStore w) k) m ->
             WsStore.getTopics (wsStore (exec m w)) k = WsStore.getTopics (wsStore w) k).
  { intros m Hm. now apply Hm. }
  destruct a; cbn [step isSubscription] in *; try discriminate;
    repeat match type of H with
           | context [match ?x with _ => _ end] => destruct x eqn:?
           end;
    try discriminate; injection H as <-; apply Hall;
    unfold_client; unfold set_ready;
    repeat frame_step; frame_leaf; autorewrite with store; auto.
Qed.

(** C6.  Over any run of the event loop, a topic stored for a key stays
    stored unless the run holds an [unsubscribe] call that names it and
    resolves it to that key; and over a run with no [subscribe] and no
    [unsubscribe] call, whatever disconnects, reconnects, closes and
    heartbeat timeouts it goes through, the stored topics of every key are
    exactly what they were. *)
Theorem topics_survive_everything_but_unsubscribe
    (acts : list Action) (w w' : World) (k : string) :
  run signMessage options acts w = Some w' ->
  (forall topic,
      In topic (WsStore.getTopics (wsStore w) k) ->
      In topic (WsStore.getTopics (wsStore w') k)
      \/ exists wsTopics,
           In (CallUnsubscribe wsTopics) acts
           /\ In topic (toArray wsTopics)
           /\ getWsKeyForTopic options topic = k)
  /\ (forallb (fun a => negb (isSubscription a)) acts = true ->
      WsStore.getTopics (wsStore w') k = WsStore.getTopics (wsStore w) k).
Proof.
  revert w. induction acts as [|a rest IH]; intros w Hrun; cbn [run] in Hrun.
  - injection Hrun as <-. split; [now left|reflexivity].
  - destruct (step signMessage options a w) as [w1|] eqn:Hstep; [|discriminate].
    destruct (IH w1 Hrun) as [IHin IHeq]. split.
    + intros topic Hin.
      assert (Hfirst :
                In topic (WsStore.getTopics (wsStore w1) k)
                \/ exists wsTopics, a = CallUnsubscribe wsTopics
                                    /\ In topic (toArray wsTopics)
                                    /\ getWsKeyForTopic options topic = k).
      { destruct (isSubscription a) eqn:Hsub.
        - destruct a; try discriminate; cbn [step] in Hstep; injection Hstep as <-.
          + left. with_result subscribe_result. destruct E as (_ & -> & _).
            now apply addTopics_keeps.
          + with_result unsubscribe_result. destruct E as (_ & -> & _).
            destruct (deleteTopics_keeps options (toArray wsTopics) (wsStore w) k topic Hin)
              as [Hl|[Hr1 Hr2]]; [now left|].
            right. exists wsTopics. auto.
        - left. now rewrite (step_keeps_topics _ _ _ k Hstep Hsub). }
      destruct Hfirst as [Hin1|[wsTopics (-> & H1 & H2)]].
      * destruct (IHin topic Hin1) as [Hl|[wsTopics (H1 & H2 & H3)]]; [now left|].
        right. exists wsTopics. repeat split; try assumption. now right.
      * right. exists wsTopics. repeat split; try assumption. now left.
    + cbn [forallb]. intros Hnone. apply andb_true_iff in Hnone.
      destruct Hnone as [Ha Hrest]. rewrite (IHeq Hrest).
      apply (step_keeps_topics _ _ _ k Hstep). now destruct (isSubscription a).
Qed.

(** C3 (amended).  [subscribe] and [unsubscribe] always edit the store:
    after [subscribe] every topic of the call is stored under the key it
    resolves to, after [unsubscribe] none is, whatever the connection
    state.  The test the code then makes is on the default key: when the
    default key is Connected, every open transport receives one frame for
    each key of the store bound to it, listing that key's entire topic
    list as it is after the edit; otherwise nothing is written.  In a
    reachable world a key that is Connected is the default key and the only
    one bound to its socket, so for a topic whose key is Connected and
    whose socket is open, exactly one frame with that key's entire current
    topic list goes out on that socket. *)
Theorem subscribe_updates_store_and_sends_full_list (w : World) (wsTopics : WsTopics) :
  let w1 := exec (subscribe options wsTopics) w in
  let w2 := exec (unsubscribe options wsTopics) w in
  let connected :=
    state_eqb (WsStore.getConnectionState (wsStore w) defaultWsKey) READY_STATE_CONNECTED in
  (forall topic,
      In topic (toArray wsTopics) ->
      In topic (WsStore.getTopics (wsStore w1) (getWsKeyForTopic options topic))
      /\ ~ In topic (WsStore.getTopics (wsStore w2) (getWsKeyForTopic options topic)))
  /\ (forall sid,
        nth_error (sockets w1) sid =
        option_map
          (received (if connected
                     then framesFor subscribeFrame (wsStore w1) (WsStore.getKeys (wsStore w1)) sid
                     else []))
          (nth_error (sockets w) sid))
  /\ (forall sid,
        nth_error (sockets w2) sid =
        option_map
          (received (if connected
                     then framesFor unsubscribeFrame (wsStore w2) (WsStore.getKeys (wsStore w2)) sid
                     else []))
          (nth_error (sockets w) sid))
  /\ (reachable signMessage options w ->
      forall topic sid sock,
        In topic (toArray wsTopics) ->
        WsStore.getConnectionState (wsStore w) (getWsKeyForTopic options topic)
          = READY_STATE_CONNECTED ->
        WsStore.getWs (wsStore w) (getWsKeyForTopic options topic) = Some sid ->
        nth_error (sockets w) sid = Some sock ->
        readyState sock = OPEN ->
        nth_error (sockets w1) sid =
          Some (wrote [subscribeFrame
                         (WsStore.getTopics (wsStore w1) (getWsKeyForTopic options topic))]
                      sock)
        /\ nth_error (sockets w2) sid =
             Some (wrote [unsubscribeFrame
                            (WsStore.getTopics (wsStore w2) (getWsKeyForTopic options topic))]
                         sock)).
Proof.
  cbv zeta. unfold exec.
  destruct (subscribe options wsTopics w) as [c1 w1] eqn:E1.
  destruct (unsubscribe options wsTopics w) as [c2 w2] eqn:E2. cbn [snd].
  apply subscribe_result in E1. apply unsubscribe_result in E2.
  destruct E1 as (_ & Hs1 & Hso1 & _). destruct E2 as (_ & Hs2 & Hso2 & _).
  assert (Hnth1 : forall sid,
             nth_error (sockets w1) sid =
             option_map
               (received
                  (if state_eqb (WsStore.getConnectionState (wsStore w) defaultWsKey)
                                READY_STATE_CONNECTED
                   then framesFor subscribeFrame (wsStore w1) (WsStore.getKeys (wsStore w1)) sid
                   else []))
               (nth_error (sockets w) sid)).
  { intros sid. rewrite Hso1. case_match; [apply nth_error_replay|].
    destruct (nth_error (sockets w) sid); cbn; [now rewrite received_nil|reflexivity]. }
  assert (Hnth2 : forall sid,
             nth_error (sockets w2) sid =
             option_map
               (received
                  (if state_eqb (WsStore.getConnectionState (wsStore w) defaultWsKey)
                                READY_STATE_CONNECTED
                   then framesFor unsubscribeFrame (wsStore w2) (WsStore.getKeys (wsStore w2)) sid
                   else []))
               (nth_error (sockets w) sid)).
  { intros sid. rewrite Hso2. case_match; [apply nth_error_replay|].
    destruct (nth_error (sockets w) sid); cbn; [now rewrite received_nil|reflexivity]. }
  split; [|split; [exact Hnth1|split; [exact Hnth2|]]].
  - intros topic Hin. rewrite Hs1, Hs2. split.
    + now apply addTopics_adds.
    + now apply deleteTopics_removes.
  - intros Hreach topic sid sock Hin Hstate Hws Hsock Hopen.
    pose proof (reachable_Wired _ _ _ Hreach) as [Hk Hh Hsus Ho Hp Hwsv].
    assert (Hdef : getWsKeyForTopic options topic = defaultWsKey).
    { destruct (String.eqb_spec (getWsKeyForTopic options topic) defaultWsKey) as [|Hne];
        [assumption|]. destruct (Ho _ Hne) as (_ & Hnc & _). contradiction. }
    rewrite Hdef in *.
    assert (Hothers1 : forall k', k' <> defaultWsKey -> WsStore.getWs (wsStore w1) k' = None).
    { intros k' Hk'. rewrite Hs1. autorewrite with store. now apply Ho. }
    assert (Hothers2 : forall k', k' <> defaultWsKey -> WsStore.getWs (wsStore w2) k' = None).
    { intros k' Hk'. rewrite Hs2. autorewrite with store. now apply Ho. }
    rewrite Hnth1, Hnth2, Hsock, Hstate. cbn [state_eqb state_code Z.eqb Pos.eqb option_map].
    unfold received. rewrite Hopen. cbn [is_open]. split; do 2 f_equal.
    + apply framesFor_single; [| |assumption].
      * rewrite Hs1. now apply NoDup_addTopics.
      * rewrite Hs1. now autorewrite with store.
    + apply framesFor_single; [| |assumption].
      * rewrite Hs2. now apply NoDup_deleteTopics.
      * rewrite Hs2. now autorewrite with store.
Qed.


(** C7 (amended).  In a reachable world, for a key that is Connected the
    repeating ping interval whose handle is stored for the key is pending,
    and it is the only ping interval pending; and at most one pong timeout
    is pending per key, the one whose handle is stored for the key.  The
    two timers are not exclusive.  Each time the ping interval fires it
    stays pending and a pong timeout with the configured delay is armed
    next to it, its handle stored for the key.  A pending pong timeout
    stays pending through every turn of the client except: its own firing,
    the arrival of a pong reply, the next firing of the ping interval
    (which replaces it), a call of [close], the close event of a transport
    and a resumed [connect]. *)
Theorem heartbeat_timers_while_connected (w : World) :
  reachable signMessage options w ->
  (forall k,
      WsStore.getConnectionState (wsStore w) k = READY_STATE_CONNECTED ->
      exists tm,
        In tm (timers w)
        /\ callback tm = PingTick
        /\ repeating tm = true
        /\ pingHandle (wsStore w) k = Some (timerId tm)
        /\ forall tm', In tm' (timers w) -> callback tm' = PingTick -> tm' = tm)
  /\ (forall k tm,
        In tm (timers w) -> callback tm = PongTimeout k ->
        pongHandle (wsStore w) k = Some (timerId tm)
        /\ repeating tm = false
        /\ forall tm', In tm' (timers w) -> callback tm' = PongTimeout k -> tm' = tm)
  /\ (forall tm,
        In tm (timers w) -> callback tm = PingTick ->
        exists w1,
          step signMessage options (TimerFires (timerId tm)) w = Some w1
          /\ In tm (timers w1)
          /\ In (mkTimer (nextTimer w) (PongTimeout defaultWsKey) (pongTimeout options) false)
                (timers w1)
          /\ pongHandle (wsStore w1) defaultWsKey = Some (nextTimer w))
  /\ (forall k tm a w',
        In tm (timers w) -> callback tm = PongTimeout k ->
        step signMessage options a w = Some w' ->
        In tm (timers w')
        \/ a = TimerFires (timerId tm)
        \/ (exists sid data, a = TransportMessage sid data /\ isPongFrame data = true)
        \/ (exists tp, In tp (timers w) /\ callback tp = PingTick /\ a = TimerFires (timerId tp))
        \/ (exists wsKey, a = CallClose wsKey)
        \/ (exists sid, a = TransportCloses sid)
        \/ (exists i input, a = ConnectResumes i input)).
Proof.
  intros Hreach. destruct (reachable_invariant _ _ _ Hreach) as [Hw Hb].
  assert (HisPing : forall tm, callback tm = PingTick -> isPing tm = true).
  { intros tm Hcb. unfold isPing. now rewrite Hcb. }
  assert (HisPong : forall tm k, callback tm = PongTimeout k -> isPong tm = true).
  { intros tm k Hcb. unfold isPong. now rewrite Hcb. }
  split; [|split; [|split]].
  - intros k Hst.
    assert (Hk : k = defaultWsKey).
    { destruct (String.eqb_spec k defaultWsKey) as [|Hne]; [assumption|].
      destruct (wired_others Hw Hne) as (_ & Hnc & _). contradiction. }
    subst k. destruct (heart_connected Hb Hst) as [tm [Hin Hping]].
    exists tm. repeat split.
    + assumption.
    + unfold isPing in Hping. now destruct (callback tm).
    + now rewrite (heart_kinds Hb tm Hin).
    + now apply (heart_ping Hb).
    + intros tm' Hin' Hcb'. apply (same_id_same_timer (timers w)); try assumption.
      * apply (heart_ids Hb).
      * pose proof (heart_ping Hb tm' Hin' (HisPing _ Hcb')) as H1.
        pose proof (heart_ping Hb tm Hin Hping) as H2. congruence.
  - intros k tm Hin Hcb.
    pose proof (wired_pongs Hw tm Hin Hcb) as Hk. subst k.
    pose proof (heart_pong Hb tm Hin (HisPong _ _ Hcb)) as Hq.
    repeat split.
    + assumption.
    + rewrite (heart_kinds Hb tm Hin). unfold isPing. now rewrite Hcb.
    + intros tm' Hin' Hcb'. apply (same_id_same_timer (timers w)); try assumption.
      * apply (heart_ids Hb).
      * pose proof (heart_pong Hb tm' Hin' (HisPong _ _ Hcb')) as H1. congruence.
  - intros tm Hin Hcb.
    pose proof (heart_ping Hb tm Hin (HisPing _ Hcb)) as Hp.
    pose proof (heart_kinds Hb tm Hin) as Hrep. rewrite (HisPing _ Hcb) in Hrep.
    eexists. split.
    { cbn [step]. rewrite (find_timer_found _ _ (heart_ids Hb) Hin). reflexivity. }
    rewrite fire_exec, Hcb, Hrep.
    with_result ping_result. destruct E as (_ & Hs & _ & Ht & _).
    repeat split.
    + rewrite Ht. apply in_or_app. left. apply In_cancelled. split; [assumption|].
      now apply (heart_distinct Hb).
    + rewrite Ht. apply in_or_app. right. now left.
    + rewrite Hs. autorewrite with store. now rewrite String.eqb_refl.
  - intros k tm a w' Hin Hcb H.
    destruct a; cbn [step] in H;
      repeat match type of H with
             | context [match ?x with _ => _ end] => destruct x eqn:?
             end;
      try discriminate; injection H as <-;
      try (unfold set_ready; rewrite exec_modify_then).
    + left. with_result subscribe_result. destruct E as (_ & _ & _ & Ht & _).
      now rewrite Ht.
    + left. with_result unsubscribe_result. destruct E as (_ & _ & _ & Ht & _).
      now rewrite Ht.
    + do 4 right. left. eexists. reflexivity.
    + apply find_timer_In in Heqo. destruct Heqo as [Hfired Hid]. subst h.
      destruct (Nat.eq_dec (timerId t) (timerId tm)) as [Hsame|Hother];
        [right; left; now rewrite Hsame|].
      rewrite fire_exec. pose proof (heart_kinds Hb t Hfired) as Hkind.
      unfold isPing in Hkind. destruct (callback t) eqn:Hcbt; rewrite Hkind.
      * do 3 right. left. exists t. auto.
      * left. with_result pongTimedOut_result. destruct E as (_ & _ & _ & Ht & _).
        rewrite Ht. cbn [timers with_timers]. apply In_cancel. split; [assumption|congruence].
      * left. unfold reconnectNow, log. rewrite exec_modify_then.
        with_result connect_result. destruct E as (_ & _ & _ & Ht & _).
        rewrite Ht. cbn [timers with_timers with_logged].
        apply In_cancel. split; [assumption|congruence].
    + do 6 right. eexists. eexists. reflexivity.
    + left. with_result onWsOpen_result. destruct E as (_ & _ & _ & Ht & _).
      rewrite Ht. cbn [timers with_sockets]. apply in_or_app. now left.
    + destruct (isPongFrame data) eqn:Hpong.
      * do 2 right. left. eexists. eexists. split; [reflexivity|assumption].
      * left. with_result onWsMessage_result. destruct E as (_ & _ & Ht & _).
        rewrite Hpong in Ht. now rewrite Ht.
    + destruct (isPongFrame data) eqn:Hpong.
      * do 2 right. left. eexists. eexists. split; [reflexivity|assumption].
      * left. with_result onWsMessage_result. destruct E as (_ & _ & Ht & _).
        rewrite Hpong in Ht. now rewrite Ht.
    + left. with_result onWsError_result. destruct E as (_ & _ & _ & Ht & _).
      now rewrite Ht.
    + left. with_result onWsError_result. destruct E as (_ & _ & _ & Ht & _).
      now rewrite Ht.
    + left. with_result onWsError_result. destruct E as (_ & _ & _ & Ht & _).
      now rewrite Ht.
    + do 5 right. left. eexists. reflexivity.
    + do 5 right. left. eexists. reflexivity.
    + do 5 right. left. eexists. reflexivity.
    + left. reflexivity || assumption.
Qed.

End EventLoop.
(* ===================================================================== *)
(** ** The properties on sample runs *)
(* ===================================================================== *)

Lemma after_reachable (options : WebsocketClientOptions) (acts : list Action) (w : World) :
  after options acts = Some w -> reachable sampleSign options w.
Proof.
  unfold after.
  assert (H : forall w0, reachable sampleSign options w0 ->
                         run sampleSign options acts w0 = Some w ->
                         reachable sampleSign options w).
  { induction acts as [|a rest IH]; intros w0 Hr Hrun; cbn [run] in Hrun.
    - now injection Hrun as <-.
    - destruct (step sampleSign options a w0) as [w1|] eqn:Hstep; [|discriminate].
      apply (IH w1); [|assumption]. eapply reach_step; eauto. }
  apply H. constructor.
Qed.

Lemma connectedClient_reachable : reachable sampleSign inverseClient connectedClient.
Proof.
  apply (after_reachable inverseClient
           [ConnectResumes 0 plainResume; TransportOpens 0; CallSubscribe (OneTopic "trade")]).
  vm_compute. reflexivity.
Qed.

Lemma pingedClient_reachable : reachable sampleSign inverseClient pingedClient.
Proof.
  apply (after_reachable inverseClient
           [ConnectResumes 0 plainResume; TransportOpens 0; TimerFires 1]).
  vm_compute. reflexivity.
Qed.

Lemma timedOutClient_reachable : reachable sampleSign inverseClient timedOutClient.
Proof.
  apply (after_reachable inverseClient
           [ConnectResumes 0 plainResume; TransportOpens 0; TimerFires 1; TimerFires 2]).
  vm_compute. reflexivity.
Qed.

Lemma linearSubscribed_reachable : reachable sampleSign linearClient linearSubscribed.
Proof.
  apply (after_reachable linearClient
           [CallSubscribe (OneTopic "trade"); ConnectResumes 0 plainResume]).
  vm_compute. reflexivity.
Qed.

(** C1 at the failing input: a linear client stores the topic [trade]
    under the key [private], the key [getWsKeyForTopic] gives it, and that
    key never gets a socket: [connect] is only ever called for the default
    key.  When the transport of the default key opens, the handler goes
    through the keys to replay the stored topics of each, but the frame of
    [private] has no socket to go out on: the only frame written is the
    empty subscribe of the default key.  The topic [subscribe] left to the
    open event is never sent, and a [subscribe] after the open event
    fares no better. *)
Theorem open_sends_nothing_for_a_key_without_socket :
  reachable sampleSign linearClient linearSubscribed
  /\ getWsKeyForTopic linearClient "trade" = "private"
  /\ WsStore.getTopics (wsStore linearSubscribed) "private" = ["trade"]
  /\ WsStore.getWs (wsStore linearSubscribed) "private" = None
  /\ map wire (sockets linearSubscribed) = [[]]
  /\ exists w',
       step sampleSign linearClient (TransportOpens 0) linearSubscribed = Some w'
       /\ WsStore.getConnectionState (wsStore w') defaultWsKey = READY_STATE_CONNECTED
       /\ emitted w' = [EvOpen]
       /\ WsStore.getKeys (wsStore w') = ["inverse"; "private"]
       /\ WsStore.getTopics (wsStore w') "private" = ["trade"]
       /\ WsStore.getTopics (wsStore w') "inverse" = []
       /\ map wire (sockets w') = [[subscribeFrame []]]
       /\ map wire (sockets (exec (subscribe linearClient (OneTopic "trade")) w'))
          = [[subscribeFrame []; subscribeFrame []]].
Proof.
  split; [exact linearSubscribed_reachable|].
  do 4 (split; [vm_compute; reflexivity|]).
  eexists. split; [vm_compute; reflexivity|]. vm_compute. repeat split.
Qed.

(** C2 at the failing input: a frame with [success] and a bare [pong]
    marker is a heartbeat reply for the exported [isWsPong] of
    [requestUtils], but not for the file-local [isWsPong] the dispatch
    calls; delivered to a client that waits for a pong, it leaves the pong
    timeout pending and is forwarded as a [response] event. *)
Theorem bare_pong_marker_is_forwarded :
  RequestUtils.isWsPong barePong = true
  /\ isWsPong barePong = false
  /\ exists w',
       step sampleSign inverseClient (TransportMessage 0 (Text barePong)) pingedClient = Some w'
       /\ pongHandle (wsStore pingedClient) defaultWsKey = Some 2
       /\ In (mkTimer 2 (PongTimeout defaultWsKey) 1000 false) (timers pingedClient)
       /\ wsStore w' = wsStore pingedClient
       /\ timers w' = timers pingedClient
       /\ emitted w' = emitted pingedClient ++ [EvResponse barePong].
Proof.
  split; [vm_compute; reflexivity|]. split; [vm_compute; reflexivity|].
  eexists. split; [vm_compute; reflexivity|]. vm_compute. repeat split; auto.
Qed.

(** C3 as stated fails: the client of [timedOutClient] is Connected, its
    pong timeout has asked the transport to close and the close event has
    not come; [subscribe] stores the topic but nothing goes out on the
    key's socket. *)
Lemma subscribe_while_socket_closing_sends_nothing :
  reachable sampleSign inverseClient timedOutClient
  /\ WsStore.getConnectionState (wsStore timedOutClient) (getWsKeyForTopic inverseClient "trade")
    = READY_STATE_CONNECTED
  /\ WsStore.getWs (wsStore timedOutClient) (getWsKeyForTopic inverseClient "trade") = Some 0
  /\ map readyState (sockets timedOutClient) = [CLOSING]
  /\ WsStore.getTopics
       (wsStore (exec (subscribe inverseClient (OneTopic "trade")) timedOutClient))
       (getWsKeyForTopic inverseClient "trade") = ["trade"]
  /\ map wire (sockets (exec (subscribe inverseClient (OneTopic "trade")) timedOutClient))
     = map wire (sockets timedOutClient).
Proof. split; [exact timedOutClient_reachable|]. vm_compute. repeat split. Qed.

(** C3, on a connected client with one stored topic: a second [subscribe]
    sends both topics, an [unsubscribe] of a topic not stored sends the
    one that remains. *)
Lemma subscribe_sends_full_list_witness :
  nth_error (sockets (exec (subscribe inverseClient (OneTopic "kline")) connectedClient)) 0 =
    Some (wrote [subscribeFrame
                   (WsStore.getTopics
                      (wsStore (exec (subscribe inverseClient (OneTopic "kline")) connectedClient))
                      (getWsKeyForTopic inverseClient "kline"))]
                (mkSocket "wss://stream-testnet.bybit.com/realtime" OPEN "inverse"
                   [subscribeFrame []; subscribeFrame ["trade"]]))
  /\ nth_error (sockets (exec (unsubscribe inverseClient (OneTopic "kline")) connectedClient)) 0 =
       Some (wrote [unsubscribeFrame
                      (WsStore.getTopics
                         (wsStore (exec (unsubscribe inverseClient (OneTopic "kline")) connectedClient))
                         (getWsKeyForTopic inverseClient "kline"))]
                   (mkSocket "wss://stream-testnet.bybit.com/realtime" OPEN "inverse"
                      [subscribeFrame []; subscribeFrame ["trade"]])).
Proof.
  refine (proj2 (proj2 (proj2
            (subscribe_updates_store_and_sends_full_list sampleSign inverseClient
               connectedClient (OneTopic "kline"))))
          connectedClient_reachable "kline" 0 _ _ _ _ _ _).
  - left. vm_compute; reflexivity.
  - vm_compute; reflexivity.
  - vm_compute; reflexivity.
  - vm_compute; reflexivity.
  - vm_compute; reflexivity.
Defined.

(** C4, on a fresh client, which is Connecting. *)
Lemma connect_is_idempotent_witness :
  fst (connect inverseClient defaultWsKey (newClient inverseClient)) = Normal tt
  /\ sockets (exec (connect inverseClient defaultWsKey) (newClient inverseClient))
     = sockets (newClient inverseClient)
  /\ suspended (exec (connect inverseClient defaultWsKey) (newClient inverseClient))
     = suspended (newClient inverseClient)
  /\ wsStore (exec (connect inverseClient defaultWsKey) (newClient inverseClient))
     = wsStore (newClient inverseClient)
  /\ timers (exec (connect inverseClient defaultWsKey) (newClient inverseClient))
     = timers (newClient inverseClient)
  /\ emitted (exec (connect inverseClient defaultWsKey) (newClient inverseClient))
     = emitted (newClient inverseClient)
  /\ exists refusal,
       logged (exec (connect inverseClient defaultWsKey) (newClient inverseClient))
       = logged (newClient inverseClient) ++ [mkLog Err refusal].
Proof.
  apply (connect_is_idempotent_under_active_attempt inverseClient defaultWsKey
           (newClient inverseClient)).
  left. vm_compute; reflexivity.
Defined.

(** C6, over a disconnect and reconnect of a subscribed client. *)
Lemma topics_survive_witness :
  WsStore.getTopics (wsStore reconnectingClient) defaultWsKey
  = WsStore.getTopics (wsStore connectedClient) defaultWsKey.
Proof.
  refine (proj2 (topics_survive_everything_but_unsubscribe sampleSign inverseClient
                   [TransportCloses 0; TimerFires 2; ConnectResumes 0 plainResume]
                   connectedClient reconnectingClient defaultWsKey _) _).
  - vm_compute; reflexivity.
  - vm_compute; reflexivity.
Defined.

(** C8 as stated fails: a frame that does not parse is not logged as
    unhandled; the handler throws and the world, log included, is what it
    was. *)
Lemma malformed_frame_is_not_logged :
  onWsMessage Garbled defaultWsKey connectedClient = (Thrown syntaxError, connectedClient)
  /\ step sampleSign inverseClient (TransportMessage 0 Garbled) connectedClient
     = Some connectedClient
  /\ ~ In (mkLog Warning "Got unhandled ws message") (logged connectedClient).
Proof.
  split; [vm_compute; reflexivity|]. split; [vm_compute; reflexivity|].
  vm_compute. intros [H|[H|[]]]; discriminate.
Qed.

(** C8, on an object frame that has neither field. *)
Lemma onWsMessage_witness :
  onWsMessage (Text (JObj [("foo", JNum 1)])) defaultWsKey connectedClient =
    (Normal tt,
     with_logged (fun l => l ++ [mkLog Warning "Got unhandled ws message"]) connectedClient).
Proof.
  apply (proj1 (onWsMessage_drops_and_prefers_success defaultWsKey connectedClient));
    vm_compute; reflexivity.
Defined.

(** C9, on the default options, which carry no credentials. *)
Lemma missing_credentials_witness :
  getAuthParams inverseClient emptyWorld =
    (Normal (AuthParamsReady ""),
     with_logged
       (fun l => l ++
          [mkLog Warning "Connot authenticate websocket, either api or private keys missing."])
       emptyWorld)
  /\ suspended (exec (connect inverseClient defaultWsKey) emptyWorld) =
       suspended emptyWorld ++ [mkSuspended defaultWsKey (AuthParamsReady "")]
  /\ connect_resume sampleSign inverseClient (mkSuspended defaultWsKey (AuthParamsReady ""))
       plainResume emptyWorld =
       (Normal tt,
        with_store (fun s => WsStore.setWs s defaultWsKey (length (sockets emptyWorld)))
          (with_sockets
             (fun l => l ++ [mkSocket (getWsUrl inverseClient) CONNECTING defaultWsKey []])
             emptyWorld)).
Proof.
  pose proof (missing_credentials_connect_unauthenticated sampleSign inverseClient
                defaultWsKey emptyWorld plainResume (or_introl eq_refl)) as H.
  destruct H as (H1 & H2 & H3).
  split; [exact H1|]. split; [apply H2; vm_compute; reflexivity|apply H3; reflexivity].
Defined.

(** C10: [close] of a key the client never used, while the default key
    waits for a pong, arms no timer: what is pending afterwards was pending
    before. *)
Lemma constructor_witness :
  In (mkTimer 1 PingTick 10000 true) (timers pingedClient).
Proof.
  refine (proj2 (proj2
            (proj2 (proj2 (proj2 (proj2 (proj2 (proj2 (proj2
               (constructor_starts_the_only_connection inverseClient)))))))
               pingedClient "spare"))
          (mkTimer 1 PingTick 10000 true) _).
  vm_compute. left. reflexivity.
Defined.


(** C7 as stated fails: a connected client that has sent a ping and waits
    for the pong has both timers pending, the ping interval and the pong
    timeout. *)
Lemma ping_and_pong_pending_together :
  reachable sampleSign inverseClient pingedClient
  /\ WsStore.getConnectionState (wsStore pingedClient) defaultWsKey = READY_STATE_CONNECTED
  /\ pingHandle (wsStore pingedClient) defaultWsKey = Some 1
  /\ pongHandle (wsStore pingedClient) defaultWsKey = Some 2
  /\ timers pingedClient =
       [mkTimer 1 PingTick 10000 true; mkTimer 2 (PongTimeout defaultWsKey) 1000 false].
Proof. split; [exact pingedClient_reachable|]. vm_compute. repeat split. Qed.

(** C7, on the same client: the one ping interval is pending under its
    stored handle. *)
Lemma heartbeat_witness :
  exists tm,
    In tm (timers pingedClient)
    /\ callback tm = PingTick
    /\ repeating tm = true
    /\ pingHandle (wsStore pingedClient) defaultWsKey = Some (timerId tm)
    /\ forall tm', In tm' (timers pingedClient) -> callback tm' = PingTick -> tm' = tm.
Proof.
  apply (proj1 (heartbeat_timers_while_connected sampleSign inverseClient pingedClient
                  pingedClient_reachable) defaultWsKey).
  vm_compute. reflexivity.
Defined.

(* ===================================================================== *)
(** * Further properties of the code *)
(* ===================================================================== *)

(** ** src/util/requestUtils.ts: [serializeParams] *)

Section KeyOrder.

Import RequestUtils.

Lemma ascii_compare_refl (a : ascii) : Ascii.compare a a = Eq.
Proof. unfold Ascii.compare. apply N.compare_refl. Qed.

(** The order [sort()] compares keys with is transitive. *)
Lemma string_leb_trans (a b c : string) :
  (a <=? b)%string = true -> (b <=? c)%string = true -> (a <=? c)%string = true.
Proof.
  unfold String.leb. revert b c.
  induction a as [|x a IH]; intros [|y b] [|z c]; simpl; try easy.
  destruct (Ascii.compare x y) eqn:Exy; destruct (Ascii.compare y z) eqn:Eyz;
    try discriminate.
  - apply Ascii.compare_eq_iff in Exy, Eyz. subst. rewrite ascii_compare_refl. apply IH.
  - apply Ascii.compare_eq_iff in Exy. subst. now rewrite Eyz.
  - apply Ascii.compare_eq_iff in Eyz. subst. now rewrite Exy.
  - unfold Ascii.compare in *. rewrite N.compare_lt_iff in Exy, Eyz.
    assert (H : (N_of_ascii x ?= N_of_ascii z)%N = Lt) by (apply N.compare_lt_iff; lia).
    now rewrite H.
Qed.

Lemma string_leb_antisym (a b : string) :
  (a <=? b)%string = true -> (b <=? a)%string = true -> a = b.
Proof. intros H1 H2. now apply String.leb_antisym. Qed.

Lemma insert_sorted_perm (p : string * ParamValue) (l : list (string * ParamValue)) :
  Permutation (insert_sorted p l) (p :: l).
Proof.
  induction l as [|q rest IH]; simpl; [reflexivity|].
  destruct (fst p <=? fst q)%string; [reflexivity|].
  rewrite IH. apply perm_swap.
Qed.

Lemma sort_by_key_perm (l : list (string * ParamValue)) :
  Permutation (sort_by_key l) l.
Proof.
  induction l as [|p rest IH]; simpl; [reflexivity|].
  unfold sort_by_key in *. simpl. rewrite insert_sorted_perm. now constructor.
Qed.

Lemma insert_sorted_sorted (p : string * ParamValue) (l : list (string * ParamValue)) :
  StronglySorted keyLe l -> StronglySorted keyLe (insert_sorted p l).
Proof.
  induction l as [|q rest IH]; simpl; intros Hs.
  - constructor; constructor.
  - destruct (fst p <=? fst q)%string eqn:Hle.
    + constructor; [assumption|]. constructor; [exact Hle|].
      inversion Hs as [|? ? _ Hall]; subst.
      eapply Forall_impl; [|exact Hall]. intros r Hr. unfold keyLe in *.
      now apply (string_leb_trans _ (fst q)).
    + inversion Hs as [|? ? Hrest Hall]; subst.
      constructor; [now apply IH|].
      assert (Hqp : keyLe q p).
      { unfold keyLe. destruct (String.leb_total (fst p) (fst q)) as [H|H]; congruence. }
      eapply Permutation_Forall; [symmetry; apply insert_sorted_perm|].
      now constructor.
Qed.

Lemma sort_by_key_sorted (l : list (string * ParamValue)) :
  StronglySorted keyLe (sort_by_key l).
Proof.
  induction l as [|p rest IH]; [constructor|].
  unfold sort_by_key in *. simpl. now apply insert_sorted_sorted.
Qed.

(** Two sorted lists of the same parameters, no key twice, are the same
    list. *)
Lemma sorted_perm_unique (l1 l2 : list (string * ParamValue)) :
  NoDup (map fst l1) -> Permutation l1 l2 ->
  StronglySorted keyLe l1 -> StronglySorted keyLe l2 -> l1 = l2.
Proof.
  revert l2. induction l1 as [|a l1 IH]; intros l2 Hnd Hperm Hs1 Hs2.
  - apply Permutation_nil in Hperm. now subst.
  - destruct l2 as [|b l2]; [apply Permutation_sym, Permutation_nil in Hperm; discriminate|].
    inversion Hs1 as [|? ? Hs1' Hall1]; subst.
    inversion Hs2 as [|? ? Hs2' Hall2]; subst.
    assert (Hab : a = b).
    { assert (Hina : In a (b :: l2)) by (eapply Permutation_in; [exact Hperm|now left]).
      assert (Hinb : In b (a :: l1))
        by (eapply Permutation_in; [symmetry; exact Hperm|now left]).
      destruct Hina as [|Hina]; [congruence|].
      destruct Hinb as [|Hinb]; [congruence|].
      rewrite Forall_forall in Hall1, Hall2.
      pose proof (string_leb_antisym _ _ (Hall1 _ Hinb) (Hall2 _ Hina)) as Hkey.
      inversion Hnd as [|? ? Hnotin _]; subst. exfalso. apply Hnotin.
      rewrite Hkey. now apply in_map. }
    subst b. f_equal. apply IH; try assumption.
    + now inversion Hnd.
    + now apply Permutation_cons_inv in Hperm.
Qed.

Lemma sort_by_key_unique (l1 l2 : list (string * ParamValue)) :
  NoDup (map fst l1) -> Permutation l1 l2 -> sort_by_key l1 = sort_by_key l2.
Proof.
  intros Hnd Hperm. apply sorted_perm_unique.
  - eapply Permutation_NoDup; [|exact Hnd].
    apply Permutation_map. symmetry. apply sort_by_key_perm.
  - rewrite sort_by_key_perm, Hperm. symmetry. apply sort_by_key_perm.
  - apply sort_by_key_sorted.
  - apply sort_by_key_sorted.
Qed.

Lemma undefined_after_sort (l : list (string * ParamValue)) :
  existsb (fun p => is_undefined (snd p)) (sort_by_key l) = true <->
  exists k, In (k, PUndefined) l.
Proof.
  rewrite existsb_exists. split.
  - intros [[k v] [Hin Hu]]. exists k. destruct v; try discriminate.
    eapply Permutation_in; [apply sort_by_key_perm|exact Hin].
  - intros [k Hin]. exists (k, PUndefined). split; [|reflexivity].
    eapply Permutation_in; [symmetry; apply sort_by_key_perm|exact Hin].
Qed.

(** X1.  [serializeParams] does not depend on the order the properties of
    [params] were written in: two objects holding the same properties (an
    object holds a key once) serialise to the same string, or fail alike. *)
Theorem serializeParams_ignores_property_order
    (params1 params2 : list (string * ParamValue)) (strict_validation : bool) :
  NoDup (map fst params1) ->
  Permutation params1 params2 ->
  serializeParams params1 strict_validation = serializeParams params2 strict_validation.
Proof.
  intros Hnd Hperm. unfold serializeParams. cbv zeta.
  now rewrite (sort_by_key_unique _ _ Hnd Hperm).
Qed.

(** X2.  With [strict_validation] the call throws exactly when some
    parameter is undefined, and otherwise gives what the lenient call
    gives; the lenient call never throws. *)
Theorem serializeParams_strict_rejects_undefined (params : list (string * ParamValue)) :
  (serializeParams params true =
     inr (mkError (Some "Failed to sign API request due to undefined parameter") None)
   <-> exists k, In (k, PUndefined) params)
  /\ ((forall k, ~ In (k, PUndefined) params) ->
      serializeParams params true = serializeParams params false)
  /\ exists query, serializeParams params false = inl query.
Proof.
  unfold serializeParams. cbv zeta. cbn [andb].
  destruct (existsb (fun p => is_undefined (snd p)) (sort_by_key params)) eqn:Hu.
  - apply undefined_after_sort in Hu. repeat split.
    + intros _. exact Hu.
    + intros Hnone. destruct Hu as [k Hin]. now destruct (Hnone k).
    + eexists. reflexivity.
  - repeat split.
    + discriminate.
    + intros Hin. apply undefined_after_sort in Hin. congruence.
    + eexists. reflexivity.
Qed.

(** X3.  For an object with ASCII keys whose numbers are safe integers,
    the string is the list of [key=value] pairs joined by [&], every
    parameter once, keys ascending; a number is written with its decimal
    digits and an undefined value is written [undefined]. *)
Theorem serializeParams_lists_every_param_by_key
    (params : list (string * ParamValue)) (query : string) :
  NoDup (map fst params) ->
  (forall k v, In (k, v) params -> isAscii k = true) ->
  (forall k n, In (k, PNumber n) params -> safeInteger n = true) ->
  serializeParams params false = inl query ->
  exists sorted,
    Permutation sorted params
    /\ StronglySorted keyLe sorted
    /\ query = join "&" (map (fun p => (fst p ++ "=" ++
                                match snd p with
                                | PUndefined => "undefined"
                                | PString s => s
                                | PNumber n => NilZero.string_of_int (Z.to_int n)
                                end)%string) sorted).
Proof.
  intros _ _ _. unfold serializeParams. cbv zeta. cbn [andb]. intros H. inversion H as [Hq].
  exists (sort_by_key params). split; [apply sort_by_key_perm|].
  split; [apply sort_by_key_sorted|]. reflexivity.
Qed.

End KeyOrder.

(** ** src/util/requestUtils.ts: [getRestBaseUrl], [isPublicEndpoint] *)

Section RestHelpers.

Import RequestUtils.

(** X4.  [getRestBaseUrl] never gives an empty URL: a [baseUrl] option that
    is a non-empty string wins whatever [useLivenet] says; a missing or
    empty one falls back to the livenet or the testnet URL. *)
Theorem getRestBaseUrl_override_or_default
    (useLivenet : bool) (restInverseOptions : RestClientOptions) :
  getRestBaseUrl useLivenet restInverseOptions <> ""
  /\ (forall u, baseUrl restInverseOptions = Some u -> u <> "" ->
        getRestBaseUrl useLivenet restInverseOptions = u)
  /\ (baseUrl restInverseOptions = None \/ baseUrl restInverseOptions = Some "" ->
        getRestBaseUrl useLivenet restInverseOptions =
          if useLivenet then "https://api.bybit.com" else "https://api-testnet.bybit.com").
Proof.
  unfold getRestBaseUrl, truthy_string, render.
  destruct (baseUrl restInverseOptions) as [u|] eqn:Hu.
  - destruct (String.eqb_spec u "") as [->|Hne]; cbn [negb].
    + repeat split.
      * now destruct useLivenet.
      * intros u' Hu' Hne'. congruence.
      * intros _. now destruct useLivenet.
    + repeat split.
      * assumption.
      * intros u' Hu' _. congruence.
      * intros [H|H]; congruence.
  - repeat split.
    + now destruct useLivenet.
    + discriminate.
    + intros _. now destruct useLivenet.
Qed.

Lemma prefix_append (p s rest : string) :
  String.prefix p s = true -> String.prefix p (s ++ rest) = true.
Proof.
  revert s. induction p as [|c p IH]; intros [|d s]; simpl; try easy.
  - intros _. now destruct rest.
  - destruct (Ascii.ascii_dec c d); [apply IH|discriminate].
Qed.

(** X5.  [isPublicEndpoint] looks at the start of the endpoint only: what
    follows a public endpoint is public too; and a path written with its
    leading slash, like the empty path, is never public. *)
Theorem isPublicEndpoint_reads_the_prefix (endpoint rest : string) :
  (isPublicEndpoint endpoint = true -> isPublicEndpoint (endpoint ++ rest) = true)
  /\ isPublicEndpoint (String "/" rest) = false
  /\ isPublicEndpoint "" = false.
Proof.
  split; [|split; reflexivity].
  unfold isPublicEndpoint. rewrite !existsb_exists.
  intros [p [Hin Hp]]. exists p. split; [assumption|]. now apply prefix_append.
Qed.

End RestHelpers.

(** ** src/websocket-client.ts: the helpers of the handlers *)

Section ClientHelpers.

Variable options : WebsocketClientOptions.

(** X6.  [tryWsSend] never throws.  A key without a socket drops the frame
    silently; an open socket gets the frame written; on a socket that is
    still connecting [send] throws, the exception is caught, and all that
    is left of the frame is an error in the log; on a socket that is
    closing or closed the frame is lost without a trace. *)
Theorem tryWsSend_sends_or_logs (k : string) (frame : json) (w : World) :
  tryWsSend k frame w =
  (Normal tt,
   match WsStore.getWs (wsStore w) k with
   | None => w
   | Some sid =>
       match nth_error (sockets w) sid with
       | None => w
       | Some sock =>
           match readyState sock with
           | OPEN => with_sockets (set_nth sid (wrote [frame])) w
           | CONNECTING =>
               with_logged (fun l => l ++ [mkLog Err "Failed to send WS message"]) w
           | CLOSING => w
           | CLOSED => w
           end
       end
   end).
Proof.
  unfold tryWsSend, getWs, try_catch, bind, gets, socket_send, log, modify, ret.
  destruct (WsStore.getWs (wsStore w) k) as [sid|]; [|reflexivity].
  destruct (nth_error (sockets w) sid) as [sock|]; [|reflexivity].
  destruct (readyState sock); reflexivity.
Qed.

Lemma pingCleared_none (k : string) (w : World) :
  pingHandle (wsStore w) k = None -> pingCleared k w = w.
Proof.
  intros H. destruct w. unfold pingCleared, pingDropped, with_store, with_timers.
  cbn in *. now rewrite H.
Qed.

Lemma pongCleared_none (k : string) (w : World) :
  pongHandle (wsStore w) k = None -> pongCleared k w = w.
Proof.
  intros H. destruct w. unfold pongCleared, pongDropped, with_store, with_timers.
  cbn in *. now rewrite H.
Qed.

Lemma In_both_cancelled (p q : option TimerId) (l : list Timer) (tm : Timer) :
  In tm (cancelled q (cancelled p l)) <->
  In tm l /\ p <> Some (timerId tm) /\ q <> Some (timerId tm).
Proof. rewrite !In_cancelled. tauto. Qed.

(** X7.  [clearTimers(wsKey)] never throws and forgets both handles of the
    key; the timers it cancels are those the two handles named, every other
    pending timer stays; and clearing twice is clearing once. *)
Theorem clearTimers_cancels_the_named_timers (k : string) (w : World) :
  let w' := exec (clearTimers k) w in
  clearTimers k w = (Normal tt, w')
  /\ pingHandle (wsStore w') k = None
  /\ pongHandle (wsStore w') k = None
  /\ (forall tm, In tm (timers w') <->
                 In tm (timers w)
                 /\ pingHandle (wsStore w) k <> Some (timerId tm)
                 /\ pongHandle (wsStore w) k <> Some (timerId tm))
  /\ exec (clearTimers k) w' = w'.
Proof.
  cbv zeta. unfold exec. rewrite (clearTimers_run k w). cbn [snd].
  assert (Hp : pingHandle (wsStore (pongCleared k (pingCleared k w))) k = None).
  { fields. autorewrite with store. now rewrite String.eqb_refl. }
  assert (Hq : pongHandle (wsStore (pongCleared k (pingCleared k w))) k = None).
  { fields. autorewrite with store. now rewrite String.eqb_refl. }
  refine (conj eq_refl (conj Hp (conj Hq (conj _ _)))).
  - intros tm. fields. autorewrite with store. apply In_both_cancelled.
  - rewrite clearTimers_run. cbn [snd].
    rewrite (pingCleared_none _ _ Hp). now apply pongCleared_none.
Qed.

(** X8.  [close(wsKey)] never throws.  It marks the key Closing, forgets
    both heartbeat handles and cancels the timers they named, and asks the
    key's transport, if it has one, to close.  It emits nothing, removes no
    subscription, and leaves every other timer pending. *)
Theorem close_stops_the_heartbeat_and_the_socket (k : string) (w : World) :
  let w' := exec (close k) w in
  close k w = (Normal tt, w')
  /\ WsStore.getConnectionState (wsStore w') k = READY_STATE_CLOSING
  /\ pingHandle (wsStore w') k = None
  /\ pongHandle (wsStore w') k = None
  /\ (forall tm, In tm (timers w') <->
                 In tm (timers w)
                 /\ pingHandle (wsStore w) k <> Some (timerId tm)
                 /\ pongHandle (wsStore w) k <> Some (timerId tm))
  /\ sockets w' =
       match WsStore.getWs (wsStore w) k with
       | Some sid =>
           set_nth sid
             (fun s => mkSocket (url s) (closing_of (readyState s)) (handlerKey s) (wire s))
             (sockets w)
       | None => sockets w
       end
  /\ (forall k', WsStore.getTopics (wsStore w') k' = WsStore.getTopics (wsStore w) k')
  /\ emitted w' = emitted w
  /\ suspended w' = suspended w.
Proof.
  cbv zeta. unfold exec. destruct (close k w) as [c w'] eqn:E. cbn [snd].
  apply close_result in E. destruct E as (Hc & Hs & Hso & Ht & _ & Hsu & He).
  subst c. rewrite Hs, Hso, Ht, Hsu, He.
  refine (conj eq_refl _). autorewrite with store. rewrite !String.eqb_refl.
  do 3 (split; [reflexivity|]).
  split; [intros tm; apply In_both_cancelled|].
  split; [reflexivity|].
  split; [intros k'; now autorewrite with store|].
  split; reflexivity.
Qed.

(** X9.  A transport error changes neither the store, nor a timer, nor a
    transport: it is logged, once, as an error, and [emit] is called with
    it as an [error] event only while the key is Connected.  The handler
    returns, unless the key is Connected and the application does not
    listen for [error]: then what [emit] throws leaves the handler.  No
    reconnect is started by the error itself. *)
Theorem onWsError_reports_only_while_connected
    (unheard : option Error) (err : Error) (k : string) (w : World) :
  exists text,
    onWsError unheard err k w =
    (if state_eqb (WsStore.getConnectionState (wsStore w) k) READY_STATE_CONNECTED
     then match unheard with
          | None => Normal tt
          | Some thrown => Thrown thrown
          end
     else Normal tt,
     if state_eqb (WsStore.getConnectionState (wsStore w) k) READY_STATE_CONNECTED
     then with_emitted (fun l => l ++ [EvError err])
            (with_logged (fun l => l ++ [mkLog Err text]) w)
     else with_logged (fun l => l ++ [mkLog Err text]) w).
Proof.
  unfold onWsError, parseWsError, isConnectionState, emitError, emit, log.
  destruct (negb (truthy_string (message err)));
    [|destruct (render (message err) =? "Unexpected server response: 401")%string];
    eexists; unfold bind, modify, gets, ret, throw, WsStore.isConnectionState; cbn;
    destruct (state_eqb (WsStore.getConnectionState (wsStore w) k) READY_STATE_CONNECTED);
    try destruct unheard; reflexivity.
Qed.

Lemma not_extended {A : Type} (l : list A) (x : A) : l <> l ++ [x].
Proof.
  intros H. apply (f_equal (@length A)) in H. rewrite length_app in H. cbn in H. lia.
Qed.

(** X10.  An [update] event comes from a topic frame and from nothing else:
    [onWsMessage] hands a message to the application as an [update] exactly
    when the frame parses to a value without a [success] property and with
    a truthy [topic], and the event then carries the parsed message as it
    is. *)
Theorem update_events_come_from_topic_frames
    (data : RawFrame) (k : string) (w : World) (u : json) :
  emitted (exec (onWsMessage data k) w) = emitted w ++ [EvUpdate u]
  <-> data = Text u
      /\ has_in "success" u = Some false
      /\ truthy_opt (prop u "topic") = true.
Proof.
  unfold exec, onWsMessage, JSON_parse, onWsMessageResponse, onWsMessageUpdate, emit, log.
  split.
  - destruct data as [v|]; unfold bind, ret, throw, modify; cbn [snd].
    + destruct (has_in "success" v) as [[|]|] eqn:Hs; cbn [snd].
      * destruct (isWsPong v).
        -- rewrite clearPongTimer_run. cbn [snd]. fields. intros H.
           now apply not_extended in H.
        -- cbn [emitted with_emitted]. intros H. apply app_inv_head in H. discriminate.
      * destruct (truthy_opt (prop v "topic")) eqn:Ht.
        -- cbn [emitted with_emitted]. intros H. apply app_inv_head in H.
           injection H as <-. auto.
        -- cbn [emitted with_logged]. intros H. now apply not_extended in H.
      * intros H. now apply not_extended in H.
    + intros H. now apply not_extended in H.
  - intros (-> & Hs & Ht). unfold bind, ret, modify. now rewrite Hs, Ht.
Qed.

(** X11.  [getWsUrl] never gives an empty URL: a [wsUrl] option that is a
    non-empty string wins; a missing or empty one falls back to the
    endpoint of the market and the network, four distinct URLs. *)
Theorem getWsUrl_override_or_endpoint :
  getWsUrl options <> ""
  /\ (forall u, wsUrl options = Some u -> u <> "" -> getWsUrl options = u)
  /\ (wsUrl options = None \/ wsUrl options = Some "" ->
      getWsUrl options =
        match linear options, livenet options with
        | false, false => "wss://stream-testnet.bybit.com/realtime"
        | false, true => "wss://stream.bybit.com/realtime"
        | true, false => "wss://stream-testnet.bybit.com/realtime_public"
        | true, true => "wss://stream.bybit.com/realtime_public"
        end).
Proof.
  unfold getWsUrl, truthy_string, render.
  destruct (wsUrl options) as [u|] eqn:Hu.
  - destruct (String.eqb_spec u "") as [->|Hne]; cbn [negb].
    + repeat split.
      * now destruct (linear options), (livenet options).
      * intros u' Hu' Hne'. congruence.
      * intros _. now destruct (linear options), (livenet options).
    + repeat split.
      * assumption.
      * intros u' Hu' _. congruence.
      * intros [H|H]; congruence.
  - repeat split.
    + now destruct (linear options), (livenet options).
    + discriminate.
    + intros _. now destruct (linear options), (livenet options).
Qed.

End ClientHelpers.

(** ** src/websocket-client.ts: the event loop *)

Section EventLoopFacts.

Variable signMessage : string -> string -> string.
Variable options : WebsocketClientOptions.

Lemma closed_after_closing (sid : SocketId) (socks : list Socket) :
  (forall sock, In sock socks -> readyState sock = CLOSED) ->
  forall sock,
    In sock (set_nth sid
               (fun s => mkSocket (url s) (closing_of (readyState s)) (handlerKey s) (wire s))
               socks) ->
    readyState sock = CLOSED.
Proof.
  intros Hall sock Hin. apply In_set_nth in Hin.
  destruct Hin as [Hin|[x [Hx ->]]]; [now apply Hall|].
  cbn [readyState]. now rewrite (Hall x Hx).
Qed.

Lemma closed_after_replay frameOf s keys (socks : list Socket) :
  (forall sock, In sock socks -> readyState sock = CLOSED) ->
  forall sock, In sock (replay frameOf s keys socks) -> readyState sock = CLOSED.
Proof.
  intros Hall sock Hin. apply In_replay in Hin.
  destruct Hin as [sock0 [Hin0 [_ Hr]]]. rewrite Hr. now apply Hall.
Qed.

Lemma step_Idle (a : Action) (w w' : World) :
  Idle w -> step signMessage options a w = Some w' ->
  Idle w' /\ emitted w' = emitted w /\ length (sockets w') = length (sockets w).
Proof.
  intros (Hsu & Hso & Ht) H. unfold Idle.
  destruct a; cbn [step] in H;
    try (destruct (nth_error (sockets w) sid) as [sock|] eqn:Hn; [|discriminate];
         rewrite (Hso sock (nth_error_In _ _ Hn)) in H; discriminate).
  - injection H as <-. with_result subscribe_result.
    destruct E as (_ & _ & Hso' & Ht' & _ & Hsu' & He').
    rewrite Hsu', Ht', He', Hso'.
    destruct (state_eqb _ _); rewrite ?length_replay; repeat split; auto.
    now apply closed_after_replay.
  - injection H as <-. with_result unsubscribe_result.
    destruct E as (_ & _ & Hso' & Ht' & _ & Hsu' & He').
    rewrite Hsu', Ht', He', Hso'.
    destruct (state_eqb _ _); rewrite ?length_replay; repeat split; auto.
    now apply closed_after_replay.
  - injection H as <-. with_result close_result.
    destruct E as (_ & _ & Hso' & Ht' & _ & Hsu' & He').
    rewrite Hsu', Ht', He', Hso'.
    destruct (WsStore.getWs _ _); rewrite ?length_set_nth; repeat split; auto.
    + now apply closed_after_closing.
    + intros tm Hin. apply In_both_cancelled in Hin. now apply Ht.
    + intros tm Hin. apply In_both_cancelled in Hin. now apply Ht.
  - destruct (find_timer h (timers w)) as [tm|] eqn:Hf; [|discriminate].
    injection H as <-. apply find_timer_In in Hf. destruct Hf as [Hin _].
    pose proof (Ht tm Hin) as Hpong. rewrite fire_exec.
    unfold isPong in Hpong. destruct (callback tm) as [|k|]; try discriminate.
    with_result pongTimedOut_result.
    destruct E as (_ & _ & Hso' & Ht' & _ & Hsu' & He').
    rewrite Hsu', Ht', He', Hso'.
    assert (Hsub : forall x,
               In x (timers (if repeating tm then w
                             else with_timers (cancel (timerId tm)) w)) ->
               In x (timers w)).
    { intros x Hx. destruct (repeating tm); [assumption|].
      cbn [timers with_timers] in Hx. now apply In_cancel in Hx. }
    destruct (repeating tm);
      cbn [wsStore sockets timers suspended emitted with_timers] in *;
      destruct (WsStore.getWs _ _); rewrite ?length_set_nth; repeat split; auto;
      now apply closed_after_closing.
  - rewrite Hsu in H. destruct i; discriminate.
Qed.

(** X12.  A client with no connection attempt left stays so: once no
    [connect] call is suspended, every transport has closed and no ping
    interval or reconnect timeout is pending, nothing the application or
    the event loop can do creates a transport, schedules a reconnect or
    emits an event.  [subscribe], [unsubscribe] and [close] never
    reconnect. *)
Theorem an_idle_client_never_connects_again (acts : list Action) (w w' : World) :
  Idle w ->
  run signMessage options acts w = Some w' ->
  Idle w' /\ emitted w' = emitted w /\ length (sockets w') = length (sockets w).
Proof.
  revert w. induction acts as [|a rest IH]; intros w Hidle Hrun; cbn [run] in Hrun.
  - injection Hrun as <-. auto.
  - destruct (step signMessage options a w) as [w1|] eqn:Hstep; [|discriminate].
    destruct (step_Idle _ _ _ Hidle Hstep) as (Hidle1 & He1 & Hl1).
    destruct (IH _ Hidle1 Hrun) as (Hidle' & He' & Hl').
    repeat split; try apply Hidle'; congruence.
Qed.

(** X13.  A first connection attempt that fails is never made again.  The
    failure schedules a reconnect but leaves the key Connecting, and when
    the timer fires [connect] finds the key Connecting and refuses: the
    store, the transports and the events are as they were, and the client
    is left with no connection attempt at all. *)
Theorem a_failed_first_attempt_is_not_retried (w : World) (tm : Timer) :
  reachable signMessage options w ->
  WsStore.getConnectionState (wsStore w) defaultWsKey = READY_STATE_CONNECTING ->
  In tm (timers w) ->
  callback tm = Reconnect ->
  exists w',
    step signMessage options (TimerFires (timerId tm)) w = Some w'
    /\ Idle w'
    /\ wsStore w' = wsStore w
    /\ sockets w' = sockets w
    /\ emitted w' = emitted w.
Proof.
  intros Hreach Hst Hin Hcb.
  destruct (reachable_invariant _ _ _ Hreach) as [Hw Hb].
  assert (Hrec : isReconnect tm = true) by (unfold isReconnect; now rewrite Hcb).
  assert (Hnp : isPing tm = false) by (unfold isPing; now rewrite Hcb).
  pose proof (heart_kinds Hb tm Hin) as Hrep. rewrite Hnp in Hrep.
  pose proof (heart_tokens Hb) as Htok.
  pose proof (count_pos isReconnect _ tm Hin Hrec) as Hone.
  pose proof (count_cancel_lt isReconnect _ tm Hin Hrec) as Hless.
  assert (Hsu : suspended w = []) by (destruct (suspended w); [reflexivity|cbn in Htok; lia]).
  assert (Hlive : count liveR (map readyState (sockets w)) = 0) by lia.
  eexists. split.
  { cbn [step]. rewrite (find_timer_found _ _ (heart_ids Hb) Hin). reflexivity. }
  rewrite fire_exec, Hcb, Hrep. unfold reconnectNow, log. rewrite exec_modify_then.
  with_result connect_result.
  destruct E as (_ & Hs' & Hso' & Ht' & _ & Hsu' & He').
  unfold refused in Hs', Hsu'.
  cbn [wsStore sockets timers suspended emitted with_timers with_logged] in *.
  rewrite Hst in Hs', Hsu'. cbn [state_eqb state_code Z.eqb Pos.eqb] in Hs', Hsu'.
  rewrite orb_true_r in Hs', Hsu'.
  unfold Idle. rewrite Hs', Hso', Ht', Hsu', He', Hsu.
  repeat split; try reflexivity.
  - now apply no_live_socket_all_closed.
  - intros x Hx. pose proof Hx as Hx'. apply In_cancel in Hx'. destruct Hx' as [HxT _].
    apply timer_kinds.
    + destruct (isPing x) eqn:Hp; [|reflexivity].
      destruct (heart_up Hb (ex_intro _ x (conj HxT Hp))) as [r [Hr Hup]].
      pose proof (count_none liveR _ Hlive r Hr) as Hl. now destruct r.
    + apply (count_none isReconnect (cancel (timerId tm) (timers w))); [lia|assumption].
Qed.

(** *** A linear client never names a topic on the wire *)

Lemma Quiet_set_nth (f : Socket -> Socket) (sid : SocketId) (socks : list Socket) :
  (forall x, wire (f x) = wire x) -> Quiet socks -> Quiet (set_nth sid f socks).
Proof.
  intros Hf Hq sock frame Hin Hfr. apply In_set_nth in Hin.
  destruct Hin as [Hin|[x [Hx ->]]]; [now apply (Hq sock)|].
  rewrite Hf in Hfr. now apply (Hq x).
Qed.

Lemma Quiet_deliver (s : WsStore.t) (k : string) (frame : json) (socks : list Socket) :
  (WsStore.getWs s k <> None -> topicless frame) ->
  Quiet socks -> Quiet (deliver s k frame socks).
Proof.
  intros Hfr Hq. unfold deliver.
  destruct (WsStore.getWs s k) as [sid|]; [|assumption].
  destruct (nth_error socks sid) as [sock0|]; [|assumption].
  destruct (is_open (readyState sock0)); [|assumption].
  intros sock fr Hin Hinfr. apply In_set_nth in Hin.
  destruct Hin as [Hin|[x [Hx ->]]]; [now apply (Hq sock)|].
  unfold wrote in Hinfr. cbn [wire] in Hinfr. apply in_app_or in Hinfr.
  destruct Hinfr as [Hinfr|[<-|[]]]; [now apply (Hq x)|].
  apply Hfr. discriminate.
Qed.

Lemma Quiet_replay (frameOf : list string -> json) (s : WsStore.t)
    (keys : list string) (socks : list Socket) :
  (forall k, k <> defaultWsKey -> WsStore.getWs s k = None) ->
  WsStore.getTopics s defaultWsKey = [] ->
  topicless (frameOf []) ->
  Quiet socks -> Quiet (replay frameOf s keys socks).
Proof.
  intros Ho Htop Hfr. unfold replay. revert socks.
  induction keys as [|k rest IH]; intros socks Hq; [assumption|].
  cbn [fold_left]. apply IH. apply Quiet_deliver; [|assumption].
  intros Hws. destruct (String.eqb_spec k defaultWsKey) as [->|Hne].
  - now rewrite Htop.
  - now rewrite (Ho k Hne) in Hws.
Qed.

Lemma Quiet_added (u k : string) (socks : list Socket) :
  Quiet socks -> Quiet (socks ++ [mkSocket u CONNECTING k []]).
Proof.
  intros Hq sock frame Hin Hfr. apply in_app_or in Hin.
  destruct Hin as [Hin|[<-|[]]]; [now apply (Hq sock)|]. contradiction.
Qed.

Lemma linear_key_is_not_default (topic : string) :
  linear options = true -> getWsKeyForTopic options topic <> defaultWsKey.
Proof.
  intros Hl. unfold getWsKeyForTopic, isInverse, getLinearWsKeyForTopic. rewrite Hl.
  cbn [negb]. now destruct (topic =? "")%string.
Qed.

Lemma addTopics_linear (topics : list string) (s : WsStore.t) :
  linear options = true ->
  WsStore.getTopics (addTopics options topics s) defaultWsKey
  = WsStore.getTopics s defaultWsKey.
Proof.
  intros Hl. unfold addTopics. revert s.
  induction topics as [|topic rest IH]; intros s; [reflexivity|].
  cbn [fold_left]. rewrite IH. autorewrite with store.
  destruct (String.eqb_spec (getWsKeyForTopic options topic) defaultWsKey) as [He|_];
    [|reflexivity].
  now apply linear_key_is_not_default in He.
Qed.

Lemma deleteTopics_none (topics : list string) (s : WsStore.t) (k : string) :
  WsStore.getTopics s k = [] -> WsStore.getTopics (deleteTopics options topics s) k = [].
Proof.
  intros Hnone.
  destruct (WsStore.getTopics (deleteTopics options topics s) k) as [|x l] eqn:E;
    [reflexivity|].
  assert (Hin : In x (WsStore.getTopics (deleteTopics options topics s) k))
    by (rewrite E; now left).
  apply deleteTopics_shrinks in Hin. now rewrite Hnone in Hin.
Qed.

Lemma topicless_frames :
  topicless pingFrame /\ topicless (subscribeFrame []) /\ topicless (unsubscribeFrame []).
Proof. unfold topicless. auto. Qed.

Lemma step_Silent (a : Action) (w w' : World) :
  linear options = true ->
  Wired w -> Silent w -> step signMessage options a w = Some w' -> Silent w'.
Proof.
  intros Hl Hw [Htop Hq] H.
  pose proof (fun k Hk => proj1 (wired_others Hw (k:=k) Hk)) as Ho.
  destruct topicless_frames as (Hping & Hsub & Hunsub).
  destruct a; cbn [step] in H;
    repeat match type of H with
           | context [match ?x with _ => _ end] => destruct x eqn:?
           end;
    try discriminate; injection H as <-;
    try (unfold set_ready; rewrite exec_modify_then);
    try match goal with
        | Hn : nth_error (sockets w) _ = Some ?sock |- _ =>
            rewrite (wired_handlers Hw sock (nth_error_In _ _ Hn))
        end;
    unfold Silent.
  - with_result subscribe_result. destruct E as (_ & Hs & Hso & _).
    assert (Htop' : WsStore.getTopics (wsStore w1) defaultWsKey = [])
      by (rewrite Hs, addTopics_linear; assumption).
    split; [assumption|]. rewrite Hso. case_match; [|assumption].
    apply Quiet_replay; try assumption.
    intros k Hk. rewrite Hs. autorewrite with store. now apply Ho.
  - with_result unsubscribe_result. destruct E as (_ & Hs & Hso & _).
    assert (Htop' : WsStore.getTopics (wsStore w1) defaultWsKey = [])
      by (rewrite Hs; now apply deleteTopics_none).
    split; [assumption|]. rewrite Hso. case_match; [|assumption].
    apply Quiet_replay; try assumption.
    intros k Hk. rewrite Hs. autorewrite with store. now apply Ho.
  - with_result close_result. destruct E as (_ & Hs & Hso & _).
    rewrite Hs, Hso. autorewrite with store. split; [assumption|].
    case_match; [|assumption]. now apply Quiet_set_nth.
  - rewrite fire_exec.
    assert (Hs0 : wsStore (if repeating t then w else with_timers (cancel (timerId t)) w)
                  = wsStore w) by (now destruct (repeating t)).
    assert (Hso0 : sockets (if repeating t then w else with_timers (cancel (timerId t)) w)
                   = sockets w) by (now destruct (repeating t)).
    destruct (callback t).
    + with_result ping_result. destruct E as (_ & Hs & Hso & _).
      rewrite Hs, Hso, Hs0, Hso0. autorewrite with store. split; [assumption|].
      now apply Quiet_deliver.
    + with_result pongTimedOut_result. destruct E as (_ & Hs & Hso & _).
      rewrite Hs, Hso, Hs0, Hso0. split; [assumption|].
      case_match; [|assumption]. now apply Quiet_set_nth.
    + unfold reconnectNow, log. rewrite exec_modify_then.
      with_result connect_result. destruct E as (_ & Hs & Hso & _).
      rewrite Hs, Hso. cbn [wsStore sockets with_logged]. rewrite Hs0, Hso0.
      split; [|assumption]. case_match; [assumption|now autorewrite with store].
  - unfold exec.
    destruct (connect_resume signMessage options s input (with_suspended (remove_nth i) w))
      as [c w1] eqn:E.
    cbn [snd]. apply connect_resume_result in E.
    destruct E as [[u (_ & Hs & Hso & _)]|[e [E _]]].
    + rewrite Hs, Hso. cbn [wsStore sockets with_suspended]. autorewrite with store.
      split; [assumption|]. now apply Quiet_added.
    + apply connectFailed_result in E. destruct E as (_ & Hs & Hso & _).
      rewrite Hs, Hso. cbn [wsStore sockets with_suspended]. autorewrite with store.
      now split.
  - with_result onWsOpen_result. cbv zeta in E. destruct E as (_ & Hs & Hso & _).
    rewrite Hs, Hso. cbn [wsStore sockets with_sockets]. autorewrite with store.
    split; [assumption|]. apply Quiet_replay.
    + intros k Hk. autorewrite with store. now apply Ho.
    + now autorewrite with store.
    + assumption.
    + now apply Quiet_set_nth.
  - with_result onWsMessage_result. destruct E as (Hs & Hso & _).
    rewrite Hs, Hso. split; [|assumption]. case_match; now autorewrite with store.
  - with_result onWsMessage_result. destruct E as (Hs & Hso & _).
    rewrite Hs, Hso. split; [|assumption]. case_match; now autorewrite with store.
  - with_result onWsError_result. destruct E as (_ & Hs & Hso & _).
    rewrite Hs, Hso. now split.
  - with_result onWsError_result. destruct E as (_ & Hs & Hso & _).
    rewrite Hs, Hso. now split.
  - with_result onWsError_result. destruct E as (_ & Hs & Hso & _).
    rewrite Hs, Hso. now split.
  - with_result onWsClose_result. destruct E as (_ & Hs & Hso & _).
    rewrite Hs, Hso. cbn [wsStore sockets with_sockets].
    split; [case_match; now autorewrite with store|now apply Quiet_set_nth].
  - with_result onWsClose_result. destruct E as (_ & Hs & Hso & _).
    rewrite Hs, Hso. cbn [wsStore sockets with_sockets].
    split; [case_match; now autorewrite with store|now apply Quiet_set_nth].
  - with_result onWsClose_result. destruct E as (_ & Hs & Hso & _).
    rewrite Hs, Hso. cbn [wsStore sockets with_sockets].
    split; [case_match; now autorewrite with store|now apply Quiet_set_nth].
  - unfold exec, modify. cbn [snd wsStore sockets with_sockets].
    split; [assumption|now apply Quiet_set_nth].
Qed.

(** X14.  In linear mode no topic ever reaches the wire.  Topics are stored
    under the keys [public] and [private], transports exist for the default
    key only, and a frame is written for a key on that key's own socket: in
    every world a linear client can be in, each frame written on each
    transport is a ping or a subscribe or unsubscribe frame with an empty
    topic list. *)
Theorem a_linear_client_never_names_a_topic_on_the_wire
    (w : World) (sock : Socket) (frame : json) :
  linear options = true ->
  reachable signMessage options w ->
  In sock (sockets w) ->
  In frame (wire sock) ->
  frame = pingFrame \/ frame = subscribeFrame [] \/ frame = unsubscribeFrame [].
Proof.
  intros Hl Hreach. revert sock frame.
  assert (Hsilent : Silent w).
  { induction Hreach as [|a w w' Hreach IH Hstep].
    - destruct (newClient_fields options) as (Hs & Hso & _).
      unfold Silent, Quiet. rewrite Hs, Hso. split; [reflexivity|]. intros ? ? [].
    - apply (step_Silent a w w'); try assumption.
      exact (reachable_Wired _ _ _ Hreach). }
  exact (proj2 Hsilent).
Qed.

(** *** What [close] leaves pending *)

Lemma Tied_kept (w w' : World) :
  Tied w ->
  (forall tm, In tm (timers w') -> In tm (timers w)) ->
  (pingHandle (wsStore w') defaultWsKey = None
   \/ pingHandle (wsStore w') defaultWsKey = pingHandle (wsStore w) defaultWsKey) ->
  (pongHandle (wsStore w') defaultWsKey = None
   \/ pongHandle (wsStore w') defaultWsKey = pongHandle (wsStore w) defaultWsKey) ->
  Tied w'.
Proof.
  intros Ht Hsub Hp Hq tm Hin. destruct (Ht tm (Hsub tm Hin)) as [H1 H2]. split.
  - destruct Hp as [Hp|Hp]; rewrite Hp; [discriminate|assumption].
  - destruct Hq as [Hq|Hq]; rewrite Hq; [discriminate|assumption].
Qed.

Lemma Tied_cleared (w' : World) :
  pingHandle (wsStore w') defaultWsKey = None ->
  pongHandle (wsStore w') defaultWsKey = None ->
  Tied w'.
Proof. intros Hp Hq tm _. rewrite Hp, Hq. split; discriminate. Qed.

Lemma Tied_armed (w w' : World) (tm0 : Timer) :
  Tied w -> Beating w ->
  timerId tm0 = nextTimer w ->
  (forall tm, In tm (timers w') -> In tm (timers w) \/ tm = tm0) ->
  (pingHandle (wsStore w') defaultWsKey = pingHandle (wsStore w) defaultWsKey
   \/ (pingHandle (wsStore w') defaultWsKey = Some (nextTimer w) /\ isPing tm0 = true)) ->
  (pongHandle (wsStore w') defaultWsKey = pongHandle (wsStore w) defaultWsKey
   \/ (pongHandle (wsStore w') defaultWsKey = Some (nextTimer w) /\ isPong tm0 = true)) ->
  Tied w'.
Proof.
  intros Ht Hb Hid Hsub Hp Hq tm Hin.
  destruct (Hsub tm Hin) as [Hold| ->].
  - pose proof (heart_fresh Hb tm Hold) as Hfresh. destruct (Ht tm Hold) as [H1 H2]. split.
    + destruct Hp as [Hp|[Hp _]]; rewrite Hp; [assumption|]. intros [= E]. lia.
    + destruct Hq as [Hq|[Hq _]]; rewrite Hq; [assumption|]. intros [= E]. lia.
  - rewrite Hid. split.
    + destruct Hp as [Hp|[_ Hp]]; [|intros _; assumption].
      rewrite Hp. intros E. apply (heart_ping_fresh Hb) in E. lia.
    + destruct Hq as [Hq|[_ Hq]]; [|intros _; assumption].
      rewrite Hq. intros E. apply (heart_pong_fresh Hb) in E. lia.
Qed.

Lemma step_Tied (a : Action) (w w' : World) :
  Wired w -> Beating w -> Tied w -> step signMessage options a w = Some w' -> Tied w'.
Proof.
  intros Hw Hb Ht H.
  destruct a; cbn [step] in H;
    repeat match type of H with
           | context [match ?x with _ => _ end] => destruct x eqn:?
           end;
    try discriminate; injection H as <-;
    try (unfold set_ready; rewrite exec_modify_then);
    try match goal with
        | Hn : nth_error (sockets w) _ = Some ?sock |- _ =>
            rewrite (wired_handlers Hw sock (nth_error_In _ _ Hn))
        end.
  - with_result subscribe_result. destruct E as (_ & Hs & _ & Htm & _).
    apply (Tied_kept w); [assumption|now rewrite Htm| |];
      rewrite Hs; autorewrite with store; auto.
  - with_result unsubscribe_result. destruct E as (_ & Hs & _ & Htm & _).
    apply (Tied_kept w); [assumption|now rewrite Htm| |];
      rewrite Hs; autorewrite with store; auto.
  - with_result close_result. destruct E as (_ & Hs & _ & Htm & _).
    apply (Tied_kept w); [assumption| | |].
    + intros tm. rewrite Htm, In_both_cancelled. tauto.
    + rewrite Hs. autorewrite with store. case_match; auto.
    + rewrite Hs. autorewrite with store. case_match; auto.
  - apply find_timer_In in Heqo. destruct Heqo as [Hin Hid].
    rewrite fire_exec. pose proof (heart_kinds Hb t Hin) as Hkind.
    unfold isPing in Hkind. destruct (callback t) eqn:Hcb; rewrite Hkind.
    + with_result ping_result. destruct E as (_ & Hs & _ & Htm & _).
      apply (Tied_armed w w1
               (mkTimer (nextTimer w) (PongTimeout defaultWsKey) (pongTimeout options) false));
        try assumption; try reflexivity.
      * intros tm. rewrite Htm. intros Hx. apply in_app_or in Hx.
        destruct Hx as [Hx|[<-|[]]]; [|now right]. apply In_cancelled in Hx. tauto.
      * left. rewrite Hs. now autorewrite with store.
      * right. rewrite Hs. autorewrite with store. now rewrite String.eqb_refl.
    + with_result pongTimedOut_result. destruct E as (_ & Hs & _ & Htm & _).
      apply (Tied_kept w); [assumption| | |].
      * intros tm. rewrite Htm. cbn [timers with_timers]. rewrite In_cancel. tauto.
      * rewrite Hs. auto.
      * rewrite Hs. auto.
    + unfold reconnectNow, log. rewrite exec_modify_then.
      with_result connect_result. destruct E as (_ & Hs & _ & Htm & _).
      apply (Tied_kept w); [assumption| | |].
      * intros tm. rewrite Htm. cbn [timers with_timers with_logged]. rewrite In_cancel. tauto.
      * rewrite Hs. cbn [wsStore with_timers with_logged].
        case_match; autorewrite with store; auto.
      * rewrite Hs. cbn [wsStore with_timers with_logged].
        case_match; autorewrite with store; auto.
  - assert (Hkey : suspendedKey s = defaultWsKey)
      by (apply (wired_suspended Hw); eapply nth_error_In; eauto).
    unfold exec.
    destruct (connect_resume signMessage options s input (with_suspended (remove_nth i) w))
      as [c w1] eqn:E.
    cbn [snd]. apply connect_resume_result in E. rewrite Hkey in E.
    destruct E as [[u (_ & Hs & _ & Htm & _)]|[e [E _]]].
    + apply (Tied_kept w); [assumption|now rewrite Htm| |];
        rewrite Hs; cbn [wsStore with_suspended]; autorewrite with store; auto.
    + apply connectFailed_result in E. destruct E as (_ & Hs & _).
      apply Tied_cleared; rewrite Hs; cbn [wsStore with_suspended];
        autorewrite with store; now rewrite String.eqb_refl.
  - with_result onWsOpen_result. cbv zeta in E. destruct E as (_ & Hs & _ & Htm & _).
    cbn [wsStore sockets timers nextTimer with_sockets] in Hs, Htm.
    apply (Tied_armed w w1 (mkTimer (nextTimer w) PingTick (pingInterval options) true));
      try assumption; try reflexivity.
    * intros tm. rewrite Htm. intros Hx. apply in_app_or in Hx.
      destruct Hx as [Hx|[<-|[]]]; [now left|now right].
    * right. rewrite Hs. autorewrite with store. now rewrite String.eqb_refl.
    * left. rewrite Hs. now autorewrite with store.
  - with_result onWsMessage_result. destruct E as (Hs & _ & Htm & _).
    apply (Tied_kept w); [assumption| | |].
    + intros tm. rewrite Htm. case_match; [|tauto]. rewrite In_cancelled. tauto.
    + rewrite Hs. case_match; autorewrite with store; auto.
    + rewrite Hs. case_match; autorewrite with store; [case_match|]; auto.
  - with_result onWsMessage_result. destruct E as (Hs & _ & Htm & _).
    apply (Tied_kept w); [assumption| | |].
    + intros tm. rewrite Htm. case_match; [|tauto]. rewrite In_cancelled. tauto.
    + rewrite Hs. case_match; autorewrite with store; auto.
    + rewrite Hs. case_match; autorewrite with store; [case_match|]; auto.
  - with_result onWsError_result. destruct E as (_ & Hs & _ & Htm & _).
    apply (Tied_kept w); [assumption|now rewrite Htm| |]; rewrite Hs; auto.
  - with_result onWsError_result. destruct E as (_ & Hs & _ & Htm & _).
    apply (Tied_kept w); [assumption|now rewrite Htm| |]; rewrite Hs; auto.
  - with_result onWsError_result. destruct E as (_ & Hs & _ & Htm & _).
    apply (Tied_kept w); [assumption|now rewrite Htm| |]; rewrite Hs; auto.
  - with_result onWsClose_result. destruct E as (_ & Hs & _ & Htm & _).
    cbn [wsStore sockets timers nextTimer with_sockets] in Hs, Htm.
    destruct (state_eqb _ _).
    + apply (Tied_kept w); [assumption|now rewrite Htm| |];
        rewrite Hs; autorewrite with store; auto.
    + apply Tied_cleared; rewrite Hs; autorewrite with store; now rewrite String.eqb_refl.
  - with_result onWsClose_result. destruct E as (_ & Hs & _ & Htm & _).
    cbn [wsStore sockets timers nextTimer with_sockets] in Hs, Htm.
    destruct (state_eqb _ _).
    + apply (Tied_kept w); [assumption|now rewrite Htm| |];
        rewrite Hs; autorewrite with store; auto.
    + apply Tied_cleared; rewrite Hs; autorewrite with store; now rewrite String.eqb_refl.
  - with_result onWsClose_result. destruct E as (_ & Hs & _ & Htm & _).
    cbn [wsStore sockets timers nextTimer with_sockets] in Hs, Htm.
    destruct (state_eqb _ _).
    + apply (Tied_kept w); [assumption|now rewrite Htm| |];
        rewrite Hs; autorewrite with store; auto.
    + apply Tied_cleared; rewrite Hs; autorewrite with store; now rewrite String.eqb_refl.
  - unfold exec, modify. cbn [snd]. apply (Tied_kept w); auto.
Qed.

Lemma reachable_Tied (w : World) : reachable signMessage options w -> Tied w.
Proof.
  intros Hreach. induction Hreach as [|a w w' Hreach IH Hstep].
  - destruct (newClient_fields options) as (_ & _ & Ht & _).
    intros tm Hin. rewrite Ht in Hin. contradiction.
  - destruct (reachable_invariant _ _ _ Hreach) as [Hw Hb].
    now apply (step_Tied a w w').
Qed.

(** X15.  [close()] does not call off a reconnect that is already
    scheduled.  It cancels the two heartbeat timers only, so in every world
    the client can be in a pending reconnect timeout is still pending after
    [close(wsKey)], for any key; and after [close()] on the default key the
    timeout fires on a key that is Closing, not Connecting: [connect] goes
    past its guards and a new connection attempt is under way. *)
Theorem close_does_not_call_off_a_pending_reconnect (w : World) (tm : Timer) :
  reachable signMessage options w ->
  In tm (timers w) ->
  callback tm = Reconnect ->
  (forall k, In tm (timers (exec (close k) w)))
  /\ exists w1 w2,
       step signMessage options (CallClose None) w = Some w1
       /\ WsStore.getConnectionState (wsStore w1) defaultWsKey = READY_STATE_CLOSING
       /\ step signMessage options (TimerFires (timerId tm)) w1 = Some w2
       /\ suspended w2 = [mkSuspended defaultWsKey (authStage options)].
Proof.
  intros Hreach Hin Hcb.
  destruct (reachable_invariant _ _ _ Hreach) as [Hw Hb].
  pose proof (reachable_Tied _ Hreach tm Hin) as [Hp Hq].
  assert (Hrec : isReconnect tm = true) by (unfold isReconnect; now rewrite Hcb).
  assert (Hnp : isPing tm = false) by (unfold isPing; now rewrite Hcb).
  assert (Hnq : isPong tm = false) by (unfold isPong; now rewrite Hcb).
  assert (Hkeep : forall k, In tm (timers (exec (close k) w))).
  { intros k. with_result close_result. destruct E as (_ & _ & _ & Htm & _).
    rewrite Htm. apply In_both_cancelled. split; [assumption|].
    destruct (String.eqb_spec k defaultWsKey) as [->|Hne].
    - split; intros E.
      + rewrite (Hp E) in Hnp. discriminate.
      + rewrite (Hq E) in Hnq. discriminate.
    - destruct (wired_others Hw Hne) as (_ & _ & Hpn & Hqn). rewrite Hpn, Hqn.
      split; discriminate. }
  split; [exact Hkeep|].
  exists (exec (close defaultWsKey) w), (exec (fire options tm) (exec (close defaultWsKey) w)).
  assert (Hstep : step signMessage options (CallClose None) w
                  = Some (exec (close defaultWsKey) w)) by reflexivity.
  pose proof (reach_step (CallClose None) Hreach Hstep) as Hreach1.
  destruct (reachable_invariant _ _ _ Hreach1) as [Hw1 Hb1].
  pose proof (Hkeep defaultWsKey) as Hin1.
  assert (Hst1 : WsStore.getConnectionState (wsStore (exec (close defaultWsKey) w)) defaultWsKey
                 = READY_STATE_CLOSING).
  { with_result close_result. destruct E as (_ & Hs & _). rewrite Hs.
    autorewrite with store. now rewrite String.eqb_refl. }
  split; [exact Hstep|]. split; [exact Hst1|].
  pose proof (heart_tokens Hb1) as Htok.
  pose proof (count_pos isReconnect _ tm Hin1 Hrec) as Hone.
  assert (Hsu : suspended (exec (close defaultWsKey) w) = []).
  { destruct (suspended (exec (close defaultWsKey) w)); [reflexivity|cbn in Htok; lia]. }
  assert (Hlive : count liveR (map readyState (sockets (exec (close defaultWsKey) w))) = 0)
    by lia.
  pose proof (heart_kinds Hb1 tm Hin1) as Hrep. rewrite Hnp in Hrep.
  generalize dependent (exec (close defaultWsKey) w). intros w1 _ _ Hw1 Hb1 Hin1 Hst1 _ _ Hsu Hlive.
  split.
  { cbn [step]. rewrite (find_timer_found _ _ (heart_ids Hb1) Hin1). reflexivity. }
  rewrite fire_exec, Hcb, Hrep. unfold reconnectNow, log. rewrite exec_modify_then.
  with_result connect_result. destruct E as (_ & _ & _ & _ & _ & Hsu' & _).
  unfold refused in Hsu'.
  rewrite wsOpen_all_closed in Hsu'
    by (cbn [sockets with_timers with_logged]; now apply no_live_socket_all_closed).
  cbn [wsStore suspended with_timers with_logged] in Hsu'.
  rewrite Hst1, Hsu in Hsu'. exact Hsu'.
Qed.

(** *** One connection, on one key *)

(** X16.  The client never has two connection attempts at once: in every
    world it can be in, the suspended [connect] calls, the pending
    reconnect timeouts and the transports that have not closed number at
    most one altogether. *)
Theorem one_connection_attempt_at_a_time (w : World) :
  reachable signMessage options w ->
  length (suspended w)
  + count isReconnect (timers w)
  + count liveR (map readyState (sockets w)) <= 1.
Proof.
  intros Hreach. destruct (reachable_invariant _ _ _ Hreach) as [_ Hb].
  exact (heart_tokens Hb).
Qed.

(** X17.  Only the default key is ever connected: every transport and every
    suspended [connect] belongs to it, whatever key [getWsKeyForTopic]
    files the topics under, and no other key ever holds a socket, a timer
    handle or the Connected state. *)
Theorem only_the_default_key_is_ever_connected (w : World) :
  reachable signMessage options w ->
  (forall sock, In sock (sockets w) -> handlerKey sock = defaultWsKey)
  /\ (forall s, In s (suspended w) -> suspendedKey s = defaultWsKey)
  /\ (forall k, k <> defaultWsKey ->
        WsStore.getWs (wsStore w) k = None
        /\ WsStore.getConnectionState (wsStore w) k <> READY_STATE_CONNECTED
        /\ pingHandle (wsStore w) k = None
        /\ pongHandle (wsStore w) k = None).
Proof.
  intros Hreach. destruct (reachable_Wired _ _ _ Hreach) as [_ Hh Hs Ho _ _].
  split; [exact Hh|]. split; [exact Hs|]. intros k Hk. now apply Ho.
Qed.

(** X18.  With a key and a secret configured, the transport is opened on
    the endpoint followed by [?api_key=..&expires=..&signature=..], in
    that order: [expires] is the clock plus the server time offset plus
    five seconds, and the signature is [signMessage] of [GET/realtime]
    followed by [expires], under the secret.  The clock and the offset are
    whole milliseconds, and they and their sums are safe integers, so that
    [expires] is written with its decimal digits. *)
Theorem an_authenticated_connect_signs_its_url
    (s : Suspended) (input : ResumeInput) (w : World)
    (apiKey apiSecret : string) (offset : Z) :
  key options = Some apiKey -> apiKey <> "" ->
  secret options = Some apiSecret -> apiSecret <> "" ->
  stage s = authStage options ->
  timeOffset input = inl offset ->
  constructorThrows input = None ->
  safeInteger (now input) = true ->
  safeInteger offset = true ->
  safeInteger (now input + offset) = true ->
  safeInteger (now input + offset + 5000) = true ->
  let expires := NilZero.string_of_int (Z.to_int (now input + offset + 5000)) in
  connect_resume signMessage options s input w =
  (Normal tt,
   with_store (fun st => WsStore.setWs st (suspendedKey s) (length (sockets w)))
     (with_sockets
        (fun l => l ++ [mkSocket
                          (getWsUrl options ++ "?api_key=" ++ apiKey
                           ++ "&expires=" ++ expires
                           ++ "&signature=" ++ signMessage ("GET/realtime" ++ expires) apiSecret)
                          CONNECTING (suspendedKey s) []])
        w)).
Proof.
  intros Hk Hkne Hs Hsne Hstage Hoff Hctor _ _ _ _. cbv zeta.
  unfold authStage, truthy_string in Hstage. rewrite Hk, Hs in Hstage.
  apply String.eqb_neq in Hkne, Hsne. rewrite Hkne, Hsne in Hstage. cbn in Hstage.
  unfold connect_resume, signedAuthParams, connectToWsUrl, new_socket.
  rewrite Hstage, Hoff, Hctor, Hk, Hs.
  unfold RequestUtils.serializeParams, try_catch, bind, ret, modify. cbn.
  reflexivity.
Qed.

(** X19.  In inverse mode, [unsubscribe(topic)] on a connected client
    writes one unsubscribe frame on the open transport, and the frame
    lists the topics that stay subscribed: the stored topics without the
    one the call removes. *)
Theorem an_unsubscribe_frame_lists_what_stays_subscribed
    (w : World) (topic : string) (sid : SocketId) (sock : Socket) :
  reachable signMessage options w ->
  linear options = false ->
  WsStore.getConnectionState (wsStore w) defaultWsKey = READY_STATE_CONNECTED ->
  WsStore.getWs (wsStore w) defaultWsKey = Some sid ->
  nth_error (sockets w) sid = Some sock ->
  readyState sock = OPEN ->
  nth_error (sockets (exec (unsubscribe options (OneTopic topic)) w)) sid =
  Some (wrote [unsubscribeFrame
                 (filter (fun x => negb (x =? topic)%string)
                         (WsStore.getTopics (wsStore w) defaultWsKey))]
              sock).
Proof.
  intros Hreach Hl Hst Hws Hn Hopen.
  pose proof (reachable_Wired _ _ _ Hreach) as [Hk _ _ Ho _ _].
  with_result unsubscribe_result. destruct E as (_ & Hs & Hso & _).
  assert (Hkey : getWsKeyForTopic options topic = defaultWsKey)
    by (unfold getWsKeyForTopic, isInverse; now rewrite Hl).
  cbn [toArray] in Hs.
  rewrite Hst in Hso. cbn [state_eqb state_code Z.eqb Pos.eqb] in Hso.
  rewrite Hso, nth_error_replay, Hn. cbn [option_map]. unfold received.
  rewrite Hopen. cbn [is_open]. do 2 f_equal.
  rewrite (framesFor_single unsubscribeFrame (wsStore w1) sid defaultWsKey).
  - rewrite Hs. unfold deleteTopics. cbn [fold_left]. rewrite Hkey.
    autorewrite with store. now rewrite String.eqb_refl.
  - rewrite Hs. now apply NoDup_deleteTopics.
  - rewrite Hs. now autorewrite with store.
  - intros k' Hk'. rewrite Hs. autorewrite with store. now apply Ho.
Qed.

(** *** What ends a connection, and what brings it back *)

(** X21.  A reconnect that is due goes ahead unless the key is Connecting:
    when the reconnect timeout fires on a key in any other state, [connect]
    passes its guards and is left waiting for the credentials, the one
    connection attempt under way; no transport exists yet. *)
Theorem a_due_reconnect_goes_ahead_unless_connecting (w : World) (tm : Timer) :
  reachable signMessage options w ->
  In tm (timers w) ->
  callback tm = Reconnect ->
  WsStore.getConnectionState (wsStore w) defaultWsKey <> READY_STATE_CONNECTING ->
  exists w',
    step signMessage options (TimerFires (timerId tm)) w = Some w'
    /\ suspended w' = [mkSuspended defaultWsKey (authStage options)]
    /\ timers w' = cancel (timerId tm) (timers w)
    /\ sockets w' = sockets w
    /\ emitted w' = emitted w.
Proof.
  intros Hreach Hin Hcb Hst.
  destruct (reachable_invariant _ _ _ Hreach) as [Hw Hb].
  assert (Hrec : isReconnect tm = true) by (unfold isReconnect; now rewrite Hcb).
  assert (Hnp : isPing tm = false) by (unfold isPing; now rewrite Hcb).
  pose proof (heart_kinds Hb tm Hin) as Hrep. rewrite Hnp in Hrep.
  pose proof (heart_tokens Hb) as Htok.
  pose proof (count_pos isReconnect _ tm Hin Hrec) as Hone.
  assert (Hsu : suspended w = []) by (destruct (suspended w); [reflexivity|cbn in Htok; lia]).
  assert (Hlive : count liveR (map readyState (sockets w)) = 0) by lia.
  eexists. split.
  { cbn [step]. rewrite (find_timer_found _ _ (heart_ids Hb) Hin). reflexivity. }
  rewrite fire_exec, Hcb, Hrep. unfold reconnectNow, log. rewrite exec_modify_then.
  with_result connect_result. destruct E as (_ & _ & Hso' & Ht' & _ & Hsu' & He').
  unfold refused in Hsu'.
  rewrite wsOpen_all_closed in Hsu'
    by (cbn [sockets with_timers with_logged]; now apply no_live_socket_all_closed).
  cbn [wsStore sockets timers suspended emitted with_timers with_logged] in *.
  assert (Hneq : state_eqb (WsStore.getConnectionState (wsStore w) defaultWsKey)
                           READY_STATE_CONNECTING = false).
  { destruct (state_eqb _ _) eqn:Heq; [|reflexivity].
    apply state_eqb_eq in Heq. contradiction. }
  rewrite Hneq, Hsu in Hsu'. cbn [orb app] in Hsu'.
  repeat split; assumption.
Qed.

(** *** The heartbeat, turn by turn *)

(** X22.  A pong timeout neither reconnects nor tells the application: when
    it fires, the store is left as it was (the key keeps its state and even
    the handle of the timeout that just fired), nothing is emitted, and the
    only effect is that the key's transport is asked to close.  The
    reconnect waits for the close event of the transport. *)
Theorem a_pong_timeout_only_closes_the_socket (w : World) (tm : Timer) (k : string) :
  reachable signMessage options w ->
  In tm (timers w) ->
  callback tm = PongTimeout k ->
  exists w',
    step signMessage options (TimerFires (timerId tm)) w = Some w'
    /\ wsStore w' = wsStore w
    /\ emitted w' = emitted w
    /\ suspended w' = suspended w
    /\ timers w' = cancel (timerId tm) (timers w)
    /\ sockets w' =
         match WsStore.getWs (wsStore w) k with
         | Some sid =>
             set_nth sid
               (fun s => mkSocket (url s) (closing_of (readyState s)) (handlerKey s) (wire s))
               (sockets w)
         | None => sockets w
         end.
Proof.
  intros Hreach Hin Hcb.
  destruct (reachable_invariant _ _ _ Hreach) as [Hw Hb].
  assert (Hnp : isPing tm = false) by (unfold isPing; now rewrite Hcb).
  pose proof (heart_kinds Hb tm Hin) as Hrep. rewrite Hnp in Hrep.
  eexists. split.
  { cbn [step]. rewrite (find_timer_found _ _ (heart_ids Hb) Hin). reflexivity. }
  rewrite fire_exec, Hcb, Hrep.
  with_result pongTimedOut_result. destruct E as (_ & Hs & Hso & Ht & _ & Hsu & He).
  cbn [wsStore sockets timers suspended emitted with_timers] in *.
  repeat split; assumption.
Qed.

Lemma isWsPong_has_success (reply : json) :
  isWsPong reply = true -> has_in "success" reply = Some true.
Proof.
  unfold isWsPong, is_true, prop, has_in. intros H.
  apply andb_prop in H. destruct H as [_ H].
  destruct reply; try discriminate.
  now destruct (assoc "success" fields).
Qed.

Lemma onWsMessage_pong (reply : json) (k : string) (w : World) :
  isWsPong reply = true ->
  onWsMessage (Text reply) k w =
  (Normal tt, pongCleared k (with_logged (fun l => l ++ [mkLog Silly "Received pong"]) w)).
Proof.
  intros Hp. unfold onWsMessage, JSON_parse, onWsMessageResponse, log.
  unfold bind at 1. unfold ret at 1.
  rewrite (isWsPong_has_success _ Hp), Hp.
  unfold bind, modify. now rewrite clearPongTimer_run.
Qed.

(** X23.  A pong that comes in time calls the timeout off.  When the ping
    interval fires, a pong timeout is armed under a fresh handle; once the
    reply to the ping is delivered, no pong timeout is pending, every other
    timer is still pending, the pong handle is cleared, and the application
    has seen nothing of the exchange. *)
Theorem a_pong_in_time_calls_off_the_timeout
    (w : World) (tm : Timer) (sid : SocketId) (sock : Socket) (reply : json) :
  reachable signMessage options w ->
  In tm (timers w) ->
  callback tm = PingTick ->
  nth_error (sockets w) sid = Some sock ->
  readyState sock = OPEN ->
  isWsPong reply = true ->
  exists w1 w2,
    step signMessage options (TimerFires (timerId tm)) w = Some w1
    /\ In (mkTimer (nextTimer w) (PongTimeout defaultWsKey) (pongTimeout options) false)
          (timers w1)
    /\ step signMessage options (TransportMessage sid (Text reply)) w1 = Some w2
    /\ (forall x, In x (timers w2) <-> In x (timers w) /\ isPong x = false)
    /\ pongHandle (wsStore w2) defaultWsKey = None
    /\ emitted w2 = emitted w.
Proof.
  intros Hreach Hin Hcb Hsock Hopen Hreply.
  destruct (reachable_invariant _ _ _ Hreach) as [Hw Hb].
  pose proof (reachable_Tied _ Hreach) as Htied.
  assert (Hp : isPing tm = true) by (unfold isPing; now rewrite Hcb).
  pose proof (heart_kinds Hb tm Hin) as Hrep. rewrite Hp in Hrep.
  assert (Hstep1 : step signMessage options (TimerFires (timerId tm)) w
                   = Some (exec (ping options defaultWsKey) w)).
  { cbn [step]. rewrite (find_timer_found _ _ (heart_ids Hb) Hin).
    now rewrite fire_exec, Hcb, Hrep. }
  pose proof (step_Wired _ _ _ _ _ Hw Hstep1) as Hw1.
  assert (Hfields :
            wsStore (exec (ping options defaultWsKey) w)
              = WsStore.setPongTimer (pongDropped defaultWsKey (wsStore w)) defaultWsKey
                  (Some (nextTimer w))
            /\ timers (exec (ping options defaultWsKey) w)
                = cancelled (pongHandle (wsStore w) defaultWsKey) (timers w)
                  ++ [mkTimer (nextTimer w) (PongTimeout defaultWsKey) (pongTimeout options) false]
            /\ emitted (exec (ping options defaultWsKey) w) = emitted w
            /\ exists sock1,
                 nth_error (sockets (exec (ping options defaultWsKey) w)) sid = Some sock1
                 /\ readyState sock1 = OPEN).
  { with_result ping_result. destruct E as (_ & Hs & Hso & Ht & _ & _ & He).
    rewrite Hs, Hso, Ht, He. repeat split.
    rewrite nth_error_deliver, Hsock. cbn [option_map]. eexists. split; [reflexivity|].
    unfold received, wrote. rewrite Hopen. reflexivity. }
  destruct Hfields as (Hs1 & Ht1 & He1 & sock1 & Hsock1 & Hopen1).
  exists (exec (ping options defaultWsKey) w).
  generalize dependent (exec (ping options defaultWsKey) w).
  intros w1 Hstep1 Hw1 Hs1 Ht1 He1 Hsock1.
  pose proof (wired_handlers Hw1 sock1 (nth_error_In _ _ Hsock1)) as Hkey.
  eexists. split; [exact Hstep1|].
  split; [rewrite Ht1; apply in_or_app; right; now left|].
  split.
  { cbn [step]. rewrite Hsock1, Hopen1, Hkey. reflexivity. }
  unfold exec. rewrite (onWsMessage_pong _ _ _ Hreply). cbn [snd]. fields.
  rewrite Hs1, Ht1, He1. autorewrite with store. rewrite String.eqb_refl.
  split; [|split; reflexivity].
  intros x. cbn [cancelled]. rewrite In_cancel, in_app_iff, In_cancelled. cbn [In]. split.
  - intros [[[Hx Hq]|[<-|[]]] Hid]; [|cbn [timerId] in Hid; congruence].
    split; [assumption|]. destruct (isPong x) eqn:Hpong; [|reflexivity].
    now rewrite (heart_pong Hb x Hx Hpong) in Hq.
  - intros [Hx Hnq]. pose proof (heart_fresh Hb x Hx) as Hfresh. split; [|lia].
    left. split; [assumption|]. intros E. apply (proj2 (Htied x Hx)) in E. congruence.
Qed.

(** *** The [open] event *)

Lemma Once_move (w w' : World) (l : list Emitted) :
  Once w ->
  emitted w' = emitted w ++ l ->
  count isOpenEvent l = 0 ->
  (WsStore.getConnectionState (wsStore w') defaultWsKey = READY_STATE_CONNECTING ->
   WsStore.getConnectionState (wsStore w) defaultWsKey = READY_STATE_CONNECTING) ->
  (WsStore.getConnectionState (wsStore w') defaultWsKey = READY_STATE_INITIAL ->
   suspended w' = [] /\ count isReconnect (timers w') = 0) ->
  Once w'.
Proof.
  intros (H1 & H2 & _) He Hl Hc Hi. unfold Once. rewrite He, count_app, Hl, Nat.add_0_r.
  split; [assumption|]. split; [|assumption]. intros Hst. now apply H2, Hc.
Qed.

Lemma Once_same (w w' : World) (l : list Emitted) :
  Once w ->
  emitted w' = emitted w ++ l ->
  count isOpenEvent l = 0 ->
  WsStore.getConnectionState (wsStore w') defaultWsKey
    = WsStore.getConnectionState (wsStore w) defaultWsKey ->
  suspended w' = suspended w ->
  count isReconnect (timers w') <= count isReconnect (timers w) ->
  Once w'.
Proof.
  intros Ho He Hl Hst Hsu Ht. apply (Once_move w w' l); try assumption.
  - now rewrite Hst.
  - rewrite Hst. intros Hi. destruct Ho as (_ & _ & H3).
    destruct (H3 Hi) as [H3a H3b]. split; [congruence|lia].
Qed.

Lemma onWsMessage_emits (data : RawFrame) (k : string) (w : World) :
  exists l,
    emitted (exec (onWsMessage data k) w) = emitted w ++ l /\ count isOpenEvent l = 0.
Proof.
  unfold exec, onWsMessage, JSON_parse, onWsMessageResponse, onWsMessageUpdate, emit, log.
  destruct data as [v|]; unfold bind, ret, throw, modify; cbn [snd];
    [|exists []; now rewrite app_nil_r].
  destruct (has_in "success" v) as [[|]|]; cbn [snd];
    [|destruct (truthy_opt (prop v "topic"))|]; cbn [snd emitted with_emitted with_logged].
  - destruct (isWsPong v).
    + rewrite clearPongTimer_run. cbn [snd]. fields. exists []. now rewrite app_nil_r.
    + eexists. split; reflexivity.
  - eexists. split; reflexivity.
  - exists []. now rewrite app_nil_r.
  - exists []. now rewrite app_nil_r.
Qed.

Lemma same_emitted (w w' : World) :
  emitted w' = emitted w -> emitted w' = emitted w ++ [].
Proof. intros H. now rewrite app_nil_r. Qed.

Lemma closed_once (sid : SocketId) (sock : Socket) (w : World) :
  Wired w -> Beating w -> Once w ->
  nth_error (sockets w) sid = Some sock ->
  readyState sock <> CLOSED ->
  Once (exec (onWsClose options defaultWsKey)
          (with_sockets
             (set_nth sid (fun s => mkSocket (url s) CLOSED (handlerKey s) (wire s))) w)).
Proof.
  intros Hw Hb Ho Hsock Hlive.
  pose proof (heart_tokens Hb) as Htok.
  assert (Hl : liveR (readyState sock) = true) by (now destruct (readyState sock)).
  pose proof (count_pos liveR _ (readyState sock)
                (in_map readyState _ _ (nth_error_In _ _ Hsock)) Hl) as Hone.
  assert (Hsu0 : suspended w = []) by (destruct (suspended w); [reflexivity|cbn in Htok; lia]).
  with_result onWsClose_result. destruct E as (_ & Hs & _ & Ht & _ & Hsu & He).
  cbn [wsStore sockets timers nextTimer suspended emitted with_sockets] in *.
  destruct (state_eqb (WsStore.getConnectionState (wsStore w) defaultWsKey)
                      READY_STATE_CLOSING) eqn:Hcl.
  - apply (Once_move w w1 [EvClose]); auto;
      rewrite Hs; autorewrite with store; rewrite String.eqb_refl; [discriminate|].
    intros _. rewrite Hsu, Ht. split; [assumption|lia].
  - apply (Once_move w w1 [EvReconnect]); auto;
      rewrite Hs; autorewrite with store; rewrite String.eqb_refl.
    + destruct (state_eqb (WsStore.getConnectionState (wsStore w) defaultWsKey)
                          READY_STATE_CONNECTING) eqn:Heq;
        [intros _; now apply state_eqb_eq|intros; discriminate].
    + destruct (state_eqb (WsStore.getConnectionState (wsStore w) defaultWsKey)
                          READY_STATE_CONNECTING); intros; discriminate.
Qed.

Lemma step_Once (a : Action) (w w' : World) :
  Wired w -> Beating w -> Once w -> step signMessage options a w = Some w' -> Once w'.
Proof.
  intros Hw Hb Ho H.
  pose proof (heart_tokens Hb) as Htok.
  destruct a; cbn [step] in H;
    repeat match type of H with
           | context [match ?x with _ => _ end] => destruct x eqn:?
           end;
    try discriminate; injection H as <-;
    try (unfold set_ready; rewrite exec_modify_then);
    try match goal with
        | Hn : nth_error (sockets w) _ = Some ?sock |- _ =>
            rewrite (wired_handlers Hw sock (nth_error_In _ _ Hn))
        end.
  - with_result subscribe_result. destruct E as (_ & Hs & _ & Ht & _ & Hsu & He).
    apply (Once_same w w1 []); auto using same_emitted.
    + rewrite Hs. now autorewrite with store.
    + rewrite Ht. lia.
  - with_result unsubscribe_result. destruct E as (_ & Hs & _ & Ht & _ & Hsu & He).
    apply (Once_same w w1 []); auto using same_emitted.
    + rewrite Hs. now autorewrite with store.
    + rewrite Ht. lia.
  - with_result close_result. destruct E as (_ & Hs & _ & Ht & _ & Hsu & He).
    destruct (String.eqb_spec (or_default wsKey defaultWsKey) defaultWsKey) as [Hk|Hk].
    + apply (Once_move w w1 []); auto using same_emitted;
        rewrite Hs, Hk; autorewrite with store; rewrite String.eqb_refl; discriminate.
    + apply (Once_same w w1 []); auto using same_emitted.
      * rewrite Hs. autorewrite with store.
        destruct (String.eqb_spec (or_default wsKey defaultWsKey) defaultWsKey);
          [contradiction|reflexivity].
      * rewrite Ht.
        etransitivity; [apply count_cancelled_le|apply count_cancelled_le].
  - apply find_timer_In in Heqo. destruct Heqo as [Hin Hid].
    rewrite fire_exec. pose proof (heart_kinds Hb t Hin) as Hkind.
    unfold isPing in Hkind. destruct (callback t) eqn:Hcb; rewrite Hkind.
    + with_result ping_result. destruct E as (_ & Hs & _ & Ht & _ & Hsu & He).
      apply (Once_same w w1 []); auto using same_emitted.
      * rewrite Hs. now autorewrite with store.
      * rewrite Ht, count_app. cbn. pose proof (count_cancelled_le isReconnect
          (pongHandle (wsStore w) defaultWsKey) (timers w)). lia.
    + with_result pongTimedOut_result. destruct E as (_ & Hs & _ & Ht & _ & Hsu & He).
      apply (Once_same w w1 []); auto using same_emitted.
      * now rewrite Hs.
      * rewrite Ht. cbn [timers with_timers]. apply count_filter_le.
    + unfold reconnectNow, log. rewrite exec_modify_then.
      with_result connect_result. destruct E as (_ & Hs & _ & Ht & _ & Hsu & He).
      cbn [wsStore sockets timers suspended emitted with_timers with_logged] in *.
      assert (Hrec : isReconnect t = true) by (unfold isReconnect; now rewrite Hcb).
      pose proof (count_pos isReconnect _ t Hin Hrec) as Hone.
      assert (Hni : WsStore.getConnectionState (wsStore w) defaultWsKey
                    <> READY_STATE_INITIAL).
      { intros Hi. destruct Ho as (_ & _ & H3). destruct (H3 Hi) as [_ H0]. lia. }
      assert (Hst : WsStore.getConnectionState (wsStore w1) defaultWsKey
                    = WsStore.getConnectionState (wsStore w) defaultWsKey).
      { rewrite Hs. destruct (refused _ _); [reflexivity|]. autorewrite with store.
        rewrite String.eqb_refl.
        destruct (state_eqb _ _) eqn:Heq; [|reflexivity].
        apply state_eqb_eq in Heq. contradiction. }
      apply (Once_move w w1 []); auto using same_emitted; rewrite Hst; [auto|].
      intros Hi. contradiction.
  - assert (Hkey : suspendedKey s = defaultWsKey)
      by (apply (wired_suspended Hw); eapply nth_error_In; eauto).
    assert (Hni : WsStore.getConnectionState (wsStore w) defaultWsKey <> READY_STATE_INITIAL).
    { intros Hi. destruct Ho as (_ & _ & H3). destruct (H3 Hi) as [H0 _].
      rewrite H0 in Heqo. destruct i; discriminate. }
    unfold exec.
    destruct (connect_resume signMessage options s input (with_suspended (remove_nth i) w))
      as [c w1] eqn:E.
    cbn [snd]. apply connect_resume_result in E. rewrite Hkey in E.
    destruct E as [[u (_ & Hs & _ & _ & _ & _ & He & _)]|[e [E _]]].
    + cbn [wsStore emitted with_suspended] in Hs, He.
      apply (Once_move w w1 []); auto using same_emitted;
        rewrite Hs; autorewrite with store; [auto|]. intros Hi. contradiction.
    + apply connectFailed_result in E. destruct E as (_ & Hs & _ & _ & _ & _ & He).
      cbn [wsStore emitted with_suspended] in Hs, He.
      apply (Once_move w w1 []); auto using same_emitted;
        rewrite Hs; autorewrite with store; rewrite String.eqb_refl.
      * destruct (state_eqb (WsStore.getConnectionState (wsStore w) defaultWsKey)
                            READY_STATE_CONNECTING) eqn:Heq;
          [intros _; now apply state_eqb_eq|intros; discriminate].
      * destruct (state_eqb (WsStore.getConnectionState (wsStore w) defaultWsKey)
                            READY_STATE_CONNECTING); intros; discriminate.
  - with_result onWsOpen_result. cbv zeta in E. destruct E as (_ & Hs & _ & _ & _ & _ & He).
    cbn [wsStore emitted with_sockets] in Hs, He.
    assert (Hst : WsStore.getConnectionState (wsStore w1) defaultWsKey = READY_STATE_CONNECTED).
    { rewrite Hs. autorewrite with store. now rewrite String.eqb_refl. }
    destruct Ho as (H1 & H2 & _). unfold Once. rewrite Hst, He, count_app.
    split; [|split; discriminate].
    destruct (WsStore.getConnectionState (wsStore w) defaultWsKey) eqn:Hold; cbn; try lia.
    rewrite (H2 eq_refl). lia.
  - destruct (onWsMessage_emits data defaultWsKey w) as [l [He Hl]].
    revert He. with_result onWsMessage_result. destruct E as (Hs & _ & Ht & _ & Hsu).
    intros He. apply (Once_same w w1 l); auto.
    + rewrite Hs. case_match; now autorewrite with store.
    + rewrite Ht. case_match; [apply count_cancelled_le|lia].
  - destruct (onWsMessage_emits data defaultWsKey w) as [l [He Hl]].
    revert He. with_result onWsMessage_result. destruct E as (Hs & _ & Ht & _ & Hsu).
    intros He. apply (Once_same w w1 l); auto.
    + rewrite Hs. case_match; now autorewrite with store.
    + rewrite Ht. case_match; [apply count_cancelled_le|lia].
  - with_result onWsError_result. destruct E as (_ & Hs & _ & Ht & _ & Hsu & He).
    eapply (Once_same w w1); eauto; [case_match; reflexivity|now rewrite Hs|rewrite Ht; lia].
  - with_result onWsError_result. destruct E as (_ & Hs & _ & Ht & _ & Hsu & He).
    eapply (Once_same w w1); eauto; [case_match; reflexivity|now rewrite Hs|rewrite Ht; lia].
  - with_result onWsError_result. destruct E as (_ & Hs & _ & Ht & _ & Hsu & He).
    eapply (Once_same w w1); eauto; [case_match; reflexivity|now rewrite Hs|rewrite Ht; lia].
  - match goal with
    | Hn : nth_error (sockets w) sid = Some ?sock, Hr : readyState ?sock = _ |- _ =>
        apply (closed_once sid sock w Hw Hb Ho Hn); rewrite Hr; discriminate
    end.
  - match goal with
    | Hn : nth_error (sockets w) sid = Some ?sock, Hr : readyState ?sock = _ |- _ =>
        apply (closed_once sid sock w Hw Hb Ho Hn); rewrite Hr; discriminate
    end.
  - match goal with
    | Hn : nth_error (sockets w) sid = Some ?sock, Hr : readyState ?sock = _ |- _ =>
        apply (closed_once sid sock w Hw Hb Ho Hn); rewrite Hr; discriminate
    end.
  - unfold exec, modify. cbn [snd]. apply (Once_same w _ []); auto using same_emitted.
Qed.

Lemma reachable_Once (w : World) : reachable signMessage options w -> Once w.
Proof.
  intros Hreach. induction Hreach as [|a w w' Hreach IH Hstep].
  - destruct (newClient_fields options) as (Hs & _ & _ & _ & _ & He).
    unfold Once. rewrite Hs, He. cbn. split; [lia|]. split; [reflexivity|discriminate].
  - destruct (reachable_invariant _ _ _ Hreach) as [Hw Hb].
    now apply (step_Once a w w').
Qed.

(** X24.  The [open] event is emitted at most once in the life of a client:
    the key is Connecting only until its first transport opens, and every
    later opening is announced by [reconnected] or by nothing. *)
Theorem open_is_emitted_at_most_once (w : World) :
  reachable signMessage options w ->
  count isOpenEvent (emitted w) <= 1.
Proof. intros Hreach. exact (proj1 (reachable_Once w Hreach)). Qed.

End EventLoopFacts.

(* ===================================================================== *)
(** ** The further properties on sample inputs *)
(* ===================================================================== *)

(** X1, on two parameters written in either order. *)
Lemma serializeParams_order_witness :
  RequestUtils.serializeParams
    [("symbol", RequestUtils.PString "BTCUSD"); ("limit", RequestUtils.PNumber 5)] false
  = RequestUtils.serializeParams
      [("limit", RequestUtils.PNumber 5); ("symbol", RequestUtils.PString "BTCUSD")] false.
Proof.
  apply serializeParams_ignores_property_order.
  - repeat constructor; simpl; intuition discriminate.
  - apply perm_swap.
Defined.

(** X2, on a parameter left undefined. *)
Lemma serializeParams_strict_witness :
  RequestUtils.serializeParams
    [("symbol", RequestUtils.PString "BTCUSD"); ("limit", RequestUtils.PUndefined)] true
  = inr (mkError (Some "Failed to sign API request due to undefined parameter") None).
Proof.
  apply (proj2 (proj1 (serializeParams_strict_rejects_undefined
                         [("symbol", RequestUtils.PString "BTCUSD");
                          ("limit", RequestUtils.PUndefined)]))).
  exists "limit". right. left. reflexivity.
Defined.

(** X3, on a symbol and a limit. *)
Lemma serializeParams_listing_witness :
  exists sorted,
    Permutation sorted
      [("symbol", RequestUtils.PString "BTCUSD"); ("limit", RequestUtils.PNumber 5)]
    /\ StronglySorted keyLe sorted
    /\ "limit=5&symbol=BTCUSD" =
       RequestUtils.join "&"
         (map (fun p => (fst p ++ "=" ++
                 match snd p with
                 | RequestUtils.PUndefined => "undefined"
                 | RequestUtils.PString s => s
                 | RequestUtils.PNumber n => NilZero.string_of_int (Z.to_int n)
                 end)%string) sorted).
Proof.
  apply (serializeParams_lists_every_param_by_key
           [("symbol", RequestUtils.PString "BTCUSD"); ("limit", RequestUtils.PNumber 5)]).
  - repeat constructor; simpl; intuition discriminate.
  - intros k v [H|[H|[]]]; inversion H; reflexivity.
  - intros k n [H|[H|[]]]; inversion H; reflexivity.
  - reflexivity.
Defined.

(** X4, on an empty [baseUrl]. *)
Lemma getRestBaseUrl_witness :
  RequestUtils.getRestBaseUrl true
    (RequestUtils.mkRestClientOptions None None None None (Some "") None)
  = "https://api.bybit.com".
Proof.
  apply (proj2 (proj2 (getRestBaseUrl_override_or_default true
                         (RequestUtils.mkRestClientOptions None None None None (Some "") None)))).
  right. reflexivity.
Defined.

(** X5, on a public endpoint followed by a query. *)
Lemma isPublicEndpoint_witness :
  RequestUtils.isPublicEndpoint ("spot/v1/time" ++ "?x=1") = true.
Proof.
  apply (proj1 (isPublicEndpoint_reads_the_prefix "spot/v1/time" "?x=1")). reflexivity.
Defined.

(** X10, on a trade update. *)
Lemma update_event_witness :
  emitted (exec (onWsMessage
                   (Text (JObj [("topic", JStr "trade"); ("data", JArr [])])) defaultWsKey)
                connectedClient)
  = emitted connectedClient ++ [EvUpdate (JObj [("topic", JStr "trade"); ("data", JArr [])])].
Proof.
  apply (proj2 (update_events_come_from_topic_frames
                  (Text (JObj [("topic", JStr "trade"); ("data", JArr [])]))
                  defaultWsKey connectedClient
                  (JObj [("topic", JStr "trade"); ("data", JArr [])]))).
  repeat split.
Defined.

(** X11, on the default options. *)
Lemma getWsUrl_witness :
  getWsUrl inverseClient = "wss://stream-testnet.bybit.com/realtime".
Proof.
  apply (proj2 (proj2 (getWsUrl_override_or_endpoint inverseClient))).
  left. reflexivity.
Defined.

Lemma failedClient_reachable : reachable sampleSign inverseClient failedClient.
Proof.
  apply (after_reachable inverseClient [ConnectResumes 0 failingResume]).
  vm_compute. reflexivity.
Qed.

Lemma droppedClient_reachable : reachable sampleSign inverseClient droppedClient.
Proof.
  apply (after_reachable inverseClient
           [ConnectResumes 0 plainResume; TransportOpens 0; CallSubscribe (OneTopic "trade");
            TransportCloses 0]).
  vm_compute. reflexivity.
Qed.

Lemma linearOpened_reachable : reachable sampleSign linearClient linearOpened.
Proof.
  apply (after_reachable linearClient
           [CallSubscribe (OneTopic "trade"); ConnectResumes 0 plainResume; TransportOpens 0]).
  vm_compute. reflexivity.
Qed.

Lemma idleClient_Idle : Idle idleClient.
Proof. vm_compute. split; [reflexivity|]. split; intros ? []. Qed.

(** X12, on the client whose first attempt failed: [subscribe] and
    [close()] leave it idle. *)
Lemma idle_client_witness :
  Idle (orEmpty (run sampleSign inverseClient
                     [CallSubscribe (OneTopic "trade"); CallClose None] idleClient)).
Proof.
  apply (an_idle_client_never_connects_again sampleSign inverseClient
           [CallSubscribe (OneTopic "trade"); CallClose None] idleClient).
  - exact idleClient_Idle.
  - vm_compute. reflexivity.
Defined.

(** X13, on the client whose [new WebSocket(url)] threw. *)
Lemma failed_first_attempt_witness :
  exists w',
    step sampleSign inverseClient (TimerFires 1) failedClient = Some w'
    /\ Idle w'
    /\ wsStore w' = wsStore failedClient
    /\ sockets w' = sockets failedClient
    /\ emitted w' = emitted failedClient.
Proof.
  apply (a_failed_first_attempt_is_not_retried sampleSign inverseClient failedClient
           (mkTimer 1 Reconnect 500 false) failedClient_reachable).
  - vm_compute. reflexivity.
  - vm_compute. left. reflexivity.
  - reflexivity.
Defined.

(** X14, on the frame a linear client wrote when its transport opened, with
    the topic [trade] stored. *)
Lemma linear_client_witness :
  WsStore.getTopics (wsStore linearOpened) "private" = ["trade"]
  /\ (subscribeFrame [] = pingFrame
      \/ subscribeFrame [] = subscribeFrame []
      \/ subscribeFrame [] = unsubscribeFrame []).
Proof.
  split; [vm_compute; reflexivity|].
  apply (a_linear_client_never_names_a_topic_on_the_wire sampleSign linearClient
           linearOpened
           (mkSocket "wss://stream-testnet.bybit.com/realtime_public" OPEN "inverse"
                     [subscribeFrame []])
           (subscribeFrame [])).
  - reflexivity.
  - exact linearOpened_reachable.
  - vm_compute. left. reflexivity.
  - left. reflexivity.
Defined.

(** X15, on the client waiting to reconnect after its transport closed. *)
Lemma close_keeps_reconnect_witness :
  In (mkTimer 2 Reconnect 500 false) (timers (exec (close defaultWsKey) droppedClient)).
Proof.
  apply (proj1 (close_does_not_call_off_a_pending_reconnect sampleSign inverseClient
                  droppedClient (mkTimer 2 Reconnect 500 false)
                  droppedClient_reachable
                  ltac:(vm_compute; left; reflexivity) eq_refl)).
Defined.

(** X16, on a connected client. *)
Lemma one_attempt_witness :
  length (suspended connectedClient)
  + count isReconnect (timers connectedClient)
  + count liveR (map readyState (sockets connectedClient)) <= 1.
Proof.
  exact (one_connection_attempt_at_a_time sampleSign inverseClient connectedClient
           connectedClient_reachable).
Defined.

(** X17, on a linear client: the key the topic is stored under has no
    socket. *)
Lemma default_key_witness :
  WsStore.getWs (wsStore linearOpened) "private" = None.
Proof.
  apply (proj2 (proj2 (only_the_default_key_is_ever_connected sampleSign linearClient
                         linearOpened linearOpened_reachable)) "private").
  discriminate.
Defined.

(** X18, on a client with credentials, at time 1000 with no offset. *)
Lemma signed_url_witness :
  sockets (exec (connect_resume sampleSign signedClient
                   (mkSuspended defaultWsKey AwaitTimeOffset)
                   (mkResume (inl 0%Z) 1000%Z None))
                emptyWorld)
  = [mkSocket
       "wss://stream-testnet.bybit.com/realtime?api_key=key&expires=6000&signature=secret:GET/realtime6000"
       CONNECTING defaultWsKey []].
Proof.
  unfold exec.
  rewrite (an_authenticated_connect_signs_its_url sampleSign signedClient
             (mkSuspended defaultWsKey AwaitTimeOffset)
             (mkResume (inl 0%Z) 1000%Z None) emptyWorld "key" "secret" 0%Z
             eq_refl ltac:(discriminate) eq_refl ltac:(discriminate) eq_refl eq_refl eq_refl
             eq_refl eq_refl eq_refl eq_refl).
  vm_compute. reflexivity.
Defined.

(** X19, on a client subscribed to [trade] only. *)
Lemma unsubscribe_frame_witness :
  nth_error (sockets (exec (unsubscribe inverseClient (OneTopic "trade")) connectedClient)) 0
  = Some (wrote [unsubscribeFrame []]
            (mkSocket "wss://stream-testnet.bybit.com/realtime" OPEN "inverse"
               [subscribeFrame []; subscribeFrame ["trade"]])).
Proof.
  apply (an_unsubscribe_frame_lists_what_stays_subscribed sampleSign inverseClient
           connectedClient "trade" 0
           (mkSocket "wss://stream-testnet.bybit.com/realtime" OPEN "inverse"
              [subscribeFrame []; subscribeFrame ["trade"]])
           connectedClient_reachable);
    vm_compute; reflexivity.
Defined.

(** X21, on the client waiting to reconnect after its transport closed. *)
Lemma due_reconnect_witness :
  exists w',
    step sampleSign inverseClient (TimerFires 2) droppedClient = Some w'
    /\ suspended w' = [mkSuspended defaultWsKey (authStage inverseClient)]
    /\ timers w' = cancel 2 (timers droppedClient)
    /\ sockets w' = sockets droppedClient
    /\ emitted w' = emitted droppedClient.
Proof.
  apply (a_due_reconnect_goes_ahead_unless_connecting sampleSign inverseClient
           droppedClient (mkTimer 2 Reconnect 500 false) droppedClient_reachable).
  - vm_compute. left. reflexivity.
  - reflexivity.
  - vm_compute. discriminate.
Defined.

(** X22, on the client whose ping got no pong. *)
Lemma pong_timeout_witness :
  exists w',
    step sampleSign inverseClient (TimerFires 2) pingedClient = Some w'
    /\ wsStore w' = wsStore pingedClient
    /\ emitted w' = emitted pingedClient
    /\ suspended w' = suspended pingedClient
    /\ timers w' = cancel 2 (timers pingedClient)
    /\ sockets w' =
         match WsStore.getWs (wsStore pingedClient) defaultWsKey with
         | Some sid =>
             set_nth sid
               (fun s => mkSocket (url s) (closing_of (readyState s)) (handlerKey s) (wire s))
               (sockets pingedClient)
         | None => sockets pingedClient
         end.
Proof.
  apply (a_pong_timeout_only_closes_the_socket sampleSign inverseClient pingedClient
           (mkTimer 2 (PongTimeout defaultWsKey) 1000 false) defaultWsKey
           pingedClient_reachable).
  - vm_compute. right. left. reflexivity.
  - reflexivity.
Defined.

(** X23, on a connected client and the reply of the server. *)
Lemma pong_in_time_witness :
  exists w1 w2,
    step sampleSign inverseClient (TimerFires 1) connectedClient = Some w1
    /\ In (mkTimer (nextTimer connectedClient) (PongTimeout defaultWsKey)
                   (pongTimeout inverseClient) false)
          (timers w1)
    /\ step sampleSign inverseClient (TransportMessage 0 (Text pongReply)) w1 = Some w2
    /\ (forall x, In x (timers w2) <-> In x (timers connectedClient) /\ isPong x = false)
    /\ pongHandle (wsStore w2) defaultWsKey = None
    /\ emitted w2 = emitted connectedClient.
Proof.
  apply (a_pong_in_time_calls_off_the_timeout sampleSign inverseClient connectedClient
           (mkTimer 1 PingTick 10000 true) 0
           (mkSocket "wss://stream-testnet.bybit.com/realtime" OPEN "inverse"
              [subscribeFrame []; subscribeFrame ["trade"]])
           pongReply connectedClient_reachable).
  - vm_compute. left. reflexivity.
  - reflexivity.
  - vm_compute. reflexivity.
  - reflexivity.
  - reflexivity.
Defined.

(** X24, on a client that reconnected. *)
Lemma open_once_witness :
  count isOpenEvent (emitted reconnectingClient) <= 1.
Proof.
  apply (open_is_emitted_at_most_once sampleSign inverseClient reconnectingClient).
  apply (after_reachable inverseClient
           [ConnectResumes 0 plainResume; TransportOpens 0; CallSubscribe (OneTopic "trade");
            TransportCloses 0; TimerFires 2; ConnectResumes 0 plainResume]).
  vm_compute. reflexivity.
Defined.
